(** * RefWire CLI: the dataset import pipeline

    A shallow embedding of the schema inference and payload construction
    code of the RefWire command line client:

    - [utils/jsonProcessor.js]: [validateAndProcessJson],
      [determineDataType], [getSampleValue];
    - [commands/datasetCommands.js]: the ID/Name resolution and the item
      payload construction of the [pull] action, and [confirmAndSave] of
      the import wizard.

    The JavaScript built-ins the code relies on ([String], [Date.parse],
    property lookup through [Object.prototype]) are modelled from
    ECMAScript; whatever the language leaves to the engine is a field of
    the class [Engine]. *)

From Stdlib Require Import ZArith Ascii.
From stdpp Require Import gmap strings list fin_maps pretty.

(** ** The engine interface *)

(** What the embedding takes from the JavaScript engine rather than from
    the repository:
    - the numbers, with the string [String] makes of each;
    - [Date_parse_accepts s], whether [Date.parse(s)] is a number, asked
      only when [s] is not a calendar date in the date-only form, which
      every engine parses;
    - [native_source name], the text [String] makes of the native function
      of that name. *)
Class Engine := {
  Num : Type;
  Number_toString : Num → string;
  Date_parse_accepts : string → bool;
  native_source : string → string;
}.

(** ** Exceptions and results *)

Inductive Exn :=
  | Error (msg : string)
  | TypeError
  | ReferenceError.

Definition Result (A : Type) : Type := Exn + A.

Definition ret {A} (a : A) : Result A := inr a.
Definition throw {A} (e : Exn) : Result A := inl e.
Definition bind {A B} (r : Result A) (k : A → Result B) : Result B :=
  match r with
  | inl e => inl e
  | inr a => k a
  end.

Notation "x ←! r ; k" := (bind r (λ x, k))
  (at level 20, r at level 100, k at level 200, right associativity,
   format "x  ←!  r ;  '/' k").

(** ** String helpers *)

(** A string is the sequence of its code units; [String.length] and
    [String.substring] count them as [length] and [substring] do. *)

Module Str.

Definition is_digit (c : ascii) : bool :=
  (48 <=? nat_of_ascii c) && (nat_of_ascii c <=? 57).

Definition digit (c : ascii) : nat := nat_of_ascii c - 48.

(** [Array.prototype.join]. *)
Fixpoint join (sep : string) (l : list string) : string :=
  match l with
  | [] => ""
  | [s] => s
  | s :: rest => s +:+ sep +:+ join sep rest
  end.

(** [!s] on a string. *)
Definition is_empty (s : string) : bool :=
  match s with
  | EmptyString => true
  | String _ _ => false
  end.

End Str.

Section Pipeline.

Context `{E : Engine}.

(** ** Values *)

(** What [JSON.parse] returns.  The properties of an object are listed in
    the order in which [for ... in] enumerates them. *)
#[local] Unset Elimination Schemes.
Inductive Json : Type :=
  | JNull
  | JBool (b : bool)
  | JNum (n : Num)
  | JStr (s : string)
  | JArr (elems : list Json)
  | JObj (props : list (string * Json)).
#[local] Set Elimination Schemes.

(** A plain object, as its own properties. *)
Definition PlainObject : Type := list (string * Json).

(** The values property lookup can deliver besides parsed JSON: members
    of [Object.prototype]. *)
Inductive Builtin :=
  | ObjectPrototype
  | NativeFunction (name : string).

Inductive Value : Type :=
  | VUndefined
  | VJson (j : Json)
  | VBuiltin (b : Builtin).

Inductive TypeTag :=
  | TUndefined | TString | TNumber | TBoolean | TObject | TFunction.

Definition typeof (v : Value) : TypeTag :=
  match v with
  | VUndefined => TUndefined
  | VJson (JStr _) => TString
  | VJson (JNum _) => TNumber
  | VJson (JBool _) => TBoolean
  | VJson (JNull | JArr _ | JObj _) => TObject
  | VBuiltin ObjectPrototype => TObject
  | VBuiltin (NativeFunction _) => TFunction
  end.

Definition isArray (v : Value) : bool :=
  match v with
  | VJson (JArr _) => true
  | _ => false
  end.

Definition isNull (v : Value) : bool :=
  match v with
  | VJson JNull => true
  | _ => false
  end.

(** *** Own properties and the prototype *)

Fixpoint own_get (props : PlainObject) (k : string) : option Json :=
  match props with
  | [] => None
  | (k', v) :: rest => if decide (k' = k) then Some v else own_get rest k
  end.

(** [Object.hasOwnProperty.call(item, k)]. *)
Definition hasOwnProperty (props : PlainObject) (k : string) : bool :=
  bool_decide (is_Some (own_get props k)).

(** The function-valued members of [Object.prototype], with the name
    each function carries. *)
Definition Object_prototype_functions : list (string * string) :=
  [ ("constructor", "Object");
    ("__defineGetter__", "__defineGetter__");
    ("__defineSetter__", "__defineSetter__");
    ("hasOwnProperty", "hasOwnProperty");
    ("__lookupGetter__", "__lookupGetter__");
    ("__lookupSetter__", "__lookupSetter__");
    ("isPrototypeOf", "isPrototypeOf");
    ("propertyIsEnumerable", "propertyIsEnumerable");
    ("toString", "toString");
    ("valueOf", "valueOf");
    ("toLocaleString", "toLocaleString") ].

Fixpoint assoc (l : list (string * string)) (k : string) : option string :=
  match l with
  | [] => None
  | (k', v) :: rest => if decide (k' = k) then Some v else assoc rest k
  end.

(** Reading [k] from [Object.prototype]; [__proto__] is its accessor,
    which on a plain object answers [Object.prototype] itself. *)
Definition Object_prototype_get (k : string) : Value :=
  if decide (k = "__proto__") then VBuiltin ObjectPrototype
  else match assoc Object_prototype_functions k with
       | Some name => VBuiltin (NativeFunction name)
       | None => VUndefined
       end.

(** [item[k]] on a plain object. *)
Definition Get (item : PlainObject) (k : string) : Value :=
  match own_get item k with
  | Some v => VJson v
  | None => Object_prototype_get k
  end.

(** *** [String(value)] *)

Definition Boolean_toString (b : bool) : string :=
  if b then "true" else "false".

(** [ToString] on parsed JSON.  An array joins its elements with a comma,
    [null] elements printing as the empty string.  An object is converted
    by the [toString] it inherits, unless it owns a [toString] property:
    that one is not callable, the inherited [valueOf] answers the object
    itself, and the conversion raises a [TypeError]. *)
Fixpoint Json_toString (j : Json) : Result string :=
  match j with
  | JNull => ret "null"
  | JBool b => ret (Boolean_toString b)
  | JNum n => ret (Number_toString n)
  | JStr s => ret s
  | JArr elems =>
      (fix join_elems (l : list Json) : Result string :=
         match l with
         | [] => ret ""
         | e :: rest =>
             s ←! match e with JNull => ret "" | _ => Json_toString e end;
             match rest with
             | [] => ret s
             | _ => t ←! join_elems rest; ret (s +:+ "," +:+ t)
             end
         end) elems
  | JObj props =>
      if hasOwnProperty props "toString" then throw TypeError
      else ret "[object Object]"
  end.

Definition ToString (v : Value) : Result string :=
  match v with
  | VUndefined => ret "undefined"
  | VJson j => Json_toString j
  | VBuiltin ObjectPrototype => ret "[object Object]"
  | VBuiltin (NativeFunction name) => ret (native_source name)
  end.

(** ** jsonProcessor.js *)

Inductive DataType := Text | Date | Number | Boolean | List | Unknown.

#[export] Instance DataType_eq_dec : EqDecision DataType.
Proof. solve_decision. Defined.

(** *** The date test of [determineDataType] *)

(** [/\d{4}-\d{2}-\d{2}/] matched at the start of [s]. *)
Definition date_pattern_here (s : string) : bool :=
  match s with
  | String y1 (String y2 (String y3 (String y4 (String d1
      (String m1 (String m2 (String d2 (String a1 (String a2 _))))))))) =>
      Str.is_digit y1 && Str.is_digit y2 && Str.is_digit y3 && Str.is_digit y4
      && bool_decide (d1 = "-"%char)
      && Str.is_digit m1 && Str.is_digit m2
      && bool_decide (d2 = "-"%char)
      && Str.is_digit a1 && Str.is_digit a2
  | _ => false
  end.

(** [/\d{4}-\d{2}-\d{2}/.test(s)]: the pattern is not anchored. *)
Fixpoint date_pattern_test (s : string) : bool :=
  date_pattern_here s ||
  match s with
  | EmptyString => false
  | String _ s' => date_pattern_test s'
  end.

Definition is_leap_year (y : nat) : bool :=
  ((y mod 4 =? 0) && negb (y mod 100 =? 0)) || (y mod 400 =? 0).

Definition days_in_month (y m : nat) : nat :=
  match m with
  | 1 | 3 | 5 | 7 | 8 | 10 | 12 => 31
  | 4 | 6 | 9 | 11 => 30
  | 2 => if is_leap_year y then 29 else 28
  | _ => 0
  end.

(** The date-only form [YYYY-MM-DD] of the ECMAScript date-time string
    format, naming a day of the calendar. *)
Definition is_calendar_date (s : string) : bool :=
  match s with
  | String y1 (String y2 (String y3 (String y4 (String d1
      (String m1 (String m2 (String d2 (String a1 (String a2 EmptyString))))))))) =>
      date_pattern_here s &&
      (let y := 1000 * Str.digit y1 + 100 * Str.digit y2
                + 10 * Str.digit y3 + Str.digit y4 in
       let m := 10 * Str.digit m1 + Str.digit m2 in
       let d := 10 * Str.digit a1 + Str.digit a2 in
       (1 <=? d) && (d <=? days_in_month y m))
  | _ => false
  end.

(** [isNaN(Date.parse(s))].  Every engine must parse a calendar date in
    the date-only form; on any other string the engine decides. *)
Definition Date_parse_isNaN (s : string) : bool :=
  if is_calendar_date s then false else negb (Date_parse_accepts s).

(** *** [determineDataType] *)

Definition determineDataType (value : Value) : DataType :=
  match typeof value with
  | TString =>
      match value with
      | VJson (JStr s) =>
          if date_pattern_test s && negb (Date_parse_isNaN s) then Date
          else Text
      | _ => Text
      end
  | TNumber => Number
  | TBoolean => Boolean
  | TObject =>
      if isNull value then Unknown
      else if isArray value then List
      else Unknown
  | _ => Unknown
  end.

(** *** [getSampleValue] *)

(** [None] stands for [undefined]; the two tests that come before the
    [switch] are the first two cases. *)
Definition getSampleValue (value : Value) : option string :=
  if isNull value then Some "null"
  else match value with
  | VUndefined => None
  | VJson (JStr s) =>
      Some (if 30 <? String.length s
            then String.substring 0 27 s +:+ "..." else s)
  | VJson (JNum n) => Some (Number_toString n)
  | VJson (JBool b) => Some (Boolean_toString b)
  | VJson (JArr _) => Some "[...]"
  | VJson (JNull | JObj _) | VBuiltin ObjectPrototype => Some "{...}"
  | VBuiltin (NativeFunction name) =>
      Some (String.substring 0 30 (native_source name))
  end.

(** *** [validateAndProcessJson] *)

Record Field := {
  name : string;
  dataType : DataType;
  sampleValues : list string;
  isId : bool;
  isName : bool;
  isIncluded : bool;
}.

Definition set_dataType (t : DataType) (f : Field) : Field :=
  {| name := name f; dataType := t; sampleValues := sampleValues f;
     isId := isId f; isName := isName f; isIncluded := isIncluded f |}.

Definition set_sampleValues (l : list string) (f : Field) : Field :=
  {| name := name f; dataType := dataType f; sampleValues := l;
     isId := isId f; isName := isName f; isIncluded := isIncluded f |}.

Definition set_isId (b : bool) (f : Field) : Field :=
  {| name := name f; dataType := dataType f; sampleValues := sampleValues f;
     isId := b; isName := isName f; isIncluded := isIncluded f |}.

Definition set_isName (b : bool) (f : Field) : Field :=
  {| name := name f; dataType := dataType f; sampleValues := sampleValues f;
     isId := isId f; isName := b; isIncluded := isIncluded f |}.

Definition set_isIncluded (b : bool) (f : Field) : Field :=
  {| name := name f; dataType := dataType f; sampleValues := sampleValues f;
     isId := isId f; isName := isName f; isIncluded := b |}.

(** [Set.prototype.add] on a set kept in insertion order. *)
Definition Set_add (s : string) (l : list string) : list string :=
  if decide (s ∈ l) then l else l ++ [s].

(** [fieldsDict], a [Map] from field name to field, kept in insertion
    order. *)
Definition Map_has (d : list Field) (key : string) : bool :=
  bool_decide (key ∈ map name d).

Definition Map_update (d : list Field) (key : string)
    (f : Field → Field) : list Field :=
  map (λ field, if decide (name field = key) then f field else field) d.

Definition new_field (key : string) (value : Value) : Field :=
  {| name := key; dataType := determineDataType value; sampleValues := [];
     isId := false; isName := false; isIncluded := true |}.

(** What the loop body does to the field it has fetched: collect a
    sample, then upgrade the type. *)
Definition collect_sample (value : Value) (field : Field) : Field :=
  if length (sampleValues field) <? 3 then
    match getSampleValue value with
    | Some sample =>
        if Str.is_empty sample then field
        else set_sampleValues (Set_add sample (sampleValues field)) field
    | None => field
    end
  else field.

Definition upgrade_type (value : Value) (field : Field) : Field :=
  let currentType := determineDataType value in
  if bool_decide (dataType field = Unknown)
     && negb (bool_decide (currentType = Unknown))
  then set_dataType currentType field
  else field.

Definition visit_key (d : list Field) (key : string) (value : Value)
    : list Field :=
  let d := if Map_has d key then d else d ++ [new_field key value] in
  Map_update d key (λ field, upgrade_type value (collect_sample value field)).

(** The inner [for (const key in item)] loop. *)
Definition discover_item (item : PlainObject) (d : list Field) : list Field :=
  foldl (λ d key,
           if hasOwnProperty item key then visit_key d key (Get item key)
           else d)
        d (map fst item).

(** The outer loop, from index [i] on: the index of the first element
    that is not a plain object, or the dictionary. *)
Fixpoint discover_items (items : list Json) (i : nat) (d : list Field)
    : nat + list Field :=
  match items with
  | [] => inr d
  | JObj props :: rest => discover_items rest (S i) (discover_item props d)
  | _ :: _ => inl i
  end.

(** [state.jsonContent], by what the code makes of it: a falsy value
    ([null], the empty string), a text on which [JSON.parse] throws, with
    the message of the exception, or a text with its parse. *)
Inductive JsonContent :=
  | NoContent
  | Unparsable (message : string)
  | ParsesTo (parsed : Json).

(** The state object of one import.  [parsedJson] holds whatever
    [JSON.parse] returned while [validateAndProcessJson] runs (elements of
    type [Json]); the code that runs after it has answered [true] finds
    plain objects there (elements of type [PlainObject]). *)
Record WizardState (Element : Type) := {
  jsonContent : JsonContent;
  parsedJson : option (list Element);
  fields : list Field;
  itemCount : nat;
  datasetId : string;
  datasetName : string;
  datasetDescription : string;
}.
#[global] Arguments jsonContent {_} _.
#[global] Arguments parsedJson {_} _.
#[global] Arguments fields {_} _.
#[global] Arguments itemCount {_} _.
#[global] Arguments datasetId {_} _.
#[global] Arguments datasetName {_} _.
#[global] Arguments datasetDescription {_} _.

(** [state.parsedJson = parsed; state.itemCount = parsed.length]. *)
Definition set_parsed {Element} (items : list Element)
    (st : WizardState Element) : WizardState Element :=
  {| jsonContent := jsonContent st; parsedJson := Some items;
     fields := fields st; itemCount := length items;
     datasetId := datasetId st; datasetName := datasetName st;
     datasetDescription := datasetDescription st |}.

(** [state.fields = ...]. *)
Definition set_fields {Element} (l : list Field)
    (st : WizardState Element) : WizardState Element :=
  {| jsonContent := jsonContent st; parsedJson := parsedJson st;
     fields := l; itemCount := itemCount st;
     datasetId := datasetId st; datasetName := datasetName st;
     datasetDescription := datasetDescription st |}.

(** The state the wizard starts from; the [pull] action starts from the
    same, with the options of its command line for the three texts. *)
Definition new_wizardState {Element} : WizardState Element :=
  {| jsonContent := NoContent; parsedJson := None; fields := [];
     itemCount := 0; datasetId := ""; datasetName := "";
     datasetDescription := "" |}.

(** [printError] in [jsonProcessor.js].  The file imports nothing and
    declares no such function, so the name is bound nowhere: evaluating
    the call throws [ReferenceError: printError is not defined], before
    the argument is looked at. *)
Definition printError (message : string) : Result unit :=
  throw ReferenceError.

(** How a call of [validateAndProcessJson] ends. *)
Inductive Outcome :=
  | ReturnsTrue
  | ReturnsFalse
  | Throws (e : Exn).

(** [printError(message); return false;] *)
Definition print_and_return_false (message : string) : Outcome :=
  match printError message with
  | inr _ => ReturnsFalse
  | inl e => Throws e
  end.

(** The block [catch (e)], on the message of the exception it catches:
    [printError(`JSON Parsing Error: ${e.message}`); return false;] *)
Definition catch_block (e_message : string) : Outcome :=
  print_and_return_false ("JSON Parsing Error: " +:+ e_message).

(** [printError(message); return false;] inside the [try] block: the
    [ReferenceError] goes to the [catch] block. *)
Definition print_in_try (message : string) : Outcome :=
  match printError message with
  | inr _ => ReturnsFalse
  | inl _ => catch_block "printError is not defined"
  end.

Definition validateAndProcessJson (state : WizardState Json)
    : WizardState Json * Outcome :=
  match jsonContent state with
  | NoContent =>
      (state,
       print_and_return_false "No JSON content provided or downloaded.")
  | Unparsable message => (state, catch_block message)
  | ParsesTo (JArr parsed) =>
      match parsed with
      | [] =>
          (state,
           print_in_try "Validation Error: JSON array cannot be empty.")
      | _ =>
          let state := set_parsed parsed state in
          match discover_items parsed 0 [] with
          | inl i =>
              (state,
               print_in_try ("Validation Error: Item at index " +:+ pretty i
                             +:+ " is not a valid JSON object."))
          | inr [] =>
              (state,
               print_in_try "Validation Error: No fields found across all items in the JSON array.")
          | inr fieldsDict => (set_fields fieldsDict state, ReturnsTrue)
          end
      end
  | ParsesTo _ =>
      (state, print_in_try "Validation Error: Input must be a JSON array.")
  end.

(** Both callers, [runImportWizard] and the [pull] action:
    [if (!jsonProcessor.validateAndProcessJson(wizardState))
       throw new Error('JSON validation failed. Cannot proceed.');]
    What the call throws leaves the caller as well. *)
Definition validation_step (state : WizardState Json)
    : Result (WizardState Json) :=
  match validateAndProcessJson state with
  | (state, ReturnsTrue) => ret state
  | (_, ReturnsFalse) =>
      throw (Error "JSON validation failed. Cannot proceed.")
  | (_, Throws e) => throw e
  end.

(** ** datasetCommands.js *)

(** *** Loops that may throw *)

(** [list.forEach(body)] with the variables the body assigns threaded
    through; an exception ends the loop. *)
Fixpoint forEach {A S} (l : list A) (body : S → A → Result S) (s : S)
    : Result S :=
  match l with
  | [] => ret s
  | a :: rest => s' ←! body s a; forEach rest body s'
  end.

(** *** ID and Name resolution of the [pull] action *)

(** [responseData.meta]: the field names the remote catalog declares. *)
Record Meta := {
  idField : option string;
  nameField : option string;
}.

(** A command line option, [undefined] when it was not given, is taken
    into account when it is truthy. *)
Definition given (option_value : option string) : option string :=
  match option_value with
  | Some s => if Str.is_empty s then None else Some s
  | None => None
  end.

Definition name_is (wanted : option string) (f : Field) : Prop :=
  Some (name f) = wanted.

#[export] Instance name_is_dec wanted f : Decision (name_is wanted f).
Proof. unfold name_is. apply _. Defined.

Definition resolve_id (specifiedIdField metaIdField : option string)
    (fields : list Field) : Result (list Field) :=
  let fieldNames := map name fields in
  match given specifiedIdField with
  | Some specified =>
      if bool_decide (specified ∈ fieldNames) then
        ret (map (λ f, set_isId (bool_decide (name f = specified)) f) fields)
      else
        throw (Error ("Specified ID field '" +:+ specified
                      +:+ "' not found in dataset. Available fields: "
                      +:+ Str.join ", " fieldNames))
  | None =>
      match list_find (name_is metaIdField) fields with
      | Some (i, field) => ret (<[i := set_isId true field]> fields)
      | None =>
          throw (Error "No ID field specified and could not auto-detect one. Use --id-field to specify which field to use as ID.")
      end
  end.

Definition resolve_name (specifiedNameField metaNameField : option string)
    (fields : list Field) : Result (list Field) :=
  let fieldNames := map name fields in
  match given specifiedNameField with
  | Some specified =>
      if bool_decide (specified ∈ fieldNames) then
        ret (map (λ f, set_isName (bool_decide (name f = specified)) f) fields)
      else
        throw (Error ("Specified Name field '" +:+ specified
                      +:+ "' not found in dataset. Available fields: "
                      +:+ Str.join ", " fieldNames))
  | None =>
      match list_find (name_is metaNameField) fields with
      | Some (i, field) => ret (<[i := set_isName true field]> fields)
      | None =>
          throw (Error "No Name field specified and could not auto-detect one. Use --name-field to specify which field to use as Name.")
      end
  end.

(** The two resolutions in the order of the action: ID, then Name. *)
Definition pull_resolve (specifiedIdField specifiedNameField : option string)
    (meta : Meta) (fields : list Field) : Result (list Field) :=
  fields ←! resolve_id specifiedIdField (idField meta) fields;
  resolve_name specifiedNameField (nameField meta) fields.

(** *** The actions of [configureFields] *)

(** [state.fields.forEach(f => f.isId = (f.name === fieldToSet))]. *)
Definition action_set_id (fieldToSet : string) (fields : list Field)
    : list Field :=
  map (λ f, set_isId (bool_decide (name f = fieldToSet)) f) fields.

Definition action_set_name (fieldToSet : string) (fields : list Field)
    : list Field :=
  map (λ f, set_isName (bool_decide (name f = fieldToSet)) f) fields.

(** The ID and the Name field cannot be excluded. *)
Definition action_toggle_include (fieldToToggle : string)
    (fields : list Field) : list Field :=
  match list_find (name_is (Some fieldToToggle)) fields with
  | Some (i, field) =>
      if isId field || isName field then fields
      else <[i := set_isIncluded (negb (isIncluded field)) field]> fields
  | None => fields
  end.

(** *** Item payload *)

(** The own enumerable properties of [Data] are what the request body
    serialises. *)
Record DatasetItem := {
  item_Id : string;
  item_Name : string;
  item_Data : gmap string Json;
  item_IsArchived : bool;
}.

Record FinalField := {
  fd_Name : string;
  fd_DataType : DataType;
  fd_IsId : bool;
  fd_IsName : bool;
  fd_IsRequired : bool;
  fd_IsIncluded : bool;
  fd_SampleValues : list string;
}.

(** The arguments of [api.createDataset]. *)
Record CreateDataset := {
  arg_id : string;
  arg_name : string;
  arg_description : string;
  arg_idField : string;
  arg_nameField : string;
  arg_fields : list FinalField;
  arg_items : gmap string DatasetItem;
}.

(** What a save step has done when it returns: the number of skipped
    items it reported, and the request it made. *)
Record Saved := {
  skippedItemsCount : nat;
  request : CreateDataset;
}.

Definition is_nullish (v : Value) : bool :=
  match v with
  | VUndefined | VJson JNull => true
  | _ => false
  end.

(** The test [if (itemsPayload[k])]: an entry of the payload is an
    object, hence truthy, and so is every member of [Object.prototype]. *)
Definition payload_truthy (itemsPayload : gmap string DatasetItem) (k : string)
    : bool :=
  match itemsPayload !! k with
  | Some _ => true
  | None =>
      match Object_prototype_get k with
      | VUndefined => false
      | _ => true
      end
  end.

(** The prototype of the [data] object under construction. *)
Inductive Proto :=
  | ProtoObject
  | ProtoNull
  | ProtoJson (j : Json).

Record DataObject := {
  data_proto : Proto;
  data_own : gmap string Json;
}.

Definition empty_object : DataObject :=
  {| data_proto := ProtoObject; data_own := ∅ |}.

(** Whether an assignment to [__proto__] that finds no own property
    reaches the setter of [Object.prototype]. *)
Definition reaches_proto_setter (p : Proto) : bool :=
  match p with
  | ProtoObject => true
  | ProtoNull => false
  | ProtoJson (JObj props) => negb (hasOwnProperty props "__proto__")
  | ProtoJson _ => true
  end.

(** [data[k] = v].  Every key but [__proto__] becomes an own property.
    For [__proto__] the setter replaces the prototype when [v] is an
    object or [null] and does nothing otherwise. *)
Definition data_set (data : DataObject) (k : string) (v : Json) : DataObject :=
  if bool_decide (k = "__proto__")
     && negb (bool_decide (is_Some (data_own data !! k)))
     && reaches_proto_setter (data_proto data)
  then
    match v with
    | JObj _ | JArr _ => {| data_proto := ProtoJson v; data_own := data_own data |}
    | JNull => {| data_proto := ProtoNull; data_own := data_own data |}
    | _ => data
    end
  else {| data_proto := data_proto data; data_own := <[k := v]> (data_own data) |}.

(** The copy loop of [confirmAndSave]:
    [if (field.isIncluded && Object.hasOwnProperty.call(item, field.name))
       data[field.name] = item[field.name]]. *)
Definition copy_included (fields : list Field) (item : PlainObject) : DataObject :=
  foldl (λ data field,
           if isIncluded field then
             match own_get item (name field) with
             | Some v => data_set data (name field) v
             | None => data
             end
           else data)
        empty_object fields.

(** The copy loop of the [pull] action:
    [if (Object.hasOwnProperty.call(item, field.name))
       data[field.name] = item[field.name]]. *)
Definition copy_all (fields : list Field) (item : PlainObject) : DataObject :=
  foldl (λ data field,
           match own_get item (name field) with
           | Some v => data_set data (name field) v
           | None => data
           end)
        empty_object fields.

(** The body of [parsedJson.forEach], with the copy loop of either call
    site; it assigns [itemsPayload] and [skippedItemsCount]. *)
Definition add_item (copy : PlainObject → DataObject) (idName nameName : string)
    (acc : gmap string DatasetItem * nat) (item : PlainObject)
    : Result (gmap string DatasetItem * nat) :=
  let '(itemsPayload, skippedItemsCount) := acc in
  let itemIdValue := Get item idName in
  let itemNameValue := Get item nameName in
  if is_nullish itemIdValue || is_nullish itemNameValue then
    ret (itemsPayload, S skippedItemsCount)
  else
    itemIdString ←! ToString itemIdValue;
    itemNameString ←! ToString itemNameValue;
    if Str.is_empty itemIdString then
      ret (itemsPayload, S skippedItemsCount)
    else if payload_truthy itemsPayload itemIdString then
      ret (itemsPayload, S skippedItemsCount)
    else
      let data := copy item in
      ret (<[itemIdString :=
               {| item_Id := itemIdString; item_Name := itemNameString;
                  item_Data := data_own data; item_IsArchived := false |}]>
             itemsPayload,
           skippedItemsCount).

(** [parsedJson.forEach(...)]; on [null] the call itself throws. *)
Definition build_items (copy : PlainObject → DataObject) (idName nameName : string)
    (parsedJson : option (list PlainObject)) : Result (gmap string DatasetItem * nat) :=
  match parsedJson with
  | None => throw TypeError
  | Some records => forEach records (add_item copy idName nameName) (∅, 0)
  end.

(** [fields.find(f => f.isId)], [fields.find(f => f.isName)]. *)
Definition find_field (flag : Field → bool) (fields : list Field)
    : option Field :=
  snd <$> list_find (λ f, flag f = true) fields.

Definition final_field_pull (f : Field) : FinalField :=
  {| fd_Name := name f; fd_DataType := dataType f;
     fd_IsId := isId f; fd_IsName := isName f;
     fd_IsRequired := isId f || isName f;
     fd_IsIncluded := true;
     fd_SampleValues := sampleValues f |}.

Definition final_field_wizard (f : Field) : FinalField :=
  {| fd_Name := name f; fd_DataType := dataType f;
     fd_IsId := isId f; fd_IsName := isName f;
     fd_IsRequired := isId f || isName f;
     fd_IsIncluded := isIncluded f;
     fd_SampleValues := sampleValues f |}.

(** The [pull] action from the confirmation display to
    [api.createDataset].  Reading [idField.name] for the display throws
    when no field is marked. *)
Definition pull_save (wizardState : WizardState PlainObject) : Result Saved :=
  match find_field isId (fields wizardState),
        find_field isName (fields wizardState) with
  | Some idField, Some nameField =>
      let fields := map (set_isIncluded true) (fields wizardState) in
      acc ←! build_items (copy_all fields) (name idField) (name nameField)
               (parsedJson wizardState);
      let finalFields := map final_field_pull fields in
      ret {| skippedItemsCount := acc.2;
             request :=
               {| arg_id := datasetId wizardState;
                  arg_name := datasetName wizardState;
                  arg_description := datasetDescription wizardState;
                  arg_idField := name idField;
                  arg_nameField := name nameField;
                  arg_fields := finalFields;
                  arg_items := acc.1 |} |}
  | _, _ => throw TypeError
  end.

(** [confirmAndSave]; [confirm] is the answer to its prompt. *)
Definition confirmAndSave (confirm : bool) (state : WizardState PlainObject)
    : Result Saved :=
  match find_field isId (fields state), find_field isName (fields state) with
  | Some idField, Some nameField =>
      if negb confirm then throw (Error "Wizard cancelled.")
      else
        acc ←! build_items (copy_included (fields state))
                 (name idField) (name nameField) (parsedJson state);
        let finalFields :=
          map final_field_wizard
              (filter (λ f, isIncluded f = true) (fields state)) in
        if negb (existsb fd_IsId finalFields)
           || negb (existsb fd_IsName finalFields)
        then throw (Error "Wizard cancelled due to invalid final field configuration.")
        else
          ret {| skippedItemsCount := acc.2;
                 request :=
                   {| arg_id := datasetId state;
                      arg_name := datasetName state;
                      arg_description := datasetDescription state;
                      arg_idField := name idField;
                      arg_nameField := name nameField;
                      arg_fields := finalFields;
                      arg_items := acc.1 |} |}
  | _, _ => throw (Error "Wizard cancelled due to configuration error.")
  end.

(** *** The menu of [configureFields] *)

(** [hasId && hasName]: what enables the choice [Proceed to Metadata]. *)
Definition canProceed (fields : list Field) : bool :=
  existsb isId fields && existsb isName fields.

(** [if (currentField) currentField.dataType = newType]. *)
Definition action_change_type (fieldToChange : string) (newType : DataType)
    (fields : list Field) : list Field :=
  match list_find (name_is (Some fieldToChange)) fields with
  | Some (i, currentField) => <[i := set_dataType newType currentField]> fields
  | None => fields
  end.

(** The choices of the menu that change the fields, each with the field
    picked in the prompt that follows. *)
Inductive Action :=
  | Set_id (fieldToSet : string)
  | Set_name (fieldToSet : string)
  | Change_type (fieldToChange : string) (newType : DataType)
  | Toggle_include (fieldToToggle : string).

Definition picked (a : Action) : string :=
  match a with
  | Set_id f | Set_name f | Change_type f _ | Toggle_include f => f
  end.

(** One turn of the [switch (action)]. *)
Definition perform (a : Action) (fields : list Field) : list Field :=
  match a with
  | Set_id fieldToSet => action_set_id fieldToSet fields
  | Set_name fieldToSet => action_set_name fieldToSet fields
  | Change_type fieldToChange newType =>
      action_change_type fieldToChange newType fields
  | Toggle_include fieldToToggle => action_toggle_include fieldToToggle fields
  end.

(** The [while (configuring)] loop as the runs that leave it by
    [proceed]: the prompts offer the names of the fields and nothing else,
    and [proceed] can be chosen only when [canProceed]. *)
Inductive Configures : list Field → list Field → Prop :=
  | Configures_proceed fields :
      canProceed fields = true → Configures fields fields
  | Configures_action a fields fields' :
      picked a ∈ map name fields →
      Configures (perform a fields) fields' →
      Configures fields fields'.

(** *** The dataset ID check of the [pull] action *)

(** [\s] on a code unit below 256. *)
Definition is_whitespace (c : ascii) : bool :=
  let n := nat_of_ascii c in
  ((9 <=? n) && (n <=? 13)) || (n =? 32) || (n =? 160).

(** [/\s/.test(s)]. *)
Fixpoint has_whitespace (s : string) : bool :=
  match s with
  | EmptyString => false
  | String c s' => is_whitespace c || has_whitespace s'
  end.

(** [toLowerCase] on a code unit below 256: the letters [A] to [Z] and
    the capital letters from U+00C0 to U+00DE, the sign U+00D7 apart, move
    up by 32. *)
Definition lower_char (c : ascii) : ascii :=
  let n := nat_of_ascii c in
  if ((65 <=? n) && (n <=? 90))
     || ((192 <=? n) && (n <=? 222) && negb (n =? 215))
  then ascii_of_nat (n + 32) else c.

Fixpoint toLowerCase (s : string) : string :=
  match s with
  | EmptyString => EmptyString
  | String c s' => String (lower_char c) (toLowerCase s')
  end.

(** [if (/\s/.test(id)) throw ...; if (id !== id.toLowerCase()) id = id.toLowerCase()]. *)
Definition check_datasetId (datasetId : string) : Result string :=
  if has_whitespace datasetId then
    throw (Error "Dataset ID should not contain spaces.")
  else ret (toLowerCase datasetId).

(** *** The prompts of [promptForMetadata] *)

(** What a [validate] callback answers: [true], or a message. *)
Inductive Validation :=
  | Valid
  | Invalid (message : string).

(** The [validate] callback of the dataset ID. *)
Definition datasetId_validate (input : string) : Validation :=
  if Str.is_empty input then Invalid "Dataset ID cannot be empty."
  else if has_whitespace input then
    Invalid "Dataset ID should not contain spaces."
  else if bool_decide (input ≠ toLowerCase input) then
    Invalid "Dataset ID should be lowercase."
  else Valid.

(** The [filter] callback of the dataset ID. *)
Definition datasetId_filter (input : string) : string := toLowerCase input.

(** The [validate] callback of the dataset name. *)
Definition datasetName_validate (input : string) : Validation :=
  if Str.is_empty input then Invalid "Dataset Name cannot be empty."
  else Valid.

(** *** The [pull] action once the download is in the state *)

(** The elements of [parsedJson] that are plain objects: all of them once
    [validateAndProcessJson] has answered [true]. *)
Definition plain_objects (items : list Json) : list PlainObject :=
  omap (λ item, match item with
                | JObj props => Some props
                | _ => None
                end) items.

(** From [validateAndProcessJson] to [api.createDataset]: validation, the
    dataset name, the ID and Name fields, the dataset ID, the save
    step. *)
Definition pull_process (specifiedIdField specifiedNameField : option string)
    (meta : Meta) (wizardState : WizardState Json) : Result Saved :=
  wizardState ←! validation_step wizardState;
  if Str.is_empty (datasetName wizardState) then
    throw (Error "Dataset name is required. Provide it with --name parameter or ensure ListStor response includes a name.")
  else
    fields ←! pull_resolve specifiedIdField specifiedNameField meta
                (fields wizardState);
    datasetId ←! check_datasetId (datasetId wizardState);
    pull_save
      {| jsonContent := jsonContent wizardState;
         parsedJson := plain_objects <$> parsedJson wizardState;
         fields := fields;
         itemCount := itemCount wizardState;
         datasetId := datasetId;
         datasetName := datasetName wizardState;
         datasetDescription := datasetDescription wizardState |}.

(** *** The wizard from validation to [api.createDataset] *)

(** [runImportWizard] after [promptForInput], along one run of its
    prompts: the fields as [configureFields] leaves them, the three
    answers of [promptForMetadata], the answer to the confirmation. *)
Definition wizard_process (configured : list Field)
    (answers : string * string * string) (confirm : bool)
    (wizardState : WizardState Json) : Result Saved :=
  wizardState ←! validation_step wizardState;
  confirmAndSave confirm
    {| jsonContent := jsonContent wizardState;
       parsedJson := plain_objects <$> parsedJson wizardState;
       fields := configured;
       itemCount := itemCount wizardState;
       datasetId := answers.1.1;
       datasetName := answers.1.2;
       datasetDescription := answers.2 |}.

(** ** apiClient.js and listStorClient.js *)

(** [s.startsWith(p)], with what follows the prefix. *)
Fixpoint strip_prefix (p s : string) : option string :=
  match p, s with
  | EmptyString, _ => Some s
  | String a p', String b s' =>
      if decide (a = b) then strip_prefix p' s' else None
  | String _ _, EmptyString => None
  end.

Fixpoint skip_digits (s : string) : string :=
  match s with
  | String c s' => if Str.is_digit c then skip_digits s' else s
  | EmptyString => s
  end.

(** The optional group [(:\d+)?] at the start of [s]: what it leaves. *)
Definition match_port (s : string) : string :=
  match s with
  | String ":" (String d s') =>
      if Str.is_digit d then skip_digits s' else s
  | _ => s
  end.

(** [/^https:\/\/(localhost|127\.0\.0\.1|\[::1\])(:\d+)?/]: the rests of
    the string after each way of matching. *)
Definition match_local (url : string) : list string :=
  match strip_prefix "https://" url with
  | Some rest =>
      omap (λ host, match_port <$> strip_prefix host rest)
           ["localhost"; "127.0.0.1"; "[::1]"]
  | None => []
  end.

(** Whether the client is created with the agent that does not verify
    certificates. *)
Definition isLocalDev (url : string) : bool :=
  match match_local url with
  | [] => false
  | _ :: _ => true
  end.

(** [rawUrl.startsWith('http') ? rawUrl : `https://${rawUrl}`]. *)
Definition store_baseURL (rawUrl : string) : string :=
  match strip_prefix "http" rawUrl with
  | Some _ => rawUrl
  | None => "https://" +:+ rawUrl
  end.

End Pipeline.

(** ** Vocabulary of the statements *)

Section Vocabulary.

Context `{E : Engine}.

(** A list without its repetitions, each element at the place of its
    first occurrence. *)
Fixpoint first_seen (l : list string) : list string :=
  match l with
  | [] => []
  | x :: rest => x :: filter (λ y, y ≠ x) (first_seen rest)
  end.

Definition plain_object (j : Json) : bool :=
  match j with
  | JObj _ => true
  | _ => false
  end.

(** The keys of all records, record after record, each record in the
    order of its own keys. *)
Definition all_keys (items : list Json) : list string :=
  flat_map (λ item, match item with
                    | JObj props => map fst props
                    | _ => []
                    end) items.

(** The values the records hold under [key], in the order of the
    records. *)
Definition sightings (key : string) (items : list Json) : list Value :=
  omap (λ item, match item with
                | JObj props => VJson <$> own_get props key
                | _ => None
                end) items.

(** The first type other than [Unknown], or [Unknown]. *)
Definition first_concrete (types : list DataType) : DataType :=
  default Unknown (head (filter (λ t, t ≠ Unknown) types)).

(** The projections of the values that are neither [undefined] nor
    empty. *)
Definition projections (values : list Value) : list string :=
  filter (λ s, s ≠ "") (omap getSampleValue values).

(** [fieldsDict.get(key)]. *)
Fixpoint Map_get (d : list Field) (key : string) : option Field :=
  match d with
  | [] => None
  | field :: rest =>
      if decide (name field = key) then Some field else Map_get rest key
  end.

(** One sighting of a value, seen from the field of its key: what the
    loop body does to that field, created first when the key is new. *)
Definition sight (value : Value) (field : Field) : Field :=
  upgrade_type value (collect_sample value field).

Definition visit_one (key : string) (o : option Field) (value : Value)
    : option Field :=
  Some (sight value (default (new_field key value) o)).

(** The sample set after one more value. *)
Definition add_sample (o : option string) (samples : list string)
    : list string :=
  if length samples <? 3 then
    match o with
    | Some sample => if Str.is_empty sample then samples
                     else Set_add sample samples
    | None => samples
    end
  else samples.

(** [state.jsonContent = ...], as [promptForInput] and the download of
    the [pull] action do. *)
Definition set_jsonContent {Element} (c : JsonContent)
    (st : WizardState Element) : WizardState Element :=
  {| jsonContent := c; parsedJson := parsedJson st;
     fields := fields st; itemCount := itemCount st;
     datasetId := datasetId st; datasetName := datasetName st;
     datasetDescription := datasetDescription st |}.

(** The input that [validateAndProcessJson] turns away with a validation
    error, in the words of the specification. *)
Definition invalid_input (parsed : Json) : Prop :=
  match parsed with
  | JArr items =>
      items = [] ∨ Exists (λ item, plain_object item = false) items
      ∨ all_keys items = []
  | _ => True
  end.

(** The errors of the specification's taxonomy, as the [Error] objects
    the [pull] action throws for them.  The message of the first lists
    the available names in their order, separated by a comma and a
    space. *)
Definition FieldNotFoundError (kind specified : string)
    (available : list string) : Exn :=
  Error ("Specified " +:+ kind +:+ " field '" +:+ specified
         +:+ "' not found in dataset. Available fields: "
         +:+ String.concat ", " available).

Definition ResolutionError_id : Exn :=
  Error "No ID field specified and could not auto-detect one. Use --id-field to specify which field to use as ID.".

Definition ResolutionError_name : Exn :=
  Error "No Name field specified and could not auto-detect one. Use --name-field to specify which field to use as Name.".

(** A key that [Object.prototype] answers for. *)
Definition inherited (k : string) : bool :=
  match Object_prototype_get k with
  | VUndefined => false
  | _ => true
  end.

(** The values whose conversion by [String] returns. *)
Definition converts (v : Value) : Prop :=
  ∃ s, ToString v = ret s.

(** The values that are not objects: strings, numbers, booleans, [null]
    and [undefined]. *)
Definition is_primitive (v : Value) : bool :=
  match v with
  | VUndefined | VJson (JNull | JBool _ | JNum _ | JStr _) => true
  | _ => false
  end.

(** A record that [add_item] gets past: it is skipped for a missing ID or
    Name before any conversion, or both conversions return. *)
Definition passable (idName nameName : string) (item : PlainObject) : Prop :=
  is_nullish (Get item idName) || is_nullish (Get item nameName) = true
  ∨ (converts (Get item idName) ∧ converts (Get item nameName)).

(** What one record does to the payload and the count, case by case. *)
Inductive Fate (copy : PlainObject → DataObject) (idName nameName : string)
    (item : PlainObject) (itemsPayload : gmap string DatasetItem)
    : option (gmap string DatasetItem) → Prop :=
  | Skipped_missing :
      is_nullish (Get item idName) || is_nullish (Get item nameName) = true →
      Fate copy idName nameName item itemsPayload None
  | Skipped_empty itemNameString :
      is_nullish (Get item idName) || is_nullish (Get item nameName) = false →
      ToString (Get item idName) = ret "" →
      ToString (Get item nameName) = ret itemNameString →
      Fate copy idName nameName item itemsPayload None
  | Skipped_present itemIdString itemNameString :
      is_nullish (Get item idName) || is_nullish (Get item nameName) = false →
      ToString (Get item idName) = ret itemIdString →
      ToString (Get item nameName) = ret itemNameString →
      itemIdString ≠ "" →
      is_Some (itemsPayload !! itemIdString) →
      Fate copy idName nameName item itemsPayload None
  | Skipped_inherited itemIdString itemNameString :
      is_nullish (Get item idName) || is_nullish (Get item nameName) = false →
      ToString (Get item idName) = ret itemIdString →
      ToString (Get item nameName) = ret itemNameString →
      itemsPayload !! itemIdString = None →
      inherited itemIdString = true →
      Fate copy idName nameName item itemsPayload None
  | Inserted itemIdString itemNameString :
      is_nullish (Get item idName) || is_nullish (Get item nameName) = false →
      ToString (Get item idName) = ret itemIdString →
      ToString (Get item nameName) = ret itemNameString →
      itemIdString ≠ "" →
      itemsPayload !! itemIdString = None →
      inherited itemIdString = false →
      Fate copy idName nameName item itemsPayload
        (Some (<[itemIdString :=
                   {| item_Id := itemIdString; item_Name := itemNameString;
                      item_Data := data_own (copy item);
                      item_IsArchived := false |}]> itemsPayload)).

(** The fields that carry a flag are those of one name. *)
Definition marked (flag : Field → bool) (wanted : string)
    (fields : list Field) : Prop :=
  ∀ f, f ∈ fields → (flag f = true ↔ name f = wanted).

(** The name the [pull] action resolves: the option when it is given,
    the hint of the catalog otherwise. *)
Definition chosen (specified hint : option string) : option string :=
  match given specified with
  | Some s => Some s
  | None => hint
  end.

(** A record that asks for the entry of key [k]: its ID and its Name are
    there, and its ID prints as [k]. *)
Definition candidate (idName nameName k : string) (item : PlainObject)
    : Prop :=
  is_nullish (Get item idName) || is_nullish (Get item nameName) = false
  ∧ ToString (Get item idName) = ret k.

(** The entry a record is stored as. *)
Definition entry_of (copy : PlainObject → DataObject)
    (idName nameName : string) (item : PlainObject) (entry : DatasetItem)
    : Prop :=
  candidate idName nameName (item_Id entry) item
  ∧ ToString (Get item nameName) = ret (item_Name entry)
  ∧ item_Data entry = data_own (copy item)
  ∧ item_IsArchived entry = false.

(** Whether the copy loop of [confirmAndSave] looks at [key]: an included
    field has this name. *)
Definition sends (fields : list Field) (key : string) : bool :=
  existsb (λ f, bool_decide (name f = key) && isIncluded f) fields.

(** No field carries the flag, or the fields of one name carry it. *)
Definition one_mark (flag : Field → bool) (fields : list Field) : Prop :=
  existsb flag fields = false
  ∨ ∃ wanted, wanted ∈ map name fields ∧ marked flag wanted fields.

(** A run of the field menu: exclude a field, then make it the ID field,
    then pick the Name field. *)
Definition exclude_then_mark (excluded nameName : string)
    (fields : list Field) : list Field :=
  perform (Set_name nameName)
    (perform (Set_id excluded) (perform (Toggle_include excluded) fields)).

(** The hosts the clients treat as a local development server. *)
Definition local_hosts : list string := ["localhost"; "127.0.0.1"; "[::1]"].

End Vocabulary.

(** An engine to run the embedding on examples: integers for numbers, a
    date parser that accepts the calendar dates in the date-only form and
    nothing else, and the source text V8 prints for a native function. *)
Definition reference_engine : Engine :=
  {| Num := Z;
     Number_toString := pretty;
     Date_parse_accepts := λ _, false;
     native_source := λ name, "function " +:+ name +:+ "() { [native code] }" |}.

(** ** Inputs for the examples *)

Section ReferenceData.

#[local] Existing Instance reference_engine.

(** The end-to-end scenario of the specification. *)
Definition scenario : Json :=
  JArr [ JObj [("id", JStr "us"); ("name", JStr "United States");
               ("pop", JNum 331%Z)];
         JObj [("id", JStr "us"); ("name", JStr "dup")];
         JObj [("id", JStr ""); ("name", JStr "x")] ].

Definition scenario_records : list PlainObject :=
  [ [("id", JStr "us"); ("name", JStr "United States"); ("pop", JNum 331%Z)];
    [("id", JStr "us"); ("name", JStr "dup")];
    [("id", JStr ""); ("name", JStr "x")] ].

Definition scenario_state : WizardState Json :=
  set_jsonContent (ParsesTo scenario) new_wizardState.

Definition scenario_discovered : WizardState Json :=
  Eval vm_compute in (validateAndProcessJson scenario_state).1.

(** The state [confirmAndSave] receives once the wizard has designated
    [id] and [name]. *)
Definition scenario_configured : WizardState PlainObject :=
  set_fields (action_set_name "name"
                (action_set_id "id" (fields scenario_discovered)))
    (set_parsed scenario_records new_wizardState).

(** The same, with the field [pop] excluded as well. *)
Definition scenario_without_pop : WizardState PlainObject :=
  set_fields (action_toggle_include "pop" (fields scenario_configured))
    scenario_configured.

(** A field that is sighted as [null], then as a number, then as a
    string. *)
Definition mixed : Json :=
  JArr [ JObj [("a", JNull)];
         JObj [("a", JNum 1%Z); ("b", JStr "2024-01-15")];
         JObj [("b", JBool true); ("a", JStr "x")] ].

Definition mixed_state : WizardState Json :=
  set_jsonContent (ParsesTo mixed) new_wizardState.

Definition mixed_discovered : WizardState Json :=
  Eval vm_compute in (validateAndProcessJson mixed_state).1.

(** A record whose ID is the name of a member of [Object.prototype]. *)
Definition constructor_record : PlainObject :=
  [("id", JStr "constructor"); ("name", JStr "x")].

(** A record whose ID is an object with a [toString] property of its
    own. *)
Definition unconvertible_records : list PlainObject :=
  [ [("id", JObj [("toString", JNum 1%Z)]); ("name", JStr "x")] ].

Definition code_title : list Field :=
  [ new_field "code" (VJson (JStr "c1"));
    new_field "title" (VJson (JStr "t1")) ].

(** Fields of which one has the empty name, as the record
    [{"": "c1", "title": "t1"}] gives them. *)
Definition blank_title : list Field :=
  [ new_field "" (VJson (JStr "c1"));
    new_field "title" (VJson (JStr "t1")) ].

(** The scenario as its first record and the two that follow. *)
Definition scenario_first : list Json :=
  [ JObj [("id", JStr "us"); ("name", JStr "United States");
          ("pop", JNum 331%Z)] ].

Definition scenario_rest : list Json :=
  [ JObj [("id", JStr "us"); ("name", JStr "dup")];
    JObj [("id", JStr ""); ("name", JStr "x")] ].

Definition first_discovered : WizardState Json :=
  Eval vm_compute in
    (validateAndProcessJson
       (set_jsonContent (ParsesTo (JArr scenario_first)) new_wizardState)).1.

(** The field [id] as discovery leaves it on the scenario. *)
Definition scenario_id_field : Field :=
  {| name := "id"; dataType := Text; sampleValues := ["us"];
     isId := false; isName := false; isIncluded := true |}.

(** The one entry of the scenario, and the payload that holds it. *)
Definition scenario_entry : DatasetItem :=
  {| item_Id := "us"; item_Name := "United States";
     item_Data := {[ "id" := JStr "us"; "name" := JStr "United States";
                     "pop" := JNum 331%Z ]};
     item_IsArchived := false |}.

Definition scenario_payload : gmap string DatasetItem :=
  {[ "us" := scenario_entry ]}.

Definition scenario_entry_without_pop : DatasetItem :=
  {| item_Id := "us"; item_Name := "United States";
     item_Data := {[ "id" := JStr "us"; "name" := JStr "United States" ]};
     item_IsArchived := false |}.

(** The scenario as the [pull] action holds it after the download, and
    the hints of the catalog. *)
Definition pull_state : WizardState Json :=
  {| jsonContent := ParsesTo scenario; parsedJson := None; fields := [];
     itemCount := 0; datasetId := "Countries"; datasetName := "Countries";
     datasetDescription := "" |}.

Definition catalog_meta : Meta :=
  {| idField := Some "id"; nameField := Some "name" |}.

(** Two records with distinct IDs. *)
Definition distinct_records : list PlainObject :=
  [ [("id", JStr "us"); ("name", JStr "United States")];
    [("id", JStr "fr"); ("name", JStr "France")] ].

(** What a save step has done, when it returns. *)
Definition returned (r : Result Saved) : Saved :=
  match r with
  | inr saved => saved
  | inl _ =>
      {| skippedItemsCount := 0;
         request := {| arg_id := ""; arg_name := ""; arg_description := "";
                       arg_idField := ""; arg_nameField := "";
                       arg_fields := []; arg_items := ∅ |} |}
  end.

End ReferenceData.

(** * Properties *)

Section Properties.

Context `{E : Engine}.

(** ** Sets and maps in insertion order *)

Lemma first_seen_filter (P : string → Prop) `{∀ x, Decision (P x)} l :
  first_seen (filter P l) = filter P (first_seen l).
Proof.
  induction l as [|x l IH]; [done|].
  rewrite filter_cons. destruct (decide (P x)) as [Hx|Hx]; simpl.
  - rewrite filter_cons_True by done. f_equal.
    rewrite IH, !list_filter_filter. apply list_filter_iff. tauto.
  - rewrite filter_cons_False by done.
    rewrite IH, list_filter_filter. apply list_filter_iff.
    intros y. split; [|tauto]. intros Hy. split; [done|]. congruence.
Qed.

Lemma first_seen_elem x l : x ∈ first_seen l ↔ x ∈ l.
Proof.
  induction l as [|y l IH]; simpl; [done|].
  rewrite !elem_of_cons, list_elem_of_filter, IH.
  destruct (decide (x = y)); tauto.
Qed.

Lemma first_seen_NoDup l : NoDup (first_seen l).
Proof.
  induction l as [|y l IH]; simpl; [constructor|].
  constructor.
  - rewrite list_elem_of_filter. tauto.
  - by apply NoDup_filter.
Qed.

Lemma elem_of_take_first_seen x n l : x ∈ take n (first_seen l) → x ∈ l.
Proof.
  intros Hx. apply first_seen_elem.
  eapply elem_of_sublist; [exact Hx|apply sublist_take].
Qed.

Lemma first_seen_nil l : first_seen l = [] ↔ l = [].
Proof. destruct l; simpl; split; congruence. Qed.

Lemma foldl_Set_add acc l :
  foldl (λ s x, Set_add x s) acc l
  = acc ++ first_seen (filter (λ y, y ∉ acc) l).
Proof.
  revert acc. induction l as [|x l IH]; intros acc; simpl.
  - by rewrite app_nil_r.
  - rewrite IH, filter_cons. unfold Set_add.
    destruct (decide (x ∈ acc)) as [Hx|Hx].
    + by rewrite decide_False by tauto.
    + rewrite decide_True by done. simpl.
      rewrite <- app_assoc. simpl. do 2 f_equal.
      rewrite <- first_seen_filter, list_filter_filter.
      f_equal. apply list_filter_iff. intros y.
      rewrite elem_of_app, list_elem_of_singleton. tauto.
Qed.

Lemma foldl_Set_add_nil l :
  foldl (λ s x, Set_add x s) [] l = first_seen l.
Proof.
  rewrite foldl_Set_add. simpl. f_equal.
  induction l as [|x l IH]; [done|].
  rewrite filter_cons_True by apply not_elem_of_nil. by f_equal.
Qed.

(** ** The dictionary of fields *)

Lemma name_sight v f : name (sight v f) = name f.
Proof.
  unfold sight, upgrade_type, collect_sample.
  repeat case_match; done.
Qed.

Lemma Map_has_get d k : Map_has d k = bool_decide (is_Some (Map_get d k)).
Proof.
  unfold Map_has. apply bool_decide_ext.
  induction d as [|f d IH]; simpl.
  - rewrite elem_of_nil. split; [done|]. by intros [? ?].
  - rewrite elem_of_cons, IH. destruct (decide (name f = k)); [|split].
    + split; eauto.
    + intros [?|?]; [congruence|done].
    + by right.
Qed.

Lemma Map_get_app d d' k :
  Map_get (d ++ d') k
  = match Map_get d k with Some f => Some f | None => Map_get d' k end.
Proof.
  induction d as [|f d IH]; simpl; [done|].
  by destruct (decide (name f = k)).
Qed.

Lemma Map_get_update d k k' g :
  (∀ f, name (g f) = name f) →
  Map_get (Map_update d k g) k'
  = if decide (k = k') then g <$> Map_get d k' else Map_get d k'.
Proof.
  intros Hg. unfold Map_update.
  induction d as [|f d IH]; simpl; [by destruct (decide (k = k'))|].
  destruct (decide (name f = k)) as [<-|Hk]; rewrite ?Hg;
    destruct (decide (name f = k')) as [Hk'|Hk']; try done.
  by rewrite decide_False by congruence.
Qed.

Lemma names_Map_update d k g :
  (∀ f, name (g f) = name f) → map name (Map_update d k g) = map name d.
Proof.
  intros Hg. unfold Map_update. rewrite map_map. apply map_ext.
  intros f. by destruct (decide (name f = k)).
Qed.

Lemma Map_get_Some d k f : Map_get d k = Some f → name f = k ∧ f ∈ d.
Proof.
  induction d as [|f' d IH]; simpl; [done|].
  destruct (decide (name f' = k)) as [Hk|Hk].
  - intros [= <-]. split; [done|]. apply elem_of_cons. by left.
  - intros [? ?]%IH. split; [done|]. apply elem_of_cons. by right.
Qed.

Lemma Map_get_elem d f :
  NoDup (map name d) → f ∈ d → Map_get d (name f) = Some f.
Proof.
  induction d as [|f' d IH]; simpl.
  - by intros _ ?%elem_of_nil.
  - intros [Hf' Hd]%NoDup_cons [->|Hf]%elem_of_cons.
    + by rewrite decide_True.
    + rewrite decide_False; [by apply IH|].
      intros Heq. apply Hf'. rewrite Heq. by apply list_elem_of_fmap_2.
Qed.

Lemma names_visit_key d k v :
  map name (visit_key d k v) = Set_add k (map name d).
Proof.
  unfold visit_key. rewrite names_Map_update by apply name_sight.
  unfold Map_has, Set_add.
  destruct (decide (k ∈ map name d)).
  - by rewrite bool_decide_eq_true_2.
  - rewrite bool_decide_eq_false_2 by done. by rewrite map_app.
Qed.

Lemma Map_get_visit_key d k v k' :
  Map_get (visit_key d k v) k'
  = if decide (k = k') then visit_one k (Map_get d k) v else Map_get d k'.
Proof.
  unfold visit_key. rewrite Map_get_update by apply name_sight.
  rewrite Map_has_get.
  destruct (decide (k = k')) as [<-|Hk].
  - unfold visit_one. destruct (Map_get d k) as [f|] eqn:Hf.
    + rewrite bool_decide_eq_true_2 by eauto. by rewrite Hf.
    + rewrite bool_decide_eq_false_2 by (by intros [? ?]).
      rewrite Map_get_app, Hf. simpl. by rewrite decide_True.
  - destruct (bool_decide (is_Some (Map_get d k))); [done|].
    rewrite Map_get_app. destruct (Map_get d k'); [done|].
    simpl. by rewrite decide_False.
Qed.

(** ** One sighting *)

Lemma Field_ext (f g : Field) :
  name f = name g → dataType f = dataType g →
  sampleValues f = sampleValues g → isId f = isId g →
  isName f = isName g → isIncluded f = isIncluded g → f = g.
Proof. destruct f, g; simpl; congruence. Qed.

Lemma sampleValues_sight v f :
  sampleValues (sight v f) = add_sample (getSampleValue v) (sampleValues f).
Proof.
  unfold sight, upgrade_type, collect_sample, add_sample.
  repeat case_match; done.
Qed.

Lemma dataType_collect_sample v f :
  dataType (collect_sample v f) = dataType f.
Proof. unfold collect_sample. repeat case_match; done. Qed.

Lemma dataType_sight v f :
  dataType (sight v f)
  = if decide (dataType f = Unknown) then determineDataType v else dataType f.
Proof.
  unfold sight, upgrade_type. rewrite dataType_collect_sample.
  destruct (decide (dataType f = Unknown)) as [Hf|Hf].
  - rewrite bool_decide_eq_true_2 by done. simpl.
    case_bool_decide; simpl; rewrite ?dataType_collect_sample; congruence.
  - rewrite bool_decide_eq_false_2 by done. simpl.
    apply dataType_collect_sample.
Qed.

Lemma flags_sight v f :
  isId (sight v f) = isId f ∧ isName (sight v f) = isName f
  ∧ isIncluded (sight v f) = isIncluded f.
Proof.
  unfold sight, upgrade_type, collect_sample.
  repeat case_match; done.
Qed.

Lemma Set_add_length s l : length l ≤ length (Set_add s l).
Proof.
  unfold Set_add. case_decide; [done|]. rewrite length_app. lia.
Qed.

Lemma Set_add_idem s l : Set_add s (Set_add s l) = Set_add s l.
Proof.
  unfold Set_add. destruct (decide (s ∈ l)) as [Hs|Hs].
  - by rewrite decide_True.
  - rewrite decide_True; [done|]. apply elem_of_app. right.
    by apply list_elem_of_singleton.
Qed.

Lemma add_sample_idem o l : add_sample o (add_sample o l) = add_sample o l.
Proof.
  unfold add_sample.
  destruct (length l <? 3) eqn:Hl; [|by rewrite Hl].
  destruct o as [s|]; [|by rewrite Hl].
  destruct (Str.is_empty s); [by rewrite Hl|].
  case_match; [|done]. apply Set_add_idem.
Qed.

Lemma sight_idem v f : sight v (sight v f) = sight v f.
Proof.
  destruct (flags_sight v f) as (HI & HN & HC).
  destruct (flags_sight v (sight v f)) as (HI' & HN' & HC').
  apply Field_ext; try congruence.
  - by rewrite name_sight.
  - rewrite !dataType_sight. repeat case_decide; congruence.
  - by rewrite !sampleValues_sight, add_sample_idem.
Qed.

Lemma visit_one_idem k o v :
  visit_one k (visit_one k o v) v = visit_one k o v.
Proof. unfold visit_one. simpl. by rewrite sight_idem. Qed.

(** ** One record *)

Lemma own_get_is_Some (props : PlainObject) k :
  is_Some (own_get props k) ↔ k ∈ map fst props.
Proof.
  induction props as [|[k' v] props IH]; simpl.
  - rewrite elem_of_nil. split; [by intros [? ?]|done].
  - rewrite elem_of_cons. destruct (decide (k' = k)) as [->|Hk].
    + split; eauto.
    + rewrite IH. split; [tauto|]. intros [?|?]; [congruence|done].
Qed.

Lemma Get_own (props : PlainObject) k v : own_get props k = Some v → Get props k = VJson v.
Proof. unfold Get. by intros ->. Qed.

Lemma discover_item_names item d :
  map name (discover_item item d)
  = foldl (λ s x, Set_add x s) (map name d) (map fst item).
Proof.
  unfold discover_item.
  assert (∀ l, l ⊆ map fst item → ∀ d,
    map name (foldl (λ d key, if hasOwnProperty item key
                              then visit_key d key (Get item key) else d) d l)
    = foldl (λ s x, Set_add x s) (map name d) l) as Hgen.
  { induction l as [|x l IH]; intros Hl d0; simpl; [done|].
    assert (hasOwnProperty item x = true) as ->.
    { apply bool_decide_eq_true_2, own_get_is_Some, Hl, elem_of_cons. by left. }
    rewrite IH, names_visit_key; [done|].
    intros y Hy. apply Hl, elem_of_cons. by right. }
  by apply Hgen.
Qed.

Lemma discover_item_get item d k :
  Map_get (discover_item item d) k
  = match own_get item k with
    | Some v => visit_one k (Map_get d k) (VJson v)
    | None => Map_get d k
    end.
Proof.
  unfold discover_item.
  assert (∀ l, l ⊆ map fst item → ∀ d,
    Map_get (foldl (λ d key, if hasOwnProperty item key
                             then visit_key d key (Get item key) else d) d l) k
    = if decide (k ∈ l) then visit_one k (Map_get d k) (Get item k)
      else Map_get d k) as Hgen.
  { induction l as [|x l IH]; intros Hl d0; [done|cbn [foldl]].
    - assert (hasOwnProperty item x = true) as ->.
      { apply bool_decide_eq_true_2, own_get_is_Some, Hl, elem_of_cons. by left. }
      rewrite IH by (intros y Hy; apply Hl, elem_of_cons; by right).
      rewrite Map_get_visit_key.
      destruct (decide (x = k)) as [->|Hx].
      + rewrite (decide_True (P := k ∈ k :: l)) by (apply elem_of_cons; by left).
        case_decide; [apply visit_one_idem|done].
      + destruct (decide (k ∈ l)) as [Hk|Hk].
        * rewrite decide_True; [done|]. apply elem_of_cons. by right.
        * rewrite decide_False; [done|].
          rewrite elem_of_cons. intros [?|?]; [congruence|done]. }
  rewrite Hgen by done.
  destruct (own_get item k) as [v|] eqn:Hv.
  - rewrite decide_True by (apply own_get_is_Some; eauto).
    by rewrite (Get_own _ _ _ Hv).
  - rewrite decide_False; [done|].
    rewrite <- own_get_is_Some, Hv. by intros [? ?].
Qed.

(** ** All records *)

Lemma discover_items_inr items i d d' :
  discover_items items i d = inr d' →
  Forall (λ item, plain_object item = true) items
  ∧ map name d' = foldl (λ s x, Set_add x s) (map name d) (all_keys items)
  ∧ ∀ k, Map_get d' k = foldl (visit_one k) (Map_get d k) (sightings k items).
Proof.
  revert i d. induction items as [|item items IH]; intros i d; simpl.
  - intros [= <-]. by repeat split.
  - destruct item as [| | | | |props]; try done.
    intros (Hplain & Hnames & Hget)%IH. split; [by constructor|]. split.
    + unfold all_keys in *. simpl. by rewrite foldl_app, <- discover_item_names.
    + intros k. rewrite Hget, discover_item_get. unfold sightings. simpl.
      by destruct (own_get props k).
Qed.

Lemma discover_items_plain items i d :
  Forall (λ item, plain_object item = true) items →
  ∃ d', discover_items items i d = inr d'.
Proof.
  intros Hplain. revert i d.
  induction Hplain as [|item items Hitem _ IH]; intros i d; simpl; [eauto|].
  destruct item; first [discriminate|apply IH].
Qed.

Lemma discover_items_inl items i d j :
  discover_items items i d = inl j →
  Exists (λ item, plain_object item = false) items.
Proof.
  revert i d. induction items as [|item items IH]; intros i d; simpl; [done|].
  destruct item; try (intros _; by left).
  intros ?%IH. by right.
Qed.

(** ** The history of one field *)

Lemma foldl_visit_one_Some k f vs :
  foldl (visit_one k) (Some f) vs = Some (foldl (λ f v, sight v f) f vs).
Proof. revert f. induction vs as [|v vs IH]; intros f; simpl; [done|apply IH]. Qed.

Lemma first_concrete_cons t ts :
  first_concrete (t :: ts)
  = if decide (t = Unknown) then first_concrete ts else t.
Proof.
  unfold first_concrete. rewrite filter_cons.
  destruct (decide (t = Unknown)).
  - by rewrite decide_False by tauto.
  - by rewrite decide_True.
Qed.

Lemma dataType_foldl_sight f vs :
  dataType (foldl (λ f v, sight v f) f vs)
  = if decide (dataType f = Unknown)
    then first_concrete (map determineDataType vs) else dataType f.
Proof.
  revert f. induction vs as [|v vs IH]; intros f; simpl.
  - by case_decide.
  - rewrite IH, dataType_sight, first_concrete_cons.
    repeat case_decide; congruence.
Qed.

Lemma sampleValues_foldl_sight f vs :
  sampleValues (foldl (λ f v, sight v f) f vs)
  = foldl (λ samples v, add_sample (getSampleValue v) samples)
          (sampleValues f) vs.
Proof.
  revert f. induction vs as [|v vs IH]; intros f; simpl; [done|].
  by rewrite IH, sampleValues_sight.
Qed.

Lemma flags_foldl_sight f vs :
  let f' := foldl (λ f v, sight v f) f vs in
  name f' = name f ∧ isId f' = isId f ∧ isName f' = isName f
  ∧ isIncluded f' = isIncluded f.
Proof.
  revert f. induction vs as [|v vs IH]; intros f; simpl; [done|].
  destruct (IH (sight v f)) as (? & ? & ? & ?).
  destruct (flags_sight v f) as (? & ? & ?).
  pose proof (name_sight v f). repeat split; congruence.
Qed.

Lemma is_empty_false s : Str.is_empty s = false ↔ s ≠ "".
Proof. destruct s; simpl; split; congruence. Qed.

Lemma projections_cons v vs :
  projections (v :: vs)
  = match getSampleValue v with
    | Some s => if Str.is_empty s then projections vs else s :: projections vs
    | None => projections vs
    end.
Proof.
  unfold projections. simpl. destruct (getSampleValue v) as [s|]; [|done].
  rewrite filter_cons. destruct (Str.is_empty s) eqn:Hs.
  - destruct s; [|done]. by rewrite decide_False by tauto.
  - apply is_empty_false in Hs. by rewrite decide_True.
Qed.

Lemma take_foldl_Set_add acc l :
  3 ≤ length acc → take 3 (foldl (λ s x, Set_add x s) acc l) = take 3 acc.
Proof. intros Hacc. rewrite foldl_Set_add. by apply take_app_le. Qed.

Lemma foldl_add_sample samples vs :
  length samples ≤ 3 →
  foldl (λ samples v, add_sample (getSampleValue v) samples) samples vs
  = take 3 (foldl (λ s x, Set_add x s) samples (projections vs)).
Proof.
  revert samples. induction vs as [|v vs IH]; intros samples Hlen; simpl.
  - by rewrite take_ge.
  - rewrite projections_cons. unfold add_sample at 2.
    destruct (length samples <? 3) eqn:Hlt.
    + apply Nat.ltb_lt in Hlt.
      destruct (getSampleValue v) as [s|]; [|by apply IH].
      destruct (Str.is_empty s); [by apply IH|]. simpl.
      apply IH. unfold Set_add. case_decide; [done|].
      rewrite length_app. simpl. lia.
    + apply Nat.ltb_ge in Hlt. rewrite IH by done.
      destruct (getSampleValue v) as [s|]; [|done].
      destruct (Str.is_empty s); [done|]. simpl.
      rewrite (take_foldl_Set_add samples) by done.
      rewrite (take_foldl_Set_add (Set_add s samples))
        by (pose proof (Set_add_length s samples); lia).
      unfold Set_add. case_decide; [done|]. by rewrite take_app_le.
Qed.

Lemma discovered_names items i d :
  discover_items items i [] = inr d →
  map name d = first_seen (all_keys items).
Proof.
  intros (_ & Hnames & _)%discover_items_inr.
  by rewrite Hnames, foldl_Set_add_nil.
Qed.

Lemma discovered_field items i d f :
  discover_items items i [] = inr d → f ∈ d →
  ∃ v vs, sightings (name f) items = v :: vs
          ∧ f = foldl (λ f v, sight v f) (new_field (name f) v) (v :: vs).
Proof.
  intros Hd Hf.
  pose proof (discovered_names _ _ _ Hd) as Hnames.
  destruct (discover_items_inr _ _ _ _ Hd) as (_ & _ & Hget).
  specialize (Hget (name f)).
  rewrite (Map_get_elem d f) in Hget;
    [|rewrite Hnames; apply first_seen_NoDup|done].
  destruct (sightings (name f) items) as [|v vs]; [done|].
  exists v, vs. split; [done|]. simpl in *.
  unfold visit_one in Hget at 2. simpl in Hget.
  rewrite foldl_visit_one_Some in Hget. congruence.
Qed.

(** ** [validateAndProcessJson] *)

Lemma validate_true st st' :
  validateAndProcessJson st = (st', ReturnsTrue) →
  ∃ items d,
    jsonContent st = ParsesTo (JArr items) ∧ items ≠ []
    ∧ discover_items items 0 [] = inr d ∧ d ≠ []
    ∧ st' = set_fields d (set_parsed items st).
Proof.
  unfold validateAndProcessJson.
  destruct (jsonContent st) as [| |[| | | |items|]]; try done.
  destruct items as [|item items]; [done|].
  destruct (discover_items (item :: items) 0 []) as [i|[|f d]] eqn:Hd; try done.
  intros [= <-]. by exists (item :: items), (f :: d).
Qed.

Lemma discovered_nil items i :
  discover_items items i [] = inr [] → all_keys items = [].
Proof.
  intros Hd%discovered_names. simpl in Hd.
  by apply first_seen_nil.
Qed.

(** ** Type inference *)

(** C4: type inference answers Date for the string "2024-01-15", Text for
    the string "hello", Number for a number such as 42, Boolean for
    [true], List for a two-element array such as [1,2], and Unknown for
    the empty object and for [null]. *)
Theorem determineDataType_examples :
  determineDataType (VJson (JStr "2024-01-15")) = Date
  ∧ determineDataType (VJson (JStr "hello")) = Text
  ∧ (∀ n42 : Num, determineDataType (VJson (JNum n42)) = Number)
  ∧ determineDataType (VJson (JBool true)) = Boolean
  ∧ (∀ n1 n2 : Num, determineDataType (VJson (JArr [JNum n1; JNum n2])) = List)
  ∧ determineDataType (VJson (JObj [])) = Unknown
  ∧ determineDataType (VJson JNull) = Unknown.
Proof. repeat split. Qed.

(** ** The samples and the type of a discovered field *)

(** C8: every field that discovery produces has at most 3 sample values,
    all distinct, none empty, in first-seen order: they are the first three
    distinct non-empty projections of the values sighted under the field's
    name, each the projection of one of these values.  The projection sends
    [null] to "null", a string of more than 30 characters to its first 27
    characters followed by "...", any other string to itself, a number or a
    boolean to its string form, an array to "[...]", an object to "{...}",
    and [undefined] to no sample at all. *)
Theorem sampleValues_of_discovered_fields st st'
    (Htrue : validateAndProcessJson st = (st', ReturnsTrue)) :
  (∃ items, jsonContent st = ParsesTo (JArr items) ∧
     ∀ f, f ∈ fields st' →
       length (sampleValues f) ≤ 3
       ∧ NoDup (sampleValues f)
       ∧ (∀ s, s ∈ sampleValues f →
            s ≠ "" ∧ ∃ v, v ∈ sightings (name f) items
                          ∧ v ≠ VUndefined ∧ getSampleValue v = Some s)
       ∧ sampleValues f
         = take 3 (first_seen (projections (sightings (name f) items))))
  ∧ getSampleValue (VJson JNull) = Some "null"
  ∧ (∀ s, 30 < String.length s →
       getSampleValue (VJson (JStr s))
       = Some (String.substring 0 27 s +:+ "..."))
  ∧ (∀ s, String.length s ≤ 30 → getSampleValue (VJson (JStr s)) = Some s)
  ∧ (∀ n, getSampleValue (VJson (JNum n)) = Some (Number_toString n))
  ∧ getSampleValue (VJson (JBool true)) = Some "true"
  ∧ getSampleValue (VJson (JBool false)) = Some "false"
  ∧ (∀ elems, getSampleValue (VJson (JArr elems)) = Some "[...]")
  ∧ (∀ props, getSampleValue (VJson (JObj props)) = Some "{...}")
  ∧ getSampleValue VUndefined = None.
Proof.
  split; [|repeat split].
  - destruct (validate_true _ _ Htrue) as (items & d & Hc & _ & Hd & _ & ->).
    exists items. split; [done|]. simpl. intros f Hf.
    destruct (discovered_field _ _ _ _ Hd Hf) as (v & vs & Hs & Hfold).
    assert (sampleValues f
            = take 3 (first_seen (projections (sightings (name f) items))))
      as Hsamples.
    { rewrite Hs. rewrite Hfold at 1.
      rewrite sampleValues_foldl_sight. simpl sampleValues.
      rewrite foldl_add_sample by (simpl; lia).
      by rewrite foldl_Set_add_nil. }
    rewrite Hsamples. split; [|split; [|split; [|done]]].
    + rewrite length_take. lia.
    + eapply sublist_NoDup; [apply first_seen_NoDup|apply sublist_take].
    + intros s Hin%elem_of_take_first_seen.
      unfold projections in Hin.
      apply list_elem_of_filter in Hin as [Hne Hin].
      apply list_elem_of_omap in Hin as (w & Hw & Hsample).
      split; [done|]. exists w. split; [done|]. split; [|done].
      intros ->. discriminate.
  - intros s Hs. unfold getSampleValue. simpl.
    by rewrite (proj2 (Nat.ltb_lt _ _) Hs).
  - intros s Hs. unfold getSampleValue. simpl.
    by rewrite (proj2 (Nat.ltb_ge _ _) Hs).
Qed.

(** C7: a sighting changes the type of its field only when the field is
    Unknown and the value infers a type other than Unknown; a field of a
    concrete type keeps it.  So the final type of every discovered field is
    the first type other than Unknown inferred from the values sighted under
    its name, and Unknown when there is none. *)
Theorem dataType_of_discovered_fields st st'
    (Htrue : validateAndProcessJson st = (st', ReturnsTrue)) :
  (∀ value field,
     dataType (upgrade_type value field)
     = if decide (dataType field = Unknown ∧ determineDataType value ≠ Unknown)
       then determineDataType value else dataType field)
  ∧ (∀ value field,
       dataType field ≠ Unknown →
       dataType (upgrade_type value (collect_sample value field))
       = dataType field)
  ∧ ∃ items, jsonContent st = ParsesTo (JArr items) ∧
      ∀ f, f ∈ fields st' →
        dataType f
        = first_concrete (map determineDataType (sightings (name f) items)).
Proof.
  split; [|split].
  - intros v f. unfold upgrade_type.
    case_decide as Hd; repeat case_bool_decide; simpl; try done; tauto.
  - intros v f Hf. fold (sight v f). rewrite dataType_sight.
    by rewrite decide_False.
  - destruct (validate_true _ _ Htrue) as (items & d & Hc & _ & Hd & _ & ->).
    exists items. split; [done|]. simpl. intros f Hf.
    destruct (discovered_field _ _ _ _ Hd Hf) as (v & vs & Hs & Hfold).
    rewrite Hs. rewrite Hfold at 1.
    rewrite dataType_foldl_sight. simpl dataType.
    change (map determineDataType (v :: vs))
      with (determineDataType v :: map determineDataType vs).
    rewrite !first_concrete_cons. by case_decide.
Qed.

(** ** Field discovery as a whole *)

(** C5, amended: for every non-empty array of plain objects that have at
    least one key between them, discovery answers [true] and produces
    exactly one field per distinct key of the records, the fields in the
    order in which their keys are first seen, records taken in sequence and
    each record's keys in its own order. *)
Theorem discovery_one_field_per_key st items
    (Hnonempty : items ≠ [])
    (Hplain : Forall (λ item, plain_object item = true) items)
    (Hkeys : all_keys items ≠ []) :
  ∃ st',
    validateAndProcessJson (set_jsonContent (ParsesTo (JArr items)) st)
    = (st', ReturnsTrue)
    ∧ map name (fields st') = first_seen (all_keys items)
    ∧ NoDup (map name (fields st'))
    ∧ ∀ key, key ∈ map name (fields st') ↔ key ∈ all_keys items.
Proof.
  destruct (discover_items_plain items 0 [] Hplain) as [d Hd].
  pose proof (discovered_names _ _ _ Hd) as Hnames.
  unfold validateAndProcessJson. simpl.
  destruct items as [|item items]; [done|]. rewrite Hd.
  destruct d as [|f d].
  { exfalso. apply Hkeys, first_seen_nil. by rewrite <- Hnames. }
  eexists. split; [done|]. simpl fields. rewrite Hnames.
  split; [done|]. split; [apply first_seen_NoDup|].
  intros key. apply first_seen_elem.
Qed.

(** C6: on a parsed input that is not an array, on the empty array, on an
    array with an element that is not a plain object and on records
    without any key, and on no other parsed input, the call of
    [validateAndProcessJson] ends by an exception: [printError] is not
    defined, so the call that should report the validation error throws
    [ReferenceError], in the [try] block and again in the [catch] block.
    The function never answers [false], and the [Error] its callers throw
    on that answer is never thrown.  The field list of the state is left
    as it was, and the exception leaves the caller, which ends the
    import. *)
Theorem invalid_input_throws_ReferenceError st parsed :
  let state := set_jsonContent (ParsesTo parsed) st in
  let result := validateAndProcessJson state in
  (invalid_input parsed ↔ result.2 = Throws ReferenceError)
  ∧ (result.2 = ReturnsTrue ∨ result.2 = Throws ReferenceError)
  ∧ result.2 ≠ ReturnsFalse
  ∧ (result.2 ≠ ReturnsTrue →
     fields result.1 = fields st
     ∧ validation_step state = throw ReferenceError)
  ∧ validation_step state
    ≠ throw (Error "JSON validation failed. Cannot proceed.").
Proof.
  unfold validation_step, validateAndProcessJson. simpl.
  destruct parsed as [| | | |items|];
    try (split; [split; done|split; [by right|done]]).
  destruct items as [|item items].
  { split; [split; [done|intros _; by left]|split; [by right|done]]. }
  destruct (discover_items (item :: items) 0 []) as [i|[|f d]] eqn:Hd; simpl.
  - split; [split|split; [by right|done]]; [done|].
    intros _. right. left. exact (discover_items_inl _ _ _ _ Hd).
  - split; [split|split; [by right|done]]; [done|].
    intros _. right. right. exact (discovered_nil _ _ Hd).
  - split; [split|split; [by left|done]]; [|done].
    intros [?|[Hex|Hk]]; [done| |].
    + destruct (discover_items_inr _ _ _ _ Hd) as (Hplain & _).
      apply Exists_exists in Hex as (x & Hx & Hfalse).
      rewrite Forall_forall in Hplain. apply Hplain in Hx. congruence.
    + apply discovered_names in Hd.
      change (all_keys (item :: items) = []) in Hk.
      rewrite Hk in Hd. done.
Qed.

(** ** ID and Name resolution *)

Lemma given_Some option_value s :
  given option_value = Some s → option_value = Some s ∧ s ≠ "".
Proof.
  destruct option_value as [s'|]; simpl; [|done].
  destruct s'; simpl; [done|]. intros [= <-]. done.
Qed.

Lemma insert_preserves {A} (g : Field → A) (h : Field → Field) l i f :
  l !! i = Some f → g (h f) = g f → map g (<[i := h f]> l) = map g l.
Proof.
  intros Hi Hg. change (g <$> <[i := h f]> l = g <$> l).
  rewrite list_fmap_insert, Hg. apply list_insert_id.
  by rewrite list_lookup_fmap, Hi.
Qed.

Lemma resolve_id_preserves specified hint fields fields' :
  resolve_id specified hint fields = ret fields' →
  map name fields' = map name fields ∧ map isName fields' = map isName fields.
Proof.
  unfold resolve_id. destruct (given specified) as [s|].
  - case_bool_decide; [|done]. intros [= <-].
    rewrite !map_map. split; by apply map_ext.
  - destruct (list_find _ fields) as [[i f]|] eqn:Hfind; [|done].
    intros [= <-]. apply list_find_Some in Hfind as (Hi & _ & _).
    split; by apply insert_preserves.
Qed.

Lemma resolve_name_preserves specified hint fields fields' :
  resolve_name specified hint fields = ret fields' →
  map name fields' = map name fields ∧ map isId fields' = map isId fields.
Proof.
  unfold resolve_name. destruct (given specified) as [s|].
  - case_bool_decide; [|done]. intros [= <-].
    rewrite !map_map. split; by apply map_ext.
  - destruct (list_find _ fields) as [[i f]|] eqn:Hfind; [|done].
    intros [= <-]. apply list_find_Some in Hfind as (Hi & _ & _).
    split; by apply insert_preserves.
Qed.

Lemma join_concat sep l : Str.join sep l = String.concat sep l.
Proof.
  induction l as [|s [|s' l] IH]; [done..|].
  change (s +:+ sep +:+ Str.join sep (s' :: l)
          = s +:+ sep +:+ String.concat sep (s' :: l)).
  by rewrite IH.
Qed.

Lemma given_nonempty s : s ≠ "" → given (Some s) = Some s.
Proof. by destruct s. Qed.

(** C3, amended: when an ID field name is supplied that is not the empty
    string and no discovered field has it, resolution fails with the
    field-not-found error, whose message lists the discovered names in
    their order, separated by [", "]; when a field has it, the fields with
    that name end with [isId = true] and every other field with
    [isId = false]; when no name is supplied, or the empty string, and the
    hint matches no discovered field, resolution fails with the resolution
    error.  The same holds of the Name field, and neither resolution
    touches the names or the flag of the other: the Name field is
    resolved, after the ID field, against the same names. *)
Theorem id_and_name_resolution specified hint (fields : list Field) :
  (* ID *)
  (∀ s, specified = Some s → s ≠ "" → s ∉ map name fields →
     resolve_id specified hint fields
     = throw (FieldNotFoundError "ID" s (map name fields)))
  ∧ (∀ s, specified = Some s → s ≠ "" → s ∈ map name fields →
       ∃ fields',
         resolve_id specified hint fields = ret fields'
         ∧ map name fields' = map name fields
         ∧ (∃ f, f ∈ fields' ∧ name f = s)
         ∧ ∀ f, f ∈ fields' →
             isId f = if decide (name f = s) then true else false)
  ∧ (specified = None ∨ specified = Some "" →
     (∀ f, f ∈ fields → Some (name f) ≠ hint) →
     resolve_id specified hint fields = throw ResolutionError_id)
  (* Name *)
  ∧ (∀ s, specified = Some s → s ≠ "" → s ∉ map name fields →
       resolve_name specified hint fields
       = throw (FieldNotFoundError "Name" s (map name fields)))
  ∧ (∀ s, specified = Some s → s ≠ "" → s ∈ map name fields →
       ∃ fields',
         resolve_name specified hint fields = ret fields'
         ∧ map name fields' = map name fields
         ∧ (∃ f, f ∈ fields' ∧ name f = s)
         ∧ ∀ f, f ∈ fields' →
             isName f = if decide (name f = s) then true else false)
  ∧ (specified = None ∨ specified = Some "" →
     (∀ f, f ∈ fields → Some (name f) ≠ hint) →
     resolve_name specified hint fields = throw ResolutionError_name)
  (* each on its own *)
  ∧ (∀ fields', resolve_id specified hint fields = ret fields' →
       map name fields' = map name fields
       ∧ map isName fields' = map isName fields)
  ∧ (∀ fields', resolve_name specified hint fields = ret fields' →
       map name fields' = map name fields
       ∧ map isId fields' = map isId fields)
  ∧ (∀ specifiedNameField meta fields',
       resolve_id specified hint fields = ret fields' →
       hint = idField meta →
       pull_resolve specified specifiedNameField meta fields
       = resolve_name specifiedNameField (nameField meta) fields'
       ∧ map name fields' = map name fields).
Proof.
  split_and!.
  - intros s -> Hs%given_nonempty Hnot. unfold resolve_id, FieldNotFoundError.
    rewrite Hs, <- (join_concat ", " (map name fields)).
    by rewrite bool_decide_eq_false_2.
  - intros s -> Hs%given_nonempty Hin. unfold resolve_id. rewrite Hs.
    rewrite bool_decide_eq_true_2 by done.
    eexists. split; [done|]. split; [|split].
    + rewrite map_map. by apply map_ext.
    + apply list_elem_of_fmap in Hin as (f & -> & Hf).
      exists (set_isId (bool_decide (name f = name f)) f).
      split; [|done]. apply list_elem_of_fmap. by exists f.
    + intros f' (f & -> & Hf)%list_elem_of_fmap. simpl.
      by case_bool_decide; case_decide.
  - intros Hs Hhint. unfold resolve_id.
    assert (given specified = None) as -> by (by destruct Hs as [->| ->]).
    destruct (list_find _ fields) as [[i f]|] eqn:Hfind; [|done].
    apply list_find_Some in Hfind as (Hi & Hf & _).
    destruct (Hhint f); [|done]. eapply list_elem_of_lookup_2, Hi.
  - intros s -> Hs%given_nonempty Hnot. unfold resolve_name, FieldNotFoundError.
    rewrite Hs, <- (join_concat ", " (map name fields)).
    by rewrite bool_decide_eq_false_2.
  - intros s -> Hs%given_nonempty Hin. unfold resolve_name. rewrite Hs.
    rewrite bool_decide_eq_true_2 by done.
    eexists. split; [done|]. split; [|split].
    + rewrite map_map. by apply map_ext.
    + apply list_elem_of_fmap in Hin as (f & -> & Hf).
      exists (set_isName (bool_decide (name f = name f)) f).
      split; [|done]. apply list_elem_of_fmap. by exists f.
    + intros f' (f & -> & Hf)%list_elem_of_fmap. simpl.
      by case_bool_decide; case_decide.
  - intros Hs Hhint. unfold resolve_name.
    assert (given specified = None) as -> by (by destruct Hs as [->| ->]).
    destruct (list_find _ fields) as [[i f]|] eqn:Hfind; [|done].
    apply list_find_Some in Hfind as (Hi & Hf & _).
    destruct (Hhint f); [|done]. eapply list_elem_of_lookup_2, Hi.
  - apply resolve_id_preserves.
  - apply resolve_name_preserves.
  - intros specifiedNameField meta fields' Hid ->.
    unfold pull_resolve. rewrite Hid. split; [done|].
    by apply resolve_id_preserves in Hid as [? _].
Qed.

(** ** Item payload construction *)

Lemma payload_truthy_false (itemsPayload : gmap string DatasetItem) k :
  payload_truthy itemsPayload k = false →
  itemsPayload !! k = None ∧ inherited k = false.
Proof.
  unfold payload_truthy, inherited.
  destruct (itemsPayload !! k); [done|].
  by destruct (Object_prototype_get k).
Qed.

Lemma payload_truthy_inherited (itemsPayload : gmap string DatasetItem) k :
  inherited k = true → payload_truthy itemsPayload k = true.
Proof.
  unfold payload_truthy, inherited.
  destruct (itemsPayload !! k); [done|].
  by destruct (Object_prototype_get k).
Qed.

Lemma add_item_ret copy idName nameName itemsPayload skipped item acc' :
  add_item copy idName nameName (itemsPayload, skipped) item = ret acc' →
  ∃ fate, Fate copy idName nameName item itemsPayload fate
          ∧ acc' = match fate with
                   | None => (itemsPayload, S skipped)
                   | Some itemsPayload' => (itemsPayload', skipped)
                   end.
Proof.
  unfold add_item.
  destruct (is_nullish (Get item idName) || is_nullish (Get item nameName))
    eqn:Hnull.
  { intros [= <-]. exists None. split; [by constructor|done]. }
  destruct (ToString (Get item idName)) as [e|itemIdString] eqn:Hid; [done|].
  destruct (ToString (Get item nameName)) as [e|itemNameString] eqn:Hname;
    [done|]. simpl.
  destruct (Str.is_empty itemIdString) eqn:Hempty.
  { intros [= <-]. exists None. split; [|done].
    destruct itemIdString; [|done]. by eapply Skipped_empty. }
  apply is_empty_false in Hempty.
  destruct (payload_truthy itemsPayload itemIdString) eqn:Htruthy.
  - intros [= <-]. exists None. split; [|done].
    destruct (itemsPayload !! itemIdString) as [entry|] eqn:Hentry.
    + eapply Skipped_present; eauto.
    + eapply Skipped_inherited; eauto.
      unfold payload_truthy in Htruthy. rewrite Hentry in Htruthy.
      unfold inherited. by destruct (Object_prototype_get itemIdString).
  - apply payload_truthy_false in Htruthy as [Hnone Hinh].
    intros [= <-]. eexists (Some _). split; [|done]. by eapply Inserted.
Qed.

Lemma add_item_passable copy idName nameName acc item :
  passable idName nameName item ↔
  ∃ acc', add_item copy idName nameName acc item = ret acc'.
Proof.
  destruct acc as [itemsPayload skipped]. unfold passable, add_item, converts.
  destruct (is_nullish (Get item idName) || is_nullish (Get item nameName)).
  { split; [eauto|]. by left. }
  destruct (ToString (Get item idName)) as [e|itemIdString].
  { split; [|by intros [? ?]]. by intros [?|[[? ?] _]]. }
  destruct (ToString (Get item nameName)) as [e|itemNameString].
  { split; [|by intros [? ?]]. by intros [?|[_ [? ?]]]. }
  simpl. split; [|right; eauto]. intros _.
  destruct (Str.is_empty itemIdString); [eauto|].
  destruct (payload_truthy itemsPayload itemIdString); eauto.
Qed.

Lemma primitive_converts v : is_primitive v = true → converts v.
Proof.
  unfold converts. destruct v as [|[| | | | |]|]; try done; simpl; eauto.
Qed.

(** Records whose ID and Name are not objects are passable. *)
Lemma primitive_passable idName nameName item :
  is_primitive (Get item idName) = true →
  is_primitive (Get item nameName) = true →
  passable idName nameName item.
Proof. intros Hid Hname. right. split; by apply primitive_converts. Qed.

Lemma add_item_size copy idName nameName acc item acc' :
  add_item copy idName nameName acc item = ret acc' →
  size acc'.1 + acc'.2 = S (size acc.1 + acc.2).
Proof.
  destruct acc as [itemsPayload skipped].
  intros (fate & Hfate & ->)%add_item_ret.
  destruct Hfate; simpl; try lia.
  rewrite map_size_insert_None by done. lia.
Qed.

Lemma forEach_add_item_size copy idName nameName records acc acc' :
  forEach records (add_item copy idName nameName) acc = ret acc' →
  size acc'.1 + acc'.2 = size acc.1 + acc.2 + length records.
Proof.
  revert acc. induction records as [|item records IH]; intros acc; simpl.
  - intros [= <-]. lia.
  - destruct (add_item copy idName nameName acc item) as [e|acc1] eqn:Hitem;
      [done|]. simpl. intros ->%IH. apply add_item_size in Hitem. lia.
Qed.

Lemma forEach_add_item_passable copy idName nameName records acc :
  Forall (passable idName nameName) records ↔
  ∃ acc', forEach records (add_item copy idName nameName) acc = ret acc'.
Proof.
  revert acc. induction records as [|item records IH]; intros acc; simpl.
  - split; [eauto|constructor].
  - rewrite Forall_cons, (add_item_passable copy idName nameName acc item).
    split.
    + intros [[acc1 ->] Hrest]. simpl. by apply IH.
    + intros [acc' Hacc'].
      destruct (add_item copy idName nameName acc item) as [e|acc1]; [done|].
      split; [eauto|]. simpl in Hacc'. apply (IH acc1). eauto.
Qed.

Lemma forEach_ext {A S} (body1 body2 : S → A → Result S) l s :
  (∀ s a, body1 s a = body2 s a) → forEach l body1 s = forEach l body2 s.
Proof.
  intros Hext. revert s. induction l as [|a l IH]; intros s; simpl; [done|].
  rewrite Hext. destruct (body2 s a); simpl; [done|apply IH].
Qed.

Lemma build_items_ext copy1 copy2 idName nameName parsed :
  (∀ item, copy1 item = copy2 item) →
  build_items copy1 idName nameName parsed
  = build_items copy2 idName nameName parsed.
Proof.
  intros Hext. destruct parsed as [records|]; [|done]. simpl.
  apply forEach_ext. intros [itemsPayload skipped] item.
  unfold add_item. by rewrite Hext.
Qed.

(** ** The [data] object of an entry *)

Lemma data_set_lookup data k v k' v' :
  data_own (data_set data k v) !! k' = Some v' →
  (k' = k ∧ v' = v) ∨ data_own data !! k' = Some v'.
Proof.
  unfold data_set. case_match.
  - destruct v; simpl; auto.
  - simpl. destruct (decide (k = k')) as [<-|Hk].
    + rewrite lookup_insert_eq. intros [= <-]. by left.
    + rewrite lookup_insert_ne by done. by right.
Qed.

Lemma data_set_plain data k v :
  k ≠ "__proto__" → data_own (data_set data k v) = <[k := v]> (data_own data).
Proof.
  intros Hk. unfold data_set. by rewrite bool_decide_eq_false_2.
Qed.

(** [data] holds nothing but included fields that the record owns, with
    the values the record has for them. *)
Lemma copy_included_only (fields : list Field) item k v :
  data_own (copy_included fields item) !! k = Some v →
  own_get item k = Some v
  ∧ ∃ f, f ∈ fields ∧ name f = k ∧ isIncluded f = true.
Proof.
  unfold copy_included.
  assert (∀ l data,
    (∀ f, f ∈ l → f ∈ fields) →
    (data_own data !! k = Some v → own_get item k = Some v
       ∧ ∃ f, f ∈ fields ∧ name f = k ∧ isIncluded f = true) →
    data_own (foldl (λ data field,
                if isIncluded field then
                  match own_get item (name field) with
                  | Some v => data_set data (name field) v
                  | None => data
                  end
                else data) data l) !! k = Some v →
    own_get item k = Some v
    ∧ ∃ f, f ∈ fields ∧ name f = k ∧ isIncluded f = true) as Hgen.
  { induction l as [|f l IH]; intros data Hl Hdata; simpl; [done|].
    apply IH; [intros f' Hf'; apply Hl, elem_of_cons; by right|].
    destruct (isIncluded f) eqn:Hinc; [|done].
    destruct (own_get item (name f)) as [w|] eqn:Hw; [|done].
    intros [[-> ->]|Hold]%data_set_lookup; [|by apply Hdata].
    split; [done|]. exists f. split; [|done].
    apply Hl, elem_of_cons. by left. }
  apply Hgen; [done|]. simpl. by rewrite lookup_empty.
Qed.

(** Every included field that the record owns is in [data], unless it is
    named [__proto__]. *)
Lemma copy_included_all (fields : list Field) item f v :
  f ∈ fields → isIncluded f = true → own_get item (name f) = Some v →
  name f ≠ "__proto__" →
  data_own (copy_included fields item) !! name f = Some v.
Proof.
  intros Hf Hinc Hv Hproto. unfold copy_included.
  set (step := λ (data : DataObject) (field : Field),
         if isIncluded field then
           match own_get item (name field) with
           | Some v => data_set data (name field) v
           | None => data
           end
         else data).
  assert (∀ l data, data_own data !! name f = Some v →
            data_own (foldl step data l) !! name f = Some v) as Hkeep.
  { induction l as [|f' l IH]; intros data Hdata; simpl; [done|].
    apply IH. unfold step. destruct (isIncluded f'); [|done].
    destruct (own_get item (name f')) as [w|] eqn:Hw; [|done].
    destruct (decide (name f' = name f)) as [Heq|Hne].
    - rewrite Heq in *. rewrite data_set_plain by done.
      rewrite lookup_insert_eq. congruence.
    - unfold data_set. case_match.
      + by destruct w.
      + simpl. by rewrite lookup_insert_ne. }
  generalize empty_object. induction Hf as [f l|f f' l Hf IH]; intros data.
  - simpl. apply Hkeep. unfold step. rewrite Hinc, Hv.
    rewrite data_set_plain by done. apply lookup_insert_eq.
  - simpl. by apply IH.
Qed.

Lemma find_field_Some flag (fields : list Field) f :
  find_field flag fields = Some f → f ∈ fields ∧ flag f = true.
Proof.
  unfold find_field.
  destruct (list_find _ fields) as [[i f']|] eqn:Hfind; [|done].
  intros [= <-]. apply list_find_Some in Hfind as (Hi & Hf & _).
  split; [|done]. eapply list_elem_of_lookup_2, Hi.
Qed.

Lemma all_included_id (fields : list Field) :
  Forall (λ f, isIncluded f = true) fields →
  map (set_isIncluded true) fields = fields
  ∧ filter (λ f, isIncluded f = true) fields = fields.
Proof.
  induction 1 as [|f fields Hf _ [IH1 IH2]]; [done|]. split.
  - simpl. rewrite IH1. f_equal. destruct f. simpl in *. by subst.
  - rewrite filter_cons_True by done. by rewrite IH2.
Qed.

Lemma copy_all_included (fields : list Field) item :
  Forall (λ f, isIncluded f = true) fields →
  copy_all fields item = copy_included fields item.
Proof.
  unfold copy_all, copy_included. intros Hall. generalize empty_object.
  induction Hall as [|f fields Hf _ IH]; intros data; simpl; [done|].
  by rewrite Hf, IH.
Qed.

Lemma existsb_elem {A} (p : A → bool) l x :
  x ∈ l → p x = true → existsb p l = true.
Proof.
  intros Hx Hp. apply existsb_exists. exists x.
  split; [by apply list_elem_of_In|done].
Qed.

(** When every field is marked as included and an ID and a Name field
    are designated, the two save steps end in the same way on the same
    state. *)
Lemma save_steps_agree_all_included (state : WizardState PlainObject)
    (Hall : Forall (λ f, isIncluded f = true) (fields state))
    (Hid : is_Some (find_field isId (fields state)))
    (Hname : is_Some (find_field isName (fields state))) :
  pull_save state = confirmAndSave true state
  ∧ ∀ pulled saved,
      pull_save state = ret pulled → confirmAndSave true state = ret saved →
      arg_items (request pulled) = arg_items (request saved)
      ∧ skippedItemsCount pulled = skippedItemsCount saved
      ∧ arg_fields (request pulled) = arg_fields (request saved).
Proof.
  assert (pull_save state = confirmAndSave true state) as Heq.
  { unfold pull_save, confirmAndSave.
    destruct Hid as [idField Hid], Hname as [nameField Hname].
    rewrite Hid, Hname. simpl.
    destruct (all_included_id _ Hall) as [-> ->].
    rewrite (build_items_ext (copy_all (fields state))
               (copy_included (fields state)))
      by (intros item; by apply copy_all_included).
    destruct (build_items _ _ _ _) as [e|acc]; [done|]. simpl.
    assert (map final_field_wizard (fields state)
            = map final_field_pull (fields state)) as ->.
    { apply map_ext_in. intros f Hf%list_elem_of_In.
      rewrite Forall_forall in Hall. specialize (Hall f Hf).
      unfold final_field_wizard, final_field_pull. by rewrite Hall. }
    apply find_field_Some in Hid as [Hid1 Hid2].
    apply find_field_Some in Hname as [Hname1 Hname2].
    rewrite (existsb_elem fd_IsId _ (final_field_pull idField));
      [|apply list_elem_of_fmap; by exists idField|done].
    rewrite (existsb_elem fd_IsName _ (final_field_pull nameField));
      [|apply list_elem_of_fmap; by exists nameField|done].
    done. }
  split; [done|]. intros pulled saved Hp Hs.
  rewrite Heq, Hs in Hp. by injection Hp as <-.
Qed.

(** C2, at the input where the code departs from it: for the one record
    [{"id":"constructor","name":"x"}] with [idField=id] and
    [nameField=name], whose ID is not empty and is no key of the (empty)
    payload, both call sites insert nothing and report one skipped
    record. *)
Theorem first_record_with_inherited_id_is_not_inserted :
  let fields :=
    [ {| name := "id"; dataType := Text; sampleValues := ["constructor"];
         isId := true; isName := false; isIncluded := true |};
      {| name := "name"; dataType := Text; sampleValues := ["x"];
         isId := false; isName := true; isIncluded := true |} ] in
  let records := [ [("id", JStr "constructor"); ("name", JStr "x")] ] in
  let state : WizardState PlainObject :=
    set_fields fields (set_parsed records new_wizardState) in
  (∃ saved, confirmAndSave true state = ret saved
            ∧ arg_items (request saved) = ∅
            ∧ skippedItemsCount saved = 1)
  ∧ (∃ pulled, pull_save state = ret pulled
               ∧ arg_items (request pulled) = ∅
               ∧ skippedItemsCount pulled = 1).
Proof. split; eexists; (split; [reflexivity|by split]). Qed.

(** C9: a record whose ID converts to the name of a member of
    [Object.prototype], such as "constructor", "toString" or "__proto__",
    is skipped and counted as skipped even when the payload has no entry
    under that key, so also when it is the first record with that ID: the
    test of [itemsPayload[id]] finds the inherited member. *)
Theorem inherited_id_skipped_as_duplicate copy idName nameName item
    itemIdString itemNameString (itemsPayload : gmap string DatasetItem) skipped
    (Hpresent :
       is_nullish (Get item idName) || is_nullish (Get item nameName) = false)
    (Hid : ToString (Get item idName) = ret itemIdString)
    (Hname : ToString (Get item nameName) = ret itemNameString)
    (Hinherited : inherited itemIdString = true)
    (Hfresh : itemsPayload !! itemIdString = None) :
  payload_truthy itemsPayload itemIdString = true
  ∧ add_item copy idName nameName (itemsPayload, skipped) item
    = ret (itemsPayload, S skipped)
  ∧ inherited "constructor" = true
  ∧ inherited "toString" = true
  ∧ inherited "__proto__" = true.
Proof.
  split; [by apply payload_truthy_inherited|]. split; [|done].
  unfold add_item. rewrite Hpresent, Hid, Hname. simpl.
  rewrite payload_truthy_inherited by done.
  by destruct (Str.is_empty itemIdString).
Qed.

(** C10, amended: on every sequence of records that construction gets
    through, because each record lacks its ID or Name or has both
    converted by [String] without a [TypeError], construction returns;
    each record has either added one entry under a key that had none or
    added one to the count of skipped records, and the number of entries of
    the payload plus the number of skipped records is the number of
    records. *)
Theorem construction_conserves_records copy idName nameName records
    (Hpass : Forall (passable idName nameName) records) :
  (∃ itemsPayload skipped,
     build_items copy idName nameName (Some records)
     = ret (itemsPayload, skipped)
     ∧ size itemsPayload + skipped = length records)
  ∧ ∀ itemsPayload skipped item acc',
      add_item copy idName nameName (itemsPayload, skipped) item = ret acc' →
      acc' = (itemsPayload, S skipped)
      ∨ ∃ k entry, itemsPayload !! k = None
                   ∧ acc' = (<[k := entry]> itemsPayload, skipped).
Proof.
  split.
  - apply (forEach_add_item_passable copy idName nameName records (∅, 0))
      in Hpass as [[itemsPayload skipped] Hret].
    exists itemsPayload, skipped. split; [done|].
    apply forEach_add_item_size in Hret. simpl in Hret.
    rewrite map_size_empty in Hret. lia.
  - intros itemsPayload skipped item acc' (fate & Hfate & ->)%add_item_ret.
    destruct Hfate; eauto.
Qed.

(** * Further properties *)

(** ** Field discovery *)

Lemma plain_objects_JObj (records : list PlainObject) :
  plain_objects (map JObj records) = records.
Proof.
  unfold plain_objects. induction records as [|r records IH]; [done|].
  simpl. by f_equal.
Qed.

Lemma plain_objects_all items :
  Forall (λ item, plain_object item = true) items →
  map JObj (plain_objects items) = items.
Proof.
  unfold plain_objects. induction 1 as [|item items Hitem _ IH]; [done|].
  destruct item; try done. simpl. by f_equal.
Qed.

Lemma discovered_flags items i d f :
  discover_items items i [] = inr d → f ∈ d →
  isId f = false ∧ isName f = false ∧ isIncluded f = true.
Proof.
  intros Hd Hf.
  destruct (discovered_field _ _ _ _ Hd Hf) as (v & vs & _ & ->).
  destruct (flags_foldl_sight (new_field (name f) v) (v :: vs))
    as (_ & -> & -> & ->). done.
Qed.

Lemma existsb_false {A} (p : A → bool) l :
  (∀ x, x ∈ l → p x = false) → existsb p l = false.
Proof.
  intros Hl. induction l as [|x l IH]; [done|]. simpl.
  rewrite Hl by (apply elem_of_cons; by left).
  apply IH. intros y Hy. apply Hl, elem_of_cons. by right.
Qed.

(** X1: the fields that discovery produces are not empty, have distinct
    names, and are all included and marked neither as ID nor as Name: no
    field is designated by discovery, and the menu of the wizard does not
    offer to proceed on them. *)
Theorem discovered_fields_unmarked st st'
    (Htrue : validateAndProcessJson st = (st', ReturnsTrue)) :
  fields st' ≠ []
  ∧ NoDup (map name (fields st'))
  ∧ (∀ f, f ∈ fields st' →
       isId f = false ∧ isName f = false ∧ isIncluded f = true)
  ∧ canProceed (fields st') = false.
Proof.
  destruct (validate_true _ _ Htrue) as (items & d & Hc & _ & Hd & Hne & ->).
  simpl. split; [done|]. split.
  { rewrite (discovered_names _ _ _ Hd). apply first_seen_NoDup. }
  assert (∀ f, f ∈ d → isId f = false ∧ isName f = false
                        ∧ isIncluded f = true) as Hflags
    by (intros f Hf; exact (discovered_flags _ _ _ _ Hd Hf)).
  split; [done|]. unfold canProceed.
  rewrite (existsb_false isId); [done|]. intros f Hf. by apply Hflags.
Qed.

(** X2: when discovery answers [true], the state holds the parsed array,
    every element of which is a plain object, and the number of its
    elements as [itemCount]; the content and the three texts of the dataset
    are untouched. *)
Theorem validated_state st st'
    (Htrue : validateAndProcessJson st = (st', ReturnsTrue)) :
  ∃ records,
    records ≠ []
    ∧ jsonContent st = ParsesTo (JArr (map JObj records))
    ∧ parsedJson st' = Some (map JObj records)
    ∧ plain_objects <$> parsedJson st' = Some records
    ∧ itemCount st' = length records
    ∧ jsonContent st' = jsonContent st
    ∧ datasetId st' = datasetId st
    ∧ datasetName st' = datasetName st
    ∧ datasetDescription st' = datasetDescription st.
Proof.
  destruct (validate_true _ _ Htrue) as (items & d & Hc & Hne & Hd & _ & ->).
  destruct (discover_items_inr _ _ _ _ Hd) as (Hplain & _).
  apply plain_objects_all in Hplain.
  exists (plain_objects items). rewrite Hplain. simpl.
  split; [by intros Hnil; rewrite Hnil in Hplain|].
  split; [done|]. split; [done|]. split; [done|].
  split; [|done]. by rewrite <- Hplain at 1; rewrite length_map.
Qed.

(** X3: an element that is not a plain object ends discovery by an
    exception, whatever the other elements hold: the call that should
    report its index throws [ReferenceError], and no index is reported.
    By then the parsed array and its length are stored in the state; the
    fields, the content and the texts of the state are left as they
    were. *)
Theorem invalid_item_throws_after_the_array_is_stored st items
    (Hinvalid : Exists (λ item, plain_object item = false) items) :
  let state := set_jsonContent (ParsesTo (JArr items)) st in
  validateAndProcessJson state = (set_parsed items state, Throws ReferenceError)
  ∧ parsedJson (validateAndProcessJson state).1 = Some items
  ∧ itemCount (validateAndProcessJson state).1 = length items
  ∧ fields (validateAndProcessJson state).1 = fields st
  ∧ validation_step state = throw ReferenceError.
Proof.
  simpl.
  assert (validateAndProcessJson (set_jsonContent (ParsesTo (JArr items)) st)
          = (set_parsed items (set_jsonContent (ParsesTo (JArr items)) st),
             Throws ReferenceError)) as Hthrows.
  { unfold validateAndProcessJson. simpl.
    destruct items as [|item items]; [by apply Exists_nil in Hinvalid|].
    destruct (discover_items (item :: items) 0 []) as [i|d] eqn:Hd; [done|].
    destruct (discover_items_inr _ _ _ _ Hd) as (Hplain & _).
    apply Exists_exists in Hinvalid as (x & Hx & Hfalse).
    rewrite Forall_forall in Hplain. apply Hplain in Hx. congruence. }
  unfold validation_step. by rewrite Hthrows.
Qed.

Lemma discover_items_app items more k d :
  discover_items (items ++ more) k d
  = match discover_items items k d with
    | inl i => inl i
    | inr d1 => discover_items more (k + length items) d1
    end.
Proof.
  revert k d. induction items as [|item items IH]; intros k d; simpl.
  - by rewrite Nat.add_0_r.
  - destruct item; try done. rewrite IH.
    by replace (S k + length items) with (k + S (length items)) by lia.
Qed.

Lemma add_sample_prefix o samples : samples `prefix_of` add_sample o samples.
Proof.
  unfold add_sample, Set_add. repeat case_match; try done.
  by apply prefix_app_r.
Qed.

Lemma foldl_add_sample_prefix samples vs :
  samples `prefix_of`
    foldl (λ samples v, add_sample (getSampleValue v) samples) samples vs.
Proof.
  revert samples. induction vs as [|v vs IH]; intros samples; simpl; [done|].
  etrans; [apply add_sample_prefix|apply IH].
Qed.

Lemma foldl_add_sample_full samples vs :
  length samples = 3 →
  foldl (λ samples v, add_sample (getSampleValue v) samples) samples vs
  = samples.
Proof.
  intros Hfull. induction vs as [|v vs IH]; simpl; [done|].
  unfold add_sample at 2. by rewrite Hfull.
Qed.

(** X4: records that come after others never take a field away nor move
    one: the fields discovered on an array are, by name and in order, the
    first fields discovered on the array followed by more records.  Each
    keeps a type other than Unknown and the samples it had, in their
    order, and once it has three samples it keeps exactly those. *)
Theorem more_records_extend_the_fields st items more st1 st2
    (H1 : validateAndProcessJson (set_jsonContent (ParsesTo (JArr items)) st)
          = (st1, ReturnsTrue))
    (H2 : validateAndProcessJson
            (set_jsonContent (ParsesTo (JArr (items ++ more))) st)
          = (st2, ReturnsTrue)) :
  map name (fields st1) `prefix_of` map name (fields st2)
  ∧ ∀ f, f ∈ fields st1 →
      ∃ f', f' ∈ fields st2 ∧ name f' = name f
            ∧ (dataType f ≠ Unknown → dataType f' = dataType f)
            ∧ sampleValues f `prefix_of` sampleValues f'
            ∧ (length (sampleValues f) = 3 → sampleValues f' = sampleValues f).
Proof.
  destruct (validate_true _ _ H1) as (? & d & [= <-] & _ & Hd & _ & ->).
  destruct (validate_true _ _ H2) as (? & d' & [= <-] & _ & Hd' & _ & ->).
  simpl. rewrite discover_items_app, Hd in Hd'.
  destruct (discover_items_inr _ _ _ _ Hd') as (_ & Hnames & Hget).
  split.
  { rewrite Hnames, foldl_Set_add. by apply prefix_app_r. }
  intros f Hf.
  assert (NoDup (map name d)) as Hnodup
    by (rewrite (discovered_names _ _ _ Hd); apply first_seen_NoDup).
  specialize (Hget (name f)).
  rewrite (Map_get_elem d f Hnodup Hf), foldl_visit_one_Some in Hget.
  apply Map_get_Some in Hget as [Hname Hin].
  eexists. split; [exact Hin|]. split; [done|].
  rewrite dataType_foldl_sight, sampleValues_foldl_sight.
  split; [|split].
  - intros Hknown. by rewrite decide_False.
  - apply foldl_add_sample_prefix.
  - apply foldl_add_sample_full.
Qed.

(** ** Samples and types *)

Lemma length_append s1 s2 :
  String.length (s1 +:+ s2) = String.length s1 + String.length s2.
Proof. induction s1 as [|c s1 IH]; simpl; [done|]. by rewrite IH. Qed.

Lemma length_substring n s :
  n ≤ String.length s → String.length (String.substring 0 n s) = n.
Proof.
  revert s. induction n as [|n IH]; intros s Hn.
  - by destruct s.
  - destruct s as [|c s]; simpl in *; [lia|]. rewrite IH; lia.
Qed.

Lemma length_substring_le n s : String.length (String.substring 0 n s) ≤ n.
Proof.
  revert s. induction n as [|n IH]; intros s.
  - by destruct s.
  - destruct s as [|c s]; simpl; [lia|]. specialize (IH s). lia.
Qed.

Lemma discovered_samples items i d f :
  discover_items items i [] = inr d → f ∈ d →
  sampleValues f
  = take 3 (first_seen (projections (sightings (name f) items))).
Proof.
  intros Hd Hf.
  destruct (discovered_field _ _ _ _ Hd Hf) as (v & vs & Hs & Hfold).
  rewrite Hs. rewrite Hfold at 1.
  rewrite sampleValues_foldl_sight. simpl sampleValues.
  rewrite foldl_add_sample by (simpl; lia).
  by rewrite foldl_Set_add_nil.
Qed.

Lemma getSampleValue_short (j : Json) t :
  getSampleValue (VJson j) = Some t →
  String.length t ≤ 30 ∨ ∃ n, j = JNum n ∧ t = Number_toString n.
Proof.
  destruct j as [|[]|n|s|elems|props]; simpl; intros [= <-];
    try (left; simpl; lia).
  - right. by exists n.
  - left. destruct (30 <? String.length s) eqn:Hlen.
    + apply Nat.ltb_lt in Hlen.
      rewrite length_append, length_substring by lia. simpl. lia.
    + apply Nat.ltb_ge in Hlen. done.
Qed.

(** X5: a sample of a discovered field is at most 30 characters long,
    unless it is the string form of a number the field was sighted
    with. *)
Theorem samples_are_short st st' f t
    (Htrue : validateAndProcessJson st = (st', ReturnsTrue))
    (Hf : f ∈ fields st')
    (Ht : t ∈ sampleValues f) :
  String.length t ≤ 30
  ∨ ∃ items n, jsonContent st = ParsesTo (JArr items)
               ∧ VJson (JNum n) ∈ sightings (name f) items
               ∧ t = Number_toString n.
Proof.
  destruct (validate_true _ _ Htrue) as (items & d & Hc & _ & Hd & _ & ->).
  simpl in Hf. rewrite (discovered_samples _ _ _ _ Hd Hf) in Ht.
  apply elem_of_take_first_seen in Ht. unfold projections in Ht.
  apply list_elem_of_filter in Ht as [_ Ht].
  apply list_elem_of_omap in Ht as (v & Hv & Hsample).
  assert (∃ j, v = VJson j) as [j ->].
  { unfold sightings in Hv. apply list_elem_of_omap in Hv as (item & _ & Hitem).
    destruct item; try done. destruct (own_get _ _); [|done].
    injection Hitem as <-. eauto. }
  destruct (getSampleValue_short _ _ Hsample) as [?|(n & -> & ->)]; [by left|].
  right. by exists items, n.
Qed.

Lemma date_pattern_here_length s :
  date_pattern_here s = true → 10 ≤ String.length s.
Proof.
  do 10 (destruct s as [|? s]; [done|]). simpl. lia.
Qed.

Lemma date_pattern_test_length s :
  date_pattern_test s = true → 10 ≤ String.length s.
Proof.
  induction s as [|c s IH].
  - done.
  - change (date_pattern_test (String c s))
      with (date_pattern_here (String c s) || date_pattern_test s).
    intros [Hhere|Htail]%orb_true_iff.
    + by apply date_pattern_here_length.
    + apply IH in Htail. simpl. lia.
Qed.

Lemma is_calendar_date_pattern s :
  is_calendar_date s = true → date_pattern_test s = true.
Proof.
  intros Hs. assert (date_pattern_here s = true) as Hhere.
  { unfold is_calendar_date in Hs.
    do 10 (destruct s as [|? s]; [done|]). destruct s; [|done].
    by apply andb_true_iff in Hs as [? _]. }
  destruct s as [|c s]; [done|].
  change (date_pattern_test (String c s))
    with (date_pattern_here (String c s) || date_pattern_test s).
  by rewrite Hhere.
Qed.

(** X6: only a string is typed Date, and only one that has the shape
    of a date somewhere in it, hence at least 10 characters; a calendar
    date written [YYYY-MM-DD] is typed Date whatever the engine. *)
Theorem date_type_needs_the_pattern :
  (∀ v, determineDataType v = Date →
     ∃ s, v = VJson (JStr s) ∧ date_pattern_test s = true
          ∧ 10 ≤ String.length s)
  ∧ (∀ s, is_calendar_date s = true →
       determineDataType (VJson (JStr s)) = Date).
Proof.
  split.
  - intros [|[|b|n|s|elems|props]|[|name]]; try done.
    unfold determineDataType. simpl.
    destruct (date_pattern_test s) eqn:Htest; [|done]. intros _.
    exists s. split; [done|]. split; [done|].
    by apply date_pattern_test_length.
  - intros s Hs. unfold determineDataType, Date_parse_isNaN. simpl.
    by rewrite (is_calendar_date_pattern _ Hs), Hs.
Qed.

(** ** Resolution, then the save step *)

Lemma list_find_name_is h (fields : list Field) :
  h ∈ map name fields →
  ∃ i f, list_find (name_is (Some h)) fields = Some (i, f)
         ∧ fields !! i = Some f ∧ name f = h
         ∧ ∀ j g, j < i → fields !! j = Some g → name g ≠ h.
Proof.
  intros Hin.
  destruct (list_find (name_is (Some h)) fields) as [[i f]|] eqn:Hfind.
  - apply list_find_Some in Hfind as (Hi & Hf & Hmin).
    exists i, f. split; [done|]. split; [done|].
    split; [by injection Hf|].
    intros j g Hj Hg Hname. apply (Hmin j g Hg Hj).
    unfold name_is. by rewrite Hname.
  - apply list_find_None in Hfind.
    apply list_elem_of_fmap in Hin as (f & -> & Hf).
    rewrite Forall_forall in Hfind. by destruct (Hfind f Hf).
Qed.

Lemma NoDup_names_lookup (fields : list Field) i j f g :
  NoDup (map name fields) →
  fields !! i = Some f → fields !! j = Some g → name f = name g → i = j.
Proof.
  intros Hnodup Hi Hj Hname.
  apply (NoDup_lookup (map name fields) i j (name f)); [done| |].
  - change (map name fields) with (name <$> fields).
    by rewrite list_lookup_fmap, Hi.
  - change (map name fields) with (name <$> fields).
    by rewrite list_lookup_fmap, Hj, Hname.
Qed.

Lemma marked_insert flag (set : Field → Field) h (fields : list Field) i f :
  NoDup (map name fields) →
  (∀ g, g ∈ fields → flag g = false) →
  fields !! i = Some f → name f = h →
  flag (set f) = true → name (set f) = name f →
  marked flag h (<[i := set f]> fields).
Proof.
  intros Hnodup Hnone Hi Hname Hflag Hkeep g Hg.
  apply list_elem_of_lookup in Hg as [j Hj].
  destruct (decide (i = j)) as [<-|Hne].
  - rewrite list_lookup_insert_eq in Hj by (by eapply lookup_lt_Some).
    injection Hj as <-. rewrite Hflag, Hkeep. tauto.
  - rewrite list_lookup_insert_ne in Hj by done.
    rewrite (Hnone g) by (by eapply list_elem_of_lookup_2).
    split; [done|]. intros Hg. destruct Hne.
    eapply NoDup_names_lookup; eauto. congruence.
Qed.

Lemma marked_transfer flag h (l1 l2 : list Field) :
  map name l2 = map name l1 → map flag l2 = map flag l1 →
  marked flag h l1 → marked flag h l2.
Proof.
  intros Hnames Hflags Hmarked g Hg.
  apply list_elem_of_lookup in Hg as [j Hj].
  assert ((name <$> l1) !! j = Some (name g)) as Hn.
  { change (name <$> l1) with (map name l1).
    rewrite <- Hnames. change (map name l2) with (name <$> l2).
    by rewrite list_lookup_fmap, Hj. }
  assert ((flag <$> l1) !! j = Some (flag g)) as Hf.
  { change (flag <$> l1) with (map flag l1).
    rewrite <- Hflags. change (map flag l2) with (flag <$> l2).
    by rewrite list_lookup_fmap, Hj. }
  rewrite list_lookup_fmap in Hn. rewrite list_lookup_fmap in Hf.
  destruct (l1 !! j) as [g1|] eqn:Hg1; [|done].
  injection Hn as Hn. injection Hf as Hf. rewrite <- Hn, <- Hf.
  apply Hmarked. by eapply list_elem_of_lookup_2.
Qed.

Lemma marked_find flag h (fields : list Field) :
  marked flag h fields → h ∈ map name fields →
  ∃ f, find_field flag fields = Some f ∧ name f = h.
Proof.
  intros Hmarked Hin. unfold find_field.
  destruct (list_find (λ f, flag f = true) fields) as [[i f]|] eqn:Hfind.
  - apply list_find_Some in Hfind as (Hi & Hf & _).
    exists f. split; [done|]. apply Hmarked; [|done].
    by eapply list_elem_of_lookup_2.
  - apply list_find_None in Hfind.
    apply list_elem_of_fmap in Hin as (f & -> & Hf).
    rewrite Forall_forall in Hfind. destruct (Hfind f Hf).
    by apply Hmarked.
Qed.

Lemma resolve_id_marks specified hint (fields fields' : list Field) :
  NoDup (map name fields) →
  (∀ f, f ∈ fields → isId f = false) →
  resolve_id specified hint fields = ret fields' →
  ∃ h, chosen specified hint = Some h ∧ h ∈ map name fields
       ∧ marked isId h fields'.
Proof.
  intros Hnodup Hnone. unfold resolve_id, chosen.
  destruct (given specified) as [s|].
  - case_bool_decide as Hin; [|done]. intros [= <-].
    exists s. split; [done|]. split; [done|].
    intros g' (g & -> & Hg)%list_elem_of_fmap. simpl.
    by case_bool_decide.
  - destruct (list_find _ fields) as [[i f]|] eqn:Hfind; [|done].
    intros [= <-]. apply list_find_Some in Hfind as (Hi & Hf & _).
    unfold name_is in Hf. exists (name f). split; [done|]. split.
    + apply list_elem_of_fmap. exists f. split; [done|].
      by eapply list_elem_of_lookup_2.
    + by apply (marked_insert isId (set_isId true)).
Qed.

Lemma resolve_name_marks specified hint (fields fields' : list Field) :
  NoDup (map name fields) →
  (∀ f, f ∈ fields → isName f = false) →
  resolve_name specified hint fields = ret fields' →
  ∃ h, chosen specified hint = Some h ∧ h ∈ map name fields
       ∧ marked isName h fields'.
Proof.
  intros Hnodup Hnone. unfold resolve_name, chosen.
  destruct (given specified) as [s|].
  - case_bool_decide as Hin; [|done]. intros [= <-].
    exists s. split; [done|]. split; [done|].
    intros g' (g & -> & Hg)%list_elem_of_fmap. simpl.
    by case_bool_decide.
  - destruct (list_find _ fields) as [[i f]|] eqn:Hfind; [|done].
    intros [= <-]. apply list_find_Some in Hfind as (Hi & Hf & _).
    unfold name_is in Hf. exists (name f). split; [done|]. split.
    + apply list_elem_of_fmap. exists f. split; [done|].
      by eapply list_elem_of_lookup_2.
    + by apply (marked_insert isName (set_isName true)).
Qed.

(** X7: when no ID field name is given and the hint of the catalog names
    a discovered field, resolution marks the first field of that name and
    touches nothing else: every other field keeps its flags, a mark it
    already had included.  On fields with distinct names none of which is
    marked, the field of the hinted name then is the one ID field.  The
    Name field is selected in the same way. *)
Theorem auto_selection_marks_the_hinted_field specified h
    (fields : list Field)
    (Hnone : given specified = None)
    (Hin : h ∈ map name fields) :
  ∃ i f,
    fields !! i = Some f ∧ name f = h
    ∧ (∀ j g, j < i → fields !! j = Some g → name g ≠ h)
    ∧ resolve_id specified (Some h) fields
      = ret (<[i := set_isId true f]> fields)
    ∧ resolve_name specified (Some h) fields
      = ret (<[i := set_isName true f]> fields)
    ∧ (∀ j, j ≠ i →
         (<[i := set_isId true f]> fields) !! j = fields !! j
         ∧ (<[i := set_isName true f]> fields) !! j = fields !! j)
    ∧ (NoDup (map name fields) →
       ((∀ g, g ∈ fields → isId g = false) →
        marked isId h (<[i := set_isId true f]> fields))
       ∧ ((∀ g, g ∈ fields → isName g = false) →
          marked isName h (<[i := set_isName true f]> fields))).
Proof.
  destruct (list_find_name_is h fields Hin) as (i & f & Hfind & Hi & Hf & Hmin).
  exists i, f. split; [done|]. split; [done|]. split; [done|].
  unfold resolve_id, resolve_name. rewrite Hnone, Hfind.
  split; [done|]. split; [done|]. split.
  - intros j Hj. by rewrite !list_lookup_insert_ne.
  - intros Hnodup. split; intros Hnomark.
    + by apply (marked_insert isId (set_isId true)).
    + by apply (marked_insert isName (set_isName true)).
Qed.

(** X8: on fields as discovery produces them, with distinct names and no
    mark, a resolution that succeeds leaves the names as they were and
    exactly one ID field and one Name field: the fields named by the
    options, or by the hints of the catalog where an option is not given.
    The save step finds both, so it throws for no missing field, and these
    are the names it hands to [api.createDataset] with a definition of
    every field. *)
Theorem resolved_fields_reach_the_request
    specifiedIdField specifiedNameField meta (discovered resolved : list Field)
    (Hnodup : NoDup (map name discovered))
    (Hunmarked : ∀ f, f ∈ discovered → isId f = false ∧ isName f = false)
    (Hresolved : pull_resolve specifiedIdField specifiedNameField meta discovered
                 = ret resolved) :
  ∃ idName nameName,
    chosen specifiedIdField (idField meta) = Some idName
    ∧ chosen specifiedNameField (nameField meta) = Some nameName
    ∧ map name resolved = map name discovered
    ∧ marked isId idName resolved ∧ marked isName nameName resolved
    ∧ canProceed resolved = true
    ∧ ∀ wizardState, fields wizardState = resolved →
        (∀ acc,
           build_items (copy_all (map (set_isIncluded true) resolved))
             idName nameName (parsedJson wizardState) = ret acc →
           ∃ saved, pull_save wizardState = ret saved
                    ∧ arg_items (request saved) = acc.1
                    ∧ skippedItemsCount saved = acc.2)
        ∧ ∀ saved, pull_save wizardState = ret saved →
            arg_idField (request saved) = idName
            ∧ arg_nameField (request saved) = nameName
            ∧ map fd_Name (arg_fields (request saved)) = map name discovered.
Proof.
  unfold pull_resolve in Hresolved.
  destruct (resolve_id _ _ discovered) as [e|fields1] eqn:Hid; [done|].
  simpl in Hresolved.
  destruct (resolve_id_preserves _ _ _ _ Hid) as [Hnames1 HisName1].
  destruct (resolve_name_preserves _ _ _ _ Hresolved) as [Hnames2 HisId2].
  destruct (resolve_id_marks _ _ _ _ Hnodup
              (λ f Hf, proj1 (Hunmarked f Hf)) Hid)
    as (idName & Hcid & Hidin & Hidmarked).
  assert (∀ f, f ∈ fields1 → isName f = false) as Hnoname1.
  { intros f Hf. apply list_elem_of_lookup in Hf as [j Hj].
    assert ((isName <$> discovered) !! j = Some (isName f)) as Hl.
    { change (isName <$> discovered) with (map isName discovered).
      rewrite <- HisName1. change (map isName fields1) with (isName <$> fields1).
      by rewrite list_lookup_fmap, Hj. }
    rewrite list_lookup_fmap in Hl.
    destruct (discovered !! j) as [g|] eqn:Hg; [|done].
    injection Hl as <-. apply Hunmarked. by eapply list_elem_of_lookup_2. }
  rewrite <- Hnames1 in Hnodup.
  destruct (resolve_name_marks _ _ _ _ Hnodup Hnoname1 Hresolved)
    as (nameName & Hcname & Hnamein & Hnamemarked).
  assert (marked isId idName resolved) as Hidmarked'
    by (by apply (marked_transfer isId idName fields1)).
  exists idName, nameName.
  split; [done|]. split; [done|]. split; [congruence|].
  split; [done|]. split; [done|].
  destruct (marked_find isId idName resolved Hidmarked')
    as (idF & HidF & HidFname); [congruence|].
  destruct (marked_find isName nameName resolved Hnamemarked)
    as (nameF & HnameF & HnameFname); [congruence|].
  destruct (find_field_Some _ _ _ HidF) as [HidFin HidFflag].
  destruct (find_field_Some _ _ _ HnameF) as [HnameFin HnameFflag].
  split.
  { unfold canProceed.
    by rewrite (existsb_elem isId _ idF), (existsb_elem isName _ nameF). }
  intros wizardState Hfields. unfold pull_save.
  rewrite Hfields, HidF, HnameF, HidFname, HnameFname. split.
  - intros acc ->. simpl. eexists. split; [done|]. done.
  - intros saved.
    destruct (build_items _ _ _ _) as [e|acc]; [done|]. simpl.
    intros [= <-]. simpl. split; [done|]. split; [done|].
    rewrite !map_map. simpl. rewrite <- Hnames1, <- Hnames2.
    by apply map_ext.
Qed.

(** ** The entries of the payload *)

Lemma add_item_mono copy idName nameName acc item acc' k entry :
  add_item copy idName nameName acc item = ret acc' →
  acc.1 !! k = Some entry → acc'.1 !! k = Some entry.
Proof.
  destruct acc as [itemsPayload skipped].
  intros (fate & Hfate & ->)%add_item_ret Hk. simpl in Hk.
  destruct Hfate; simpl; try done.
  rewrite lookup_insert_ne; [done|]. intros Heq. congruence.
Qed.

Lemma forEach_add_item_mono copy idName nameName records acc acc' k entry :
  forEach records (add_item copy idName nameName) acc = ret acc' →
  acc.1 !! k = Some entry → acc'.1 !! k = Some entry.
Proof.
  revert acc. induction records as [|item records IH]; intros acc; simpl.
  - by intros [= <-].
  - destruct (add_item copy idName nameName acc item) as [e|acc1] eqn:Hitem;
      [done|].
    simpl. intros Hrest Hk. apply (IH acc1 Hrest). by eapply add_item_mono.
Qed.

Lemma ret_inj {A} (a b : A) : ret a = ret b → a = b.
Proof. by intros [= ->]. Qed.

(** An entry of the payload was there before the loop, or it is the
    entry of the first record that asks for its key. *)
Lemma forEach_add_item_entry copy idName nameName records acc acc' k entry :
  forEach records (add_item copy idName nameName) acc = ret acc' →
  acc'.1 !! k = Some entry →
  acc.1 !! k = Some entry
  ∨ (acc.1 !! k = None ∧ k ≠ "" ∧ inherited k = false ∧ item_Id entry = k
     ∧ ∃ i item, records !! i = Some item
         ∧ entry_of copy idName nameName item entry
         ∧ ∀ j item', j < i → records !! j = Some item' →
             ¬ candidate idName nameName k item').
Proof.
  revert acc. induction records as [|item records IH]; intros acc; simpl.
  { intros [= <-]. by left. }
  destruct (add_item copy idName nameName acc item) as [e|acc1] eqn:Hitem;
    [done|].
  simpl. intros Hrest Hk. destruct acc as [itemsPayload skipped].
  apply add_item_ret in Hitem as (fate & Hfate & ->).
  destruct (IH _ Hrest Hk)
    as [Hin|(Hnone & Hne & Hinh & Hid & i & item0 & Hi & Hentry & Hmin)].
  - destruct Hfate as [| | | |itemIdString itemNameString Hnn Hids Hnames
                              Hnonempty Hfresh Hown];
      simpl in *; try (by left).
    destruct (decide (itemIdString = k)) as [->|Hk'].
    + rewrite lookup_insert_eq in Hin. injection Hin as <-. right.
      split; [done|]. split; [done|]. split; [done|]. split; [done|].
      exists 0, item. split; [done|]. split; [by repeat split|].
      intros j ? Hj. lia.
    + rewrite lookup_insert_ne in Hin by done. by left.
  - right.
    assert (itemsPayload !! k = None ∧ ¬ candidate idName nameName k item)
      as [Hnone0 Hnot].
    { destruct Hfate as [Hnull|? Hnn Hids _|? ? Hnn Hids _ _ Hsome
                        |? ? Hnn Hids _ _ Hown|? ? Hnn Hids _ _ _ _];
        simpl in *.
      - split; [done|]. intros [Hc _]. congruence.
      - split; [done|]. intros [_ Hc]. rewrite Hids in Hc.
        apply ret_inj in Hc. congruence.
      - split; [done|]. intros [_ Hc]. rewrite Hids in Hc.
        apply ret_inj in Hc. subst. rewrite Hnone in Hsome.
        by destruct Hsome.
      - split; [done|]. intros [_ Hc]. rewrite Hids in Hc.
        apply ret_inj in Hc. congruence.
      - apply lookup_insert_None in Hnone as [Hnone Hdiff].
        split; [done|]. intros [_ Hc]. rewrite Hids in Hc.
        apply ret_inj in Hc. congruence. }
    split; [done|]. split; [done|]. split; [done|]. split; [done|].
    exists (S i), item0. split; [done|]. split; [done|].
    intros [|j] item' Hj Hl; simpl in Hl.
    + by injection Hl as <-.
    + apply (Hmin j); [lia|done].
Qed.

(** A record that asks for a key that can be stored finds the key in the
    payload at the end of the loop. *)
Lemma forEach_add_item_candidate copy idName nameName records acc acc' k item :
  forEach records (add_item copy idName nameName) acc = ret acc' →
  item ∈ records → candidate idName nameName k item →
  k ≠ "" → inherited k = false → is_Some (acc'.1 !! k).
Proof.
  intros Hall Hitem [Hnn Hk] Hne Hinh. revert acc Hall.
  induction Hitem as [item records|item item0 records Hitem IH];
    intros acc; simpl.
  - destruct (add_item copy idName nameName acc item) as [e|acc1] eqn:Hadd;
      [done|].
    simpl. intros Hrest. destruct acc as [itemsPayload skipped].
    apply add_item_ret in Hadd as (fate & Hfate & ->).
    assert (is_Some ((match fate with
                      | Some itemsPayload' => (itemsPayload', skipped)
                      | None => (itemsPayload, S skipped)
                      end).1 !! k)) as [entry Hentry].
    { destruct Hfate as [Hnull|? _ Hids _|? ? _ Hids _ _ Hsome
                        |? ? _ Hids _ _ Hown|? ? _ Hids _ _ _ _];
        simpl.
      - congruence.
      - rewrite Hids in Hk. apply ret_inj in Hk. congruence.
      - rewrite Hids in Hk. apply ret_inj in Hk. by subst.
      - rewrite Hids in Hk. apply ret_inj in Hk. congruence.
      - rewrite Hids in Hk. apply ret_inj in Hk. subst.
        rewrite lookup_insert_eq. eauto. }
    exists entry. by eapply forEach_add_item_mono.
  - destruct (add_item copy idName nameName acc item0) as [e|acc1]; [done|].
    simpl. by apply IH.
Qed.

(** X9: every entry of the payload is stored under its own [Id], a key
    that is not empty and that [Object.prototype] does not answer for, and
    is not archived.  It is the entry of a record of the input: of the
    first record, among those with both an ID and a Name, whose ID prints
    as this key; the Name of the entry and its data are those of this
    record.  So of two records with one ID the first is kept. *)
Theorem payload_entry_is_of_the_first_record
    copy idName nameName records acc k entry
    (Hbuilt : build_items copy idName nameName (Some records) = ret acc)
    (Hentry : acc.1 !! k = Some entry) :
  k ≠ "" ∧ inherited k = false ∧ item_Id entry = k
  ∧ item_IsArchived entry = false
  ∧ ∃ i item,
      records !! i = Some item
      ∧ entry_of copy idName nameName item entry
      ∧ ∀ j item', j < i → records !! j = Some item' →
          ¬ candidate idName nameName k item'.
Proof.
  simpl in Hbuilt.
  destruct (forEach_add_item_entry _ _ _ _ _ _ _ _ Hbuilt Hentry)
    as [Hin|(_ & Hne & Hinh & Hid & i & item & Hi & Hof & Hmin)].
  { simpl in Hin. by rewrite lookup_empty in Hin. }
  split; [done|]. split; [done|]. split; [done|].
  split; [by destruct Hof as (_ & _ & _ & ?)|]. by exists i, item.
Qed.

(** X10: the keys of the payload are the texts that some record with both
    an ID and a Name has as its ID, the empty text and the names of the
    members of [Object.prototype] apart. *)
Theorem payload_keys copy idName nameName records acc k
    (Hbuilt : build_items copy idName nameName (Some records) = ret acc) :
  is_Some (acc.1 !! k)
  ↔ k ≠ "" ∧ inherited k = false
    ∧ ∃ item, item ∈ records ∧ candidate idName nameName k item.
Proof.
  simpl in Hbuilt. split.
  - intros [entry Hentry].
    destruct (forEach_add_item_entry _ _ _ _ _ _ _ _ Hbuilt Hentry)
      as [Hin|(_ & Hne & Hinh & Hid & i & item & Hi & Hof & Hmin)].
    { simpl in Hin. by rewrite lookup_empty in Hin. }
    split; [done|]. split; [done|]. exists item.
    split; [by eapply list_elem_of_lookup_2|].
    destruct Hof as (Hc & _). by rewrite Hid in Hc.
  - intros (Hne & Hinh & item & Hitem & Hc).
    by eapply forEach_add_item_candidate.
Qed.

(** ** The data of an entry *)

Lemma data_set_proto data k v :
  k ≠ "__proto__" → data_proto (data_set data k v) = data_proto data.
Proof.
  intros Hk. unfold data_set. by rewrite bool_decide_eq_false_2.
Qed.

Lemma data_set_proto_key data v :
  data_own data !! "__proto__" = None → data_proto data = ProtoObject →
  data_own (data_set data "__proto__" v) !! "__proto__" = None.
Proof.
  intros Hown Hproto. unfold data_set.
  rewrite bool_decide_eq_true_2 by done.
  rewrite (bool_decide_eq_false_2 (is_Some _))
    by (rewrite Hown; by intros [? ?]).
  rewrite Hproto. simpl. by destruct v.
Qed.

Lemma copy_step_proto_rest (item : PlainObject) (l : list Field) data :
  (∀ f, f ∈ l → name f ≠ "__proto__") →
  data_own data !! "__proto__" = None →
  data_own (foldl (λ data field,
                     if isIncluded field then
                       match own_get item (name field) with
                       | Some v => data_set data (name field) v
                       | None => data
                       end
                     else data) data l) !! "__proto__" = None.
Proof.
  revert data. induction l as [|f l IH]; intros data Hl Hown; simpl; [done|].
  apply IH. { intros g Hg. apply Hl. by right. }
  destruct (isIncluded f); [|done].
  destruct (own_get item (name f)); [|done].
  rewrite data_set_plain by (apply Hl; by left).
  rewrite lookup_insert_ne; [done|]. apply Hl. by left.
Qed.

(** A field named [__proto__] reaches the setter of [Object.prototype]
    and leaves no property. *)
Lemma copy_included_proto (fields : list Field) item :
  NoDup (map name fields) →
  data_own (copy_included fields item) !! "__proto__" = None.
Proof.
  unfold copy_included.
  assert (∀ l data,
    NoDup (map name l) → data_proto data = ProtoObject →
    data_own data !! "__proto__" = None →
    data_own (foldl (λ data field,
                       if isIncluded field then
                         match own_get item (name field) with
                         | Some v => data_set data (name field) v
                         | None => data
                         end
                       else data) data l) !! "__proto__" = None) as Hgen.
  { induction l as [|f l IH]; intros data Hnodup Hproto Hown; simpl; [done|].
    simpl in Hnodup. apply NoDup_cons in Hnodup as [Hf Hnodup].
    destruct (decide (name f = "__proto__")) as [Heq|Hne].
    - apply copy_step_proto_rest.
      + intros g Hg Hgname. apply Hf. rewrite Heq, <- Hgname.
        apply list_elem_of_fmap. by exists g.
      + destruct (isIncluded f); [|done].
        destruct (own_get item (name f)); [|done].
        rewrite Heq. by apply data_set_proto_key.
    - apply IH; [done| |].
      + destruct (isIncluded f); [|done].
        destruct (own_get item (name f)); [|done].
        by rewrite data_set_proto.
      + destruct (isIncluded f); [|done].
        destruct (own_get item (name f)); [|done].
        rewrite data_set_plain by done. by rewrite lookup_insert_ne. }
  intros Hnodup. by apply Hgen.
Qed.

Lemma copy_included_lookup (fields : list Field) item key :
  NoDup (map name fields) →
  data_own (copy_included fields item) !! key
  = if decide (key = "__proto__") then None
    else if sends fields key then own_get item key else None.
Proof.
  intros Hnodup.
  destruct (decide (key = "__proto__")) as [->|Hkey];
    [by apply copy_included_proto|].
  destruct (data_own (copy_included fields item) !! key) as [v|] eqn:Hv.
  - apply copy_included_only in Hv as (Hown & f & Hf & Hname & Hinc).
    unfold sends. rewrite (existsb_elem _ fields f Hf); [done|].
    by rewrite bool_decide_eq_true_2, Hinc.
  - destruct (sends fields key) eqn:Hs; [|done].
    destruct (own_get item key) as [v|] eqn:Hown; [|done].
    apply existsb_exists in Hs as (f & Hf & Hb).
    apply andb_true_iff in Hb as [Hn Hinc].
    apply bool_decide_eq_true in Hn. subst key.
    rewrite (copy_included_all fields item f v) in Hv; try done.
    by apply list_elem_of_In.
Qed.

Lemma sends_included (fields : list Field) key :
  sends (map (set_isIncluded true) fields) key
  = bool_decide (key ∈ map name fields).
Proof.
  unfold sends. induction fields as [|f fields IH]; [done|].
  simpl. rewrite IH, andb_true_r.
  destruct (decide (name f = key)) as [<-|Hne].
  - rewrite bool_decide_eq_true_2 by done. simpl.
    symmetry. apply bool_decide_eq_true_2. by left.
  - rewrite (bool_decide_eq_false_2 (name f = key)) by done. simpl.
    apply bool_decide_ext. rewrite elem_of_cons.
    split; [tauto|]. by intros [?|?].
Qed.

Lemma own_get_key (item : PlainObject) key v :
  own_get item key = Some v → key ∈ map fst item.
Proof.
  induction item as [|[k' v'] item IH]; simpl; [done|].
  destruct (decide (k' = key)) as [->|Hne]; [by left|].
  intros Hv. right. by apply IH.
Qed.

Lemma all_keys_elem items item key :
  JObj item ∈ items → key ∈ map fst item → key ∈ all_keys items.
Proof.
  intros Hitem Hkey. unfold all_keys.
  apply list_elem_of_In, in_flat_map. exists (JObj item).
  split; by apply list_elem_of_In.
Qed.

Lemma pull_resolve_names specifiedIdField specifiedNameField meta
    (discovered resolved : list Field) :
  pull_resolve specifiedIdField specifiedNameField meta discovered
  = ret resolved →
  map name resolved = map name discovered.
Proof.
  unfold pull_resolve.
  destruct (resolve_id _ _ discovered) as [e|fields1] eqn:Hid; [done|].
  simpl. intros Hname.
  destruct (resolve_id_preserves _ _ _ _ Hid) as [<- _].
  by destruct (resolve_name_preserves _ _ _ _ Hname) as [<- _].
Qed.

Lemma included_all (l : list Field) :
  Forall (λ f, isIncluded f = true) (map (set_isIncluded true) l).
Proof. induction l; by constructor. Qed.

(** X11: what the wizard stores as the data of an entry is the record of
    the entry cut down to the included fields: under the name of an
    included field the data holds what the record itself holds, and it
    holds nothing else.  A field named [__proto__] is never stored, even
    when it is included. *)
Theorem wizard_entries_hold_the_included_fields
    confirm (state : WizardState PlainObject) saved k entry
    (Hnodup : NoDup (map name (fields state)))
    (Hsaved : confirmAndSave confirm state = ret saved)
    (Hentry : arg_items (request saved) !! k = Some entry) :
  ∃ records item,
    parsedJson state = Some records ∧ item ∈ records
    ∧ ToString (Get item (arg_idField (request saved))) = ret k
    ∧ ∀ key,
        item_Data entry !! key
        = if decide (key = "__proto__") then None
          else if sends (fields state) key then own_get item key else None.
Proof.
  unfold confirmAndSave in Hsaved.
  destruct (find_field isId (fields state)) as [idF|]; [|done].
  destruct (find_field isName (fields state)) as [nameF|]; [|done].
  destruct confirm; [|done]. simpl in Hsaved.
  destruct (parsedJson state) as [records|]; [|done]. simpl in Hsaved.
  destruct (forEach records _ _) as [e|acc] eqn:Hloop; [done|].
  simpl in Hsaved.
  destruct (negb _ || negb _); [done|]. injection Hsaved as <-.
  simpl in *.
  destruct (forEach_add_item_entry _ _ _ _ _ _ _ _ Hloop Hentry)
    as [Hin|(_ & _ & _ & Hid & i & item & Hi & Hof & _)].
  { simpl in Hin. by rewrite lookup_empty in Hin. }
  destruct Hof as ((_ & Hids) & _ & Hdata & _).
  exists records, item. split; [done|].
  split; [by eapply list_elem_of_lookup_2|].
  split; [by rewrite <- Hid|].
  intros key. rewrite Hdata. by apply copy_included_lookup.
Qed.

(** X12: the [pull] action uploads each record it keeps in full: the
    data of an entry holds every property of its record with the value
    the record has, a property named [__proto__] apart, which is never
    stored. *)
Theorem pull_uploads_each_record_in_full
    specifiedIdField specifiedNameField meta wizardState saved k entry
    (Hsaved : pull_process specifiedIdField specifiedNameField meta
                wizardState = ret saved)
    (Hentry : arg_items (request saved) !! k = Some entry) :
  ∃ items item,
    jsonContent wizardState = ParsesTo (JArr items) ∧ JObj item ∈ items
    ∧ ToString (Get item (arg_idField (request saved))) = ret k
    ∧ ∀ key,
        item_Data entry !! key
        = if decide (key = "__proto__") then None else own_get item key.
Proof.
  unfold pull_process, validation_step in Hsaved.
  destruct (validateAndProcessJson wizardState) as [st' [| |err]] eqn:Hv;
    [|done..].
  simpl in Hsaved.
  destruct (Str.is_empty (datasetName st')); [done|].
  destruct (pull_resolve _ _ _ _) as [e|resolved] eqn:Hres; [done|].
  simpl in Hsaved.
  destruct (check_datasetId _) as [e|id]; [done|]. simpl in Hsaved.
  destruct (validate_true _ _ Hv) as (items & d & Hc & _ & Hd & _ & ->).
  simpl in *. apply pull_resolve_names in Hres.
  pose proof (discovered_names _ _ _ Hd) as Hnames.
  destruct (discover_items_inr _ _ _ _ Hd) as (Hplain & _).
  unfold pull_save in Hsaved. simpl in Hsaved.
  destruct (find_field isId resolved) as [idF|]; [|done].
  destruct (find_field isName resolved) as [nameF|]; [|done].
  destruct (forEach (plain_objects items) _ _) as [e|acc] eqn:Hloop; [done|].
  simpl in Hsaved. injection Hsaved as <-. simpl in *.
  destruct (forEach_add_item_entry _ _ _ _ _ _ _ _ Hloop Hentry)
    as [Hin|(_ & _ & _ & Hid & i & item & Hi & Hof & _)].
  { simpl in Hin. by rewrite lookup_empty in Hin. }
  destruct Hof as ((_ & Hids) & _ & Hdata & _).
  assert (JObj item ∈ items) as Hitem.
  { rewrite <- (plain_objects_all items Hplain).
    apply list_elem_of_fmap. exists item. split; [done|].
    by eapply list_elem_of_lookup_2. }
  exists items, item. split; [done|]. split; [done|].
  split; [by rewrite <- Hid|].
  intros key. rewrite Hdata.
  rewrite copy_all_included by apply included_all.
  rewrite copy_included_lookup.
  2:{ rewrite map_map. simpl. rewrite <- Hres in Hnames.
      change (map (λ x, name x) resolved) with (map name resolved).
      rewrite Hnames. apply first_seen_NoDup. }
  destruct (decide (key = "__proto__")); [done|].
  rewrite sends_included.
  destruct (own_get item key) as [v|] eqn:Hown; [|by case_bool_decide].
  rewrite bool_decide_eq_true_2; [done|].
  rewrite Hres, Hnames. apply first_seen_elem.
  eapply all_keys_elem; [done|]. by eapply own_get_key.
Qed.

(** ** The menu of the wizard *)

Lemma map_insert_same {A B} (g : A → B) (l : list A) i x y :
  l !! i = Some x → g y = g x → map g (<[i := y]> l) = map g l.
Proof.
  intros Hi Hg. change (g <$> <[i := y]> l = g <$> l).
  rewrite list_fmap_insert, Hg. apply list_insert_id.
  by rewrite list_lookup_fmap, Hi.
Qed.

Lemma existsb_map_eq {A} (flag : A → bool) (l1 l2 : list A) :
  map flag l2 = map flag l1 → existsb flag l2 = existsb flag l1.
Proof.
  revert l2. induction l1 as [|x l1 IH]; intros [|y l2]; simpl; try done.
  intros [= -> Hrest]. by rewrite (IH l2).
Qed.

Lemma one_mark_transfer flag (l1 l2 : list Field) :
  map name l2 = map name l1 → map flag l2 = map flag l1 →
  one_mark flag l1 → one_mark flag l2.
Proof.
  intros Hnames Hflags [Hnone|(wanted & Hin & Hmarked)].
  - left. by rewrite (existsb_map_eq flag l1 l2).
  - right. exists wanted. rewrite Hnames. split; [done|].
    by apply (marked_transfer flag wanted l1).
Qed.

Lemma marked_existsb flag wanted (fields : list Field) :
  marked flag wanted fields → wanted ∈ map name fields →
  existsb flag fields = true.
Proof.
  intros Hmarked (f & -> & Hf)%list_elem_of_fmap.
  apply (existsb_elem flag fields f Hf). by apply Hmarked.
Qed.

(** What a turn of the menu leaves as it is, action by action. *)
Lemma action_set_id_keeps fieldToSet (fields : list Field) :
  map name (action_set_id fieldToSet fields) = map name fields
  ∧ map dataType (action_set_id fieldToSet fields) = map dataType fields
  ∧ map sampleValues (action_set_id fieldToSet fields)
    = map sampleValues fields
  ∧ map isName (action_set_id fieldToSet fields) = map isName fields
  ∧ map isIncluded (action_set_id fieldToSet fields) = map isIncluded fields
  ∧ marked isId fieldToSet (action_set_id fieldToSet fields).
Proof.
  unfold action_set_id. rewrite !map_map. simpl.
  split_and!; try done.
  intros g' (g & -> & Hg)%list_elem_of_fmap. simpl. by case_bool_decide.
Qed.

Lemma action_set_name_keeps fieldToSet (fields : list Field) :
  map name (action_set_name fieldToSet fields) = map name fields
  ∧ map dataType (action_set_name fieldToSet fields) = map dataType fields
  ∧ map sampleValues (action_set_name fieldToSet fields)
    = map sampleValues fields
  ∧ map isId (action_set_name fieldToSet fields) = map isId fields
  ∧ map isIncluded (action_set_name fieldToSet fields) = map isIncluded fields
  ∧ marked isName fieldToSet (action_set_name fieldToSet fields).
Proof.
  unfold action_set_name. rewrite !map_map. simpl.
  split_and!; try done.
  intros g' (g & -> & Hg)%list_elem_of_fmap. simpl. by case_bool_decide.
Qed.

Lemma action_change_type_keeps fieldToChange newType (fields : list Field) :
  map name (action_change_type fieldToChange newType fields) = map name fields
  ∧ map sampleValues (action_change_type fieldToChange newType fields)
    = map sampleValues fields
  ∧ map isId (action_change_type fieldToChange newType fields)
    = map isId fields
  ∧ map isName (action_change_type fieldToChange newType fields)
    = map isName fields
  ∧ map isIncluded (action_change_type fieldToChange newType fields)
    = map isIncluded fields.
Proof.
  unfold action_change_type.
  destruct (list_find _ fields) as [[i f]|] eqn:Hfind; [|done].
  apply list_find_Some in Hfind as (Hi & _ & _).
  split_and!; by apply (map_insert_same _ fields i f).
Qed.

Lemma action_toggle_include_keeps fieldToToggle (fields : list Field) :
  map name (action_toggle_include fieldToToggle fields) = map name fields
  ∧ map dataType (action_toggle_include fieldToToggle fields)
    = map dataType fields
  ∧ map sampleValues (action_toggle_include fieldToToggle fields)
    = map sampleValues fields
  ∧ map isId (action_toggle_include fieldToToggle fields) = map isId fields
  ∧ map isName (action_toggle_include fieldToToggle fields)
    = map isName fields.
Proof.
  unfold action_toggle_include.
  destruct (list_find _ fields) as [[i f]|] eqn:Hfind; [|done].
  destruct (isId f || isName f); [done|].
  apply list_find_Some in Hfind as (Hi & _ & _).
  split_and!; by apply (map_insert_same _ fields i f).
Qed.

Lemma perform_keeps a (fields : list Field) :
  picked a ∈ map name fields →
  map name (perform a fields) = map name fields
  ∧ map sampleValues (perform a fields) = map sampleValues fields
  ∧ (one_mark isId fields → one_mark isId (perform a fields))
  ∧ (one_mark isName fields → one_mark isName (perform a fields)).
Proof.
  intros Hpicked. destruct a as [X|X|X t|X]; simpl in *.
  - destruct (action_set_id_keeps X fields)
      as (Hn & _ & Hs & HisName & _ & Hmark).
    split; [done|]. split; [done|]. split.
    + intros _. right. exists X. by rewrite Hn.
    + by apply one_mark_transfer.
  - destruct (action_set_name_keeps X fields)
      as (Hn & _ & Hs & HisId & _ & Hmark).
    split; [done|]. split; [done|]. split.
    + by apply one_mark_transfer.
    + intros _. right. exists X. by rewrite Hn.
  - destruct (action_change_type_keeps X t fields)
      as (Hn & Hs & HisId & HisName & _).
    split; [done|]. split; [done|]. split; by apply one_mark_transfer.
  - destruct (action_toggle_include_keeps X fields)
      as (Hn & _ & Hs & HisId & HisName).
    split; [done|]. split; [done|]. split; by apply one_mark_transfer.
Qed.

Lemma Configures_keeps (fields configured : list Field) :
  Configures fields configured →
  one_mark isId fields → one_mark isName fields →
  map name configured = map name fields
  ∧ map sampleValues configured = map sampleValues fields
  ∧ canProceed configured = true
  ∧ one_mark isId configured ∧ one_mark isName configured.
Proof.
  induction 1 as [fields Hcan|a fields configured Hpicked _ IH];
    intros HoneId HoneName; [done|].
  destruct (perform_keeps a fields Hpicked) as (Hn & Hs & HId & HName).
  destruct (IH (HId HoneId) (HName HoneName)) as (Hn' & Hs' & Hrest).
  split; [congruence|]. split; [congruence|]. done.
Qed.

(** X13: a run of the field menu that ends by [Proceed to Metadata]
    changes neither the names of the fields, nor their order, nor their
    samples.  Started on fields none of which is marked, it ends with the
    fields of one name marked as ID and the fields of one name marked as
    Name, both names among those discovered. *)
Theorem configuration_marks_one_name_each (discovered configured : list Field)
    (Hrun : Configures discovered configured)
    (Hunmarked : ∀ f, f ∈ discovered → isId f = false ∧ isName f = false) :
  map name configured = map name discovered
  ∧ map sampleValues configured = map sampleValues discovered
  ∧ ∃ idName nameName,
      idName ∈ map name discovered ∧ nameName ∈ map name discovered
      ∧ marked isId idName configured ∧ marked isName nameName configured.
Proof.
  destruct (Configures_keeps discovered configured Hrun)
    as (Hn & Hs & Hcan & HId & HName).
  { left. apply existsb_false. intros f Hf. by apply Hunmarked. }
  { left. apply existsb_false. intros f Hf. by apply Hunmarked. }
  split; [done|]. split; [done|].
  unfold canProceed in Hcan. apply andb_true_iff in Hcan as [HhasId HhasName].
  destruct HId as [HId|(idName & HidIn & HidMarked)]; [congruence|].
  destruct HName as [HName|(nameName & HnameIn & HnameMarked)]; [congruence|].
  exists idName, nameName. by rewrite <- Hn.
Qed.

(** X14: when [confirmAndSave] reaches [api.createDataset], the prompt was
    confirmed and the request carries the texts of the state.  Its field
    definitions are the included fields in their order, each marked
    included and required exactly when it is the ID or the Name field, and
    an ID field and a Name field are among them.  When the fields of one
    name are marked as ID, this name is the ID field of the request, and
    likewise for the Name. *)
Theorem wizard_request_is_well_formed
    confirm (state : WizardState PlainObject) saved
    (Hsaved : confirmAndSave confirm state = ret saved) :
  confirm = true
  ∧ arg_id (request saved) = datasetId state
  ∧ arg_name (request saved) = datasetName state
  ∧ arg_description (request saved) = datasetDescription state
  ∧ arg_fields (request saved)
    = map final_field_wizard (filter (λ f, isIncluded f = true) (fields state))
  ∧ (∀ fd, fd ∈ arg_fields (request saved) →
       fd_IsIncluded fd = true
       ∧ fd_IsRequired fd = fd_IsId fd || fd_IsName fd)
  ∧ (∃ fd, fd ∈ arg_fields (request saved) ∧ fd_IsId fd = true)
  ∧ (∃ fd, fd ∈ arg_fields (request saved) ∧ fd_IsName fd = true)
  ∧ (∀ idName, marked isId idName (fields state) →
       arg_idField (request saved) = idName
       ∧ ∃ fd, fd ∈ arg_fields (request saved) ∧ fd_Name fd = idName
               ∧ fd_IsId fd = true ∧ fd_IsRequired fd = true)
  ∧ (∀ nameName, marked isName nameName (fields state) →
       arg_nameField (request saved) = nameName
       ∧ ∃ fd, fd ∈ arg_fields (request saved) ∧ fd_Name fd = nameName
               ∧ fd_IsName fd = true ∧ fd_IsRequired fd = true).
Proof.
  unfold confirmAndSave in Hsaved.
  destruct (find_field isId (fields state)) as [idF|] eqn:HidF; [|done].
  destruct (find_field isName (fields state)) as [nameF|] eqn:HnameF; [|done].
  destruct confirm; [|done]. simpl in Hsaved.
  destruct (build_items _ _ _ _) as [e|acc]; [done|]. simpl in Hsaved.
  destruct (negb _ || negb _) eqn:Hguard; [done|].
  injection Hsaved as <-. simpl.
  apply orb_false_iff in Hguard as [HhasId HhasName].
  apply negb_false_iff, existsb_exists in HhasId as (fdI & HfdI & HfdIid).
  apply negb_false_iff, existsb_exists in HhasName as (fdN & HfdN & HfdNname).
  apply list_elem_of_In in HfdI, HfdN.
  destruct (find_field_Some _ _ _ HidF) as [HidFin HidFflag].
  destruct (find_field_Some _ _ _ HnameF) as [HnameFin HnameFflag].
  split_and!; try done.
  - intros fd (f & -> & Hf)%list_elem_of_fmap.
    apply list_elem_of_filter in Hf as [Hinc _]. by simpl.
  - by exists fdI.
  - by exists fdN.
  - intros idName Hmarked. split; [by apply Hmarked|].
    exists fdI. split; [done|].
    apply list_elem_of_fmap in HfdI as (f & -> & Hf).
    apply list_elem_of_filter in Hf as [_ Hf]. simpl in *.
    split; [by apply Hmarked|]. split; [done|]. by rewrite HfdIid.
  - intros nameName Hmarked. split; [by apply Hmarked|].
    exists fdN. split; [done|].
    apply list_elem_of_fmap in HfdN as (f & -> & Hf).
    apply list_elem_of_filter in Hf as [_ Hf]. simpl in *.
    split; [by apply Hmarked|]. split; [done|].
    rewrite HfdNname. apply orb_true_r.
Qed.

(** *** Excluding a field *)

Lemma negb_toggle_back (f : Field) :
  set_isIncluded (negb (negb (isIncluded f)))
    (set_isIncluded (negb (isIncluded f)) f) = f.
Proof. destruct f. simpl. by rewrite negb_involutive. Qed.

Lemma list_find_insert_same (P : Field → Prop) `{∀ f, Decision (P f)}
    (l : list Field) i f f' :
  list_find P l = Some (i, f) → P f' →
  list_find P (<[i := f']> l) = Some (i, f').
Proof.
  intros (Hi & Hf & Hmin)%list_find_Some Hf'. apply list_find_Some.
  split; [apply list_lookup_insert_eq; by eapply lookup_lt_Some|].
  split; [done|]. intros j g Hj Hlt.
  rewrite list_lookup_insert_ne in Hj by lia. by apply (Hmin j).
Qed.

(** X15: the choice [Toggle Included Status] changes nothing but the
    included status of the first field of the picked name, and not even
    that when this field is the ID or the Name field; a field that is
    marked as ID or as Name is never changed by it.  Toggling a field
    twice gives the fields back. *)
Theorem toggle_include_spares_the_id_and_name_fields
    fieldToToggle (fields : list Field) :
  map name (action_toggle_include fieldToToggle fields) = map name fields
  ∧ map dataType (action_toggle_include fieldToToggle fields)
    = map dataType fields
  ∧ map sampleValues (action_toggle_include fieldToToggle fields)
    = map sampleValues fields
  ∧ map isId (action_toggle_include fieldToToggle fields) = map isId fields
  ∧ map isName (action_toggle_include fieldToToggle fields)
    = map isName fields
  ∧ (∀ i f, fields !! i = Some f → isId f || isName f = true →
       action_toggle_include fieldToToggle fields !! i = Some f)
  ∧ (∀ i f, fields !! i = Some f → name f ≠ fieldToToggle →
       action_toggle_include fieldToToggle fields !! i = Some f)
  ∧ (∀ i f, list_find (name_is (Some fieldToToggle)) fields = Some (i, f) →
       isId f || isName f = false →
       action_toggle_include fieldToToggle fields
       = <[i := set_isIncluded (negb (isIncluded f)) f]> fields)
  ∧ action_toggle_include fieldToToggle
      (action_toggle_include fieldToToggle fields) = fields.
Proof.
  destruct (action_toggle_include_keeps fieldToToggle fields)
    as (Hn & Ht & Hs & HisId & HisName).
  split_and!; try done.
  - intros i f Hi Hmarked. unfold action_toggle_include.
    destruct (list_find _ fields) as [[j g]|] eqn:Hfind; [|done].
    destruct (isId g || isName g) eqn:Hg; [done|].
    apply list_find_Some in Hfind as (Hj & _ & _).
    rewrite list_lookup_insert_ne; [done|]. intros <-. congruence.
  - intros i f Hi Hname. unfold action_toggle_include.
    destruct (list_find _ fields) as [[j g]|] eqn:Hfind; [|done].
    destruct (isId g || isName g) eqn:Hg; [done|].
    apply list_find_Some in Hfind as (Hj & Hgname & _).
    rewrite list_lookup_insert_ne; [done|]. intros <-.
    unfold name_is in Hgname. congruence.
  - intros i f Hfind Hunmarked. unfold action_toggle_include.
    by rewrite Hfind, Hunmarked.
  - unfold action_toggle_include at 2.
    destruct (list_find _ fields) as [[i f]|] eqn:Hfind.
    + destruct (isId f || isName f) eqn:Hf.
      * unfold action_toggle_include. by rewrite Hfind, Hf.
      * unfold action_toggle_include.
        rewrite (list_find_insert_same _ fields i f
                   (set_isIncluded (negb (isIncluded f)) f) Hfind).
        2:{ apply list_find_Some in Hfind as (_ & Hname & _). done. }
        simpl. rewrite Hf.
        change (isIncluded (set_isIncluded (negb (isIncluded f)) f))
          with (negb (isIncluded f)).
        rewrite list_insert_insert_eq, negb_toggle_back.
        apply list_insert_id.
        by apply list_find_Some in Hfind as (Hi & _ & _).
    + unfold action_toggle_include. by rewrite Hfind.
Qed.

Lemma toggle_excludes (discovered : list Field) X :
  NoDup (map name discovered) →
  (∀ f, f ∈ discovered →
     isId f = false ∧ isName f = false ∧ isIncluded f = true) →
  X ∈ map name discovered →
  ∀ g, g ∈ action_toggle_include X discovered → name g = X →
       isIncluded g = false.
Proof.
  intros Hnodup Hfresh HX g Hg Hgname.
  destruct (list_find_name_is X discovered HX)
    as (i & f & Hfind & Hi & Hname & _).
  destruct (Hfresh f) as (HfId & HfName & HfInc);
    [by eapply list_elem_of_lookup_2|].
  unfold action_toggle_include in Hg.
  rewrite Hfind, HfId, HfName, HfInc in Hg. simpl in Hg.
  apply list_elem_of_lookup in Hg as [j Hj].
  destruct (decide (i = j)) as [<-|Hne].
  - rewrite list_lookup_insert_eq in Hj by (by eapply lookup_lt_Some).
    by injection Hj as <-.
  - rewrite list_lookup_insert_ne in Hj by done. destruct Hne.
    eapply NoDup_names_lookup; eauto. congruence.
Qed.

(** X16: the menu refuses to exclude the ID field only when the field is
    already marked.  On fields as discovery delivers them, excluding a
    field and then making it the ID field is a run of the menu that may
    proceed; it leaves the ID field excluded, and [confirmAndSave] then
    never reaches [api.createDataset]: once the prompt is confirmed and
    the payload is built, it throws for an invalid final field
    configuration.  In the other order the toggle changes nothing. *)
Theorem excluded_field_made_id_is_refused_at_save
    (discovered : list Field) X Y
    (Hnodup : NoDup (map name discovered))
    (Hfresh : ∀ f, f ∈ discovered →
                isId f = false ∧ isName f = false ∧ isIncluded f = true)
    (HX : X ∈ map name discovered)
    (HY : Y ∈ map name discovered) :
  Configures discovered (exclude_then_mark X Y discovered)
  ∧ perform (Toggle_include X) (perform (Set_id X) discovered)
    = perform (Set_id X) discovered
  ∧ (∀ f, f ∈ exclude_then_mark X Y discovered →
       isId f = true → isIncluded f = false)
  ∧ ∀ confirm (state : WizardState PlainObject),
      fields state = exclude_then_mark X Y discovered →
      (∀ saved, confirmAndSave confirm state ≠ ret saved)
      ∧ ∀ acc,
          build_items (copy_included (fields state)) X Y (parsedJson state)
          = ret acc →
          confirmAndSave true state
          = throw (Error "Wizard cancelled due to invalid final field configuration.").
Proof.
  pose proof (toggle_excludes discovered X Hnodup Hfresh HX) as Hexcluded.
  destruct (action_toggle_include_keeps X discovered)
    as (Hn1 & _ & _ & _ & _).
  destruct (action_set_id_keeps X (action_toggle_include X discovered))
    as (Hn2 & _ & _ & _ & _ & HmarkId).
  destruct (action_set_name_keeps Y
              (action_set_id X (action_toggle_include X discovered)))
    as (Hn3 & _ & _ & HisId3 & _ & HmarkName).
  set (configured := exclude_then_mark X Y discovered).
  assert (map name configured = map name discovered) as Hn
    by (unfold configured, exclude_then_mark; simpl; congruence).
  assert (marked isId X configured) as HmarkedId.
  { apply (marked_transfer isId X
             (action_set_id X (action_toggle_include X discovered)));
      try done. }
  assert (marked isName Y configured) as HmarkedName by done.
  assert (∀ f, f ∈ configured → isId f = true → isIncluded f = false)
    as Hout.
  { intros f' Hf' HisId. unfold configured, exclude_then_mark in Hf'.
    simpl in Hf'. unfold action_set_name, action_set_id in Hf'.
    apply list_elem_of_fmap in Hf' as (f1 & -> & Hf1).
    apply list_elem_of_fmap in Hf1 as (g & -> & Hg).
    simpl in *. apply bool_decide_eq_true in HisId. by apply Hexcluded. }
  split.
  { apply (Configures_action (Toggle_include X)); [done|].
    apply (Configures_action (Set_id X)); [simpl; by rewrite Hn1|].
    apply (Configures_action (Set_name Y)); [simpl; by rewrite Hn2, Hn1|].
    apply Configures_proceed. unfold canProceed.
    rewrite (marked_existsb isId X), (marked_existsb isName Y); try done.
    - fold configured. by rewrite Hn.
    - fold configured. by rewrite Hn. }
  split.
  { simpl. unfold action_toggle_include.
    destruct (action_set_id_keeps X discovered)
      as (Hn' & _ & _ & _ & _ & Hmark').
    destruct (list_find _ (action_set_id X discovered)) as [[j g]|] eqn:Hfind;
      [|done].
    apply list_find_Some in Hfind as (Hj & Hgname & _).
    unfold name_is in Hgname. injection Hgname as Hgname.
    rewrite (proj2 (Hmark' g (list_elem_of_lookup_2 _ _ _ Hj)) Hgname).
    done. }
  split; [done|].
  intros confirm state Hfields.
  assert (existsb fd_IsId
            (map final_field_wizard
               (filter (λ f, isIncluded f = true) (fields state))) = false)
    as Hguard.
  { apply existsb_false. intros fd (f & -> & Hf)%list_elem_of_fmap.
    apply list_elem_of_filter in Hf as [Hinc Hf]. simpl.
    rewrite Hfields in Hf. destruct (isId f) eqn:HisId; [|done].
    rewrite (Hout f Hf HisId) in Hinc. done. }
  split.
  - intros saved. unfold confirmAndSave.
    destruct (find_field isId (fields state)); [|done].
    destruct (find_field isName (fields state)); [|done].
    destruct confirm; [|done]. simpl.
    destruct (build_items _ _ _ _); [done|]. simpl.
    by rewrite Hguard.
  - intros acc Hbuilt. unfold confirmAndSave.
    destruct (marked_find isId X configured HmarkedId)
      as (idF & HidF & HidFname); [by rewrite Hn|].
    destruct (marked_find isName Y configured HmarkedName)
      as (nameF & HnameF & HnameFname); [by rewrite Hn|].
    rewrite Hfields. fold configured.
    rewrite HidF, HnameF, HidFname, HnameFname. simpl.
    rewrite Hfields in Hbuilt. fold configured in Hbuilt.
    rewrite Hbuilt. simpl.
    rewrite Hfields in Hguard. fold configured in Hguard.
    by rewrite Hguard.
Qed.

(** ** An import without skipped records *)

Lemma payload_truthy_fresh (itemsPayload : gmap string DatasetItem) k :
  itemsPayload !! k = None → inherited k = false →
  payload_truthy itemsPayload k = false.
Proof.
  unfold payload_truthy, inherited. intros ->.
  by destruct (Object_prototype_get k).
Qed.

Lemma forEach_add_item_distinct copy idName nameName records ids
    (itemsPayload : gmap string DatasetItem) skipped :
  Forall2 (λ item k, candidate idName nameName k item
                     ∧ converts (Get item nameName)
                     ∧ k ≠ "" ∧ inherited k = false) records ids →
  NoDup ids → (∀ k, k ∈ ids → itemsPayload !! k = None) →
  ∃ itemsPayload',
    forEach records (add_item copy idName nameName) (itemsPayload, skipped)
    = ret (itemsPayload', skipped)
    ∧ size itemsPayload' = size itemsPayload + length records
    ∧ ∀ k, is_Some (itemsPayload' !! k)
           ↔ is_Some (itemsPayload !! k) ∨ k ∈ ids.
Proof.
  intros Hall. revert itemsPayload.
  induction Hall as [|item k records ids Hitem _ IH];
    intros itemsPayload Hnodup Hfresh; simpl.
  { exists itemsPayload. split; [done|]. split; [lia|].
    intros k. rewrite elem_of_nil. tauto. }
  destruct Hitem as ((Hnn & Hk) & [nameString Hname] & Hne & Hinh).
  apply NoDup_cons in Hnodup as [Hk_new Hnodup].
  unfold add_item. rewrite Hnn, Hk, Hname. simpl.
  rewrite (proj2 (is_empty_false k) Hne).
  rewrite payload_truthy_fresh by (try done; apply Hfresh; by left).
  destruct (IH (<[k := {| item_Id := k; item_Name := nameString;
                           item_Data := data_own (copy item);
                           item_IsArchived := false |}]> itemsPayload)
              Hnodup) as (itemsPayload' & Hloop & Hsize & Hkeys).
  { intros k' Hk'. rewrite lookup_insert_ne by (intros ->; done).
    apply Hfresh. by right. }
  exists itemsPayload'. split; [done|]. split.
  - rewrite Hsize, map_size_insert_None by (apply Hfresh; by left). lia.
  - intros k'. rewrite Hkeys, elem_of_cons.
    destruct (decide (k = k')) as [->|Hdiff].
    + rewrite lookup_insert_eq. split; [intros _; right; by left|].
      intros _. left. eauto.
    + rewrite lookup_insert_ne by done. split; [tauto|].
      intros [?|[?|?]]; try tauto. congruence.
Qed.

(** X17: records that all have an ID and a Name, whose IDs print as
    distinct texts, none of them empty or the name of a member of
    [Object.prototype], and whose Names can be printed, are all kept:
    whatever the copy loop, the payload has one entry for each record,
    under the IDs as they print, and no record is counted as skipped. *)
Theorem distinct_ids_keep_every_record copy idName nameName records ids
    (Hids : Forall2 (λ item k, candidate idName nameName k item
                               ∧ converts (Get item nameName)
                               ∧ k ≠ "" ∧ inherited k = false) records ids)
    (Hnodup : NoDup ids) :
  ∃ itemsPayload,
    build_items copy idName nameName (Some records) = ret (itemsPayload, 0)
    ∧ size itemsPayload = length records
    ∧ ∀ k, is_Some (itemsPayload !! k) ↔ k ∈ ids.
Proof.
  destruct (forEach_add_item_distinct copy idName nameName records ids ∅ 0
              Hids Hnodup) as (itemsPayload & Hloop & Hsize & Hkeys).
  { intros k _. apply lookup_empty. }
  exists itemsPayload. split; [done|]. split.
  - by rewrite Hsize, map_size_empty.
  - intros k. rewrite Hkeys, lookup_empty. split; [|tauto].
    intros [[? ?]|?]; done.
Qed.

(** ** The clients *)

Lemma strip_prefix_append p r : strip_prefix p (p +:+ r) = Some r.
Proof.
  induction p as [|a p IH]; simpl; [by destruct r|].
  by rewrite decide_True.
Qed.

Lemma strip_prefix_Some p s r : strip_prefix p s = Some r → s = p +:+ r.
Proof.
  revert s. induction p as [|a p IH]; intros s; simpl.
  - by intros [= ->].
  - destruct s as [|b s]; [done|].
    destruct (decide (a = b)) as [->|]; [|done].
    intros Hs. by rewrite (IH s Hs).
Qed.

(** X18: the clients of the admin API and of the catalog switch
    certificate verification off exactly when the URL begins with
    [https://] followed by [localhost], [127.0.0.1] or [[::1]]; what
    follows the host plays no part, so a host name that merely begins
    with [localhost] is treated alike.  A catalog URL given without a
    scheme gets [https://] first, so a bare local host counts too. *)
Theorem isLocalDev_is_a_prefix_test url :
  (isLocalDev url = true
   ↔ ∃ host rest, host ∈ local_hosts ∧ url = "https://" +:+ host +:+ rest)
  ∧ (∀ host rest, host ∈ local_hosts →
       store_baseURL (host +:+ rest) = "https://" +:+ host +:+ rest
       ∧ isLocalDev (store_baseURL (host +:+ rest)) = true)
  ∧ (∀ rest, store_baseURL ("http" +:+ rest) = "http" +:+ rest)
  ∧ (∀ rest, isLocalDev ("http://" +:+ rest) = false).
Proof.
  assert (∀ host rest, host ∈ local_hosts →
            isLocalDev ("https://" +:+ host +:+ rest) = true) as Hlocal.
  { intros host rest Hhost. unfold isLocalDev, match_local.
    rewrite strip_prefix_append. unfold local_hosts in Hhost.
    cbn [omap list_omap].
    apply elem_of_cons in Hhost as [->|Hhost].
    { by rewrite strip_prefix_append. }
    destruct (strip_prefix "localhost" _); [done|].
    apply elem_of_cons in Hhost as [->|Hhost].
    { by rewrite strip_prefix_append. }
    destruct (strip_prefix "127.0.0.1" _); [done|].
    apply elem_of_cons in Hhost as [->|Hhost]; [|by apply elem_of_nil in Hhost].
    by rewrite strip_prefix_append. }
  split_and!.
  - split; [|by intros (host & rest & Hhost & ->); apply Hlocal].
    unfold isLocalDev, match_local.
    destruct (strip_prefix "https://" url) as [rest|] eqn:Hscheme; [|done].
    apply strip_prefix_Some in Hscheme as ->. cbn [omap list_omap].
    destruct (strip_prefix "localhost" rest) as [r|] eqn:H1.
    { intros _. apply strip_prefix_Some in H1 as ->.
      exists "localhost", r. split; [|done]. by left. }
    destruct (strip_prefix "127.0.0.1" rest) as [r|] eqn:H2.
    { intros _. apply strip_prefix_Some in H2 as ->.
      exists "127.0.0.1", r. split; [|done]. right. by left. }
    destruct (strip_prefix "[::1]" rest) as [r|] eqn:H3; [|done].
    intros _. apply strip_prefix_Some in H3 as ->.
    exists "[::1]", r. split; [|done]. right. right. by left.
  - intros host rest Hhost.
    assert (store_baseURL (host +:+ rest) = "https://" +:+ host +:+ rest)
      as ->; [|split; [done|by apply Hlocal]].
    unfold local_hosts in Hhost.
    apply elem_of_cons in Hhost as [->|Hhost]; [done|].
    apply elem_of_cons in Hhost as [->|Hhost]; [done|].
    apply elem_of_cons in Hhost as [->|Hhost]; [done|].
    by apply elem_of_nil in Hhost.
  - intros rest. unfold store_baseURL. by rewrite strip_prefix_append.
  - intros rest. done.
Qed.

(** ** The [pull] action as a whole *)

Lemma is_whitespace_lower_char c :
  is_whitespace (lower_char c) = is_whitespace c.
Proof. by destruct c as [[] [] [] [] [] [] [] []]. Qed.

Lemma lower_char_idem c : lower_char (lower_char c) = lower_char c.
Proof. by destruct c as [[] [] [] [] [] [] [] []]. Qed.

Lemma has_whitespace_toLowerCase s :
  has_whitespace (toLowerCase s) = has_whitespace s.
Proof.
  induction s as [|c s IH]; [done|].
  simpl. by rewrite is_whitespace_lower_char, IH.
Qed.

Lemma toLowerCase_idem s : toLowerCase (toLowerCase s) = toLowerCase s.
Proof.
  induction s as [|c s IH]; [done|].
  simpl. by rewrite lower_char_idem, IH.
Qed.

Lemma pull_resolve_marks specifiedIdField specifiedNameField meta
    (discovered resolved : list Field) :
  NoDup (map name discovered) →
  (∀ f, f ∈ discovered → isId f = false ∧ isName f = false) →
  pull_resolve specifiedIdField specifiedNameField meta discovered
  = ret resolved →
  ∃ idName nameName,
    chosen specifiedIdField (idField meta) = Some idName
    ∧ chosen specifiedNameField (nameField meta) = Some nameName
    ∧ idName ∈ map name discovered ∧ nameName ∈ map name discovered
    ∧ map name resolved = map name discovered
    ∧ marked isId idName resolved ∧ marked isName nameName resolved.
Proof.
  intros Hnodup Hunmarked Hresolved. unfold pull_resolve in Hresolved.
  destruct (resolve_id _ _ discovered) as [e|fields1] eqn:Hid; [done|].
  simpl in Hresolved.
  destruct (resolve_id_preserves _ _ _ _ Hid) as [Hnames1 HisName1].
  destruct (resolve_name_preserves _ _ _ _ Hresolved) as [Hnames2 HisId2].
  destruct (resolve_id_marks _ _ _ _ Hnodup
              (λ f Hf, proj1 (Hunmarked f Hf)) Hid)
    as (idName & Hcid & Hidin & Hidmarked).
  assert (∀ f, f ∈ fields1 → isName f = false) as Hnoname1.
  { intros f Hf. apply list_elem_of_lookup in Hf as [j Hj].
    assert ((isName <$> discovered) !! j = Some (isName f)) as Hl.
    { change (isName <$> discovered) with (map isName discovered).
      rewrite <- HisName1.
      change (map isName fields1) with (isName <$> fields1).
      by rewrite list_lookup_fmap, Hj. }
    rewrite list_lookup_fmap in Hl.
    destruct (discovered !! j) as [g|] eqn:Hg; [|done].
    injection Hl as <-. apply Hunmarked. by eapply list_elem_of_lookup_2. }
  rewrite <- Hnames1 in Hnodup.
  destruct (resolve_name_marks _ _ _ _ Hnodup Hnoname1 Hresolved)
    as (nameName & Hcname & Hnamein & Hnamemarked).
  exists idName, nameName.
  split; [done|]. split; [done|]. split; [done|].
  split; [congruence|]. split; [congruence|].
  split; [|done]. by apply (marked_transfer isId idName fields1).
Qed.

(** X19: the request the [pull] action makes.  The dataset ID is the ID
    of the state in lower case and holds no white space; nothing asks for
    it to be non-empty.  The name is the name of the state and is not
    empty.  The ID and Name fields are those of the options, or of the
    hints of the catalog where an option is not given.  The field
    definitions are the discovered fields in the order of discovery, all
    included, the ID field and the Name field marked and required and no
    other; and the entries and the skipped records together are the
    records of the download. *)
Theorem pull_request_is_well_formed
    specifiedIdField specifiedNameField meta wizardState saved
    (Hsaved : pull_process specifiedIdField specifiedNameField meta
                wizardState = ret saved) :
  arg_id (request saved) = toLowerCase (datasetId wizardState)
  ∧ has_whitespace (arg_id (request saved)) = false
  ∧ toLowerCase (arg_id (request saved)) = arg_id (request saved)
  ∧ arg_name (request saved) = datasetName wizardState
  ∧ arg_name (request saved) ≠ ""
  ∧ arg_description (request saved) = datasetDescription wizardState
  ∧ chosen specifiedIdField (idField meta)
    = Some (arg_idField (request saved))
  ∧ chosen specifiedNameField (nameField meta)
    = Some (arg_nameField (request saved))
  ∧ (∃ items,
       jsonContent wizardState = ParsesTo (JArr items)
       ∧ map fd_Name (arg_fields (request saved)) = first_seen (all_keys items)
       ∧ size (arg_items (request saved)) + skippedItemsCount saved
         = length items)
  ∧ ∀ fd, fd ∈ arg_fields (request saved) →
      fd_IsIncluded fd = true
      ∧ fd_IsRequired fd = fd_IsId fd || fd_IsName fd
      ∧ (fd_IsId fd = true ↔ fd_Name fd = arg_idField (request saved))
      ∧ (fd_IsName fd = true ↔ fd_Name fd = arg_nameField (request saved)).
Proof.
  unfold pull_process, validation_step in Hsaved.
  destruct (validateAndProcessJson wizardState) as [st' [| |err]] eqn:Hv;
    [|done..].
  simpl in Hsaved.
  destruct (Str.is_empty (datasetName st')) eqn:Hname; [done|].
  apply is_empty_false in Hname.
  destruct (pull_resolve _ _ _ _) as [e|resolved] eqn:Hres; [done|].
  simpl in Hsaved. unfold check_datasetId in Hsaved.
  destruct (has_whitespace (datasetId st')) eqn:Hws; [done|].
  simpl in Hsaved.
  destruct (validate_true _ _ Hv) as (items & d & Hc & _ & Hd & _ & ->).
  simpl in *.
  pose proof (discovered_names _ _ _ Hd) as Hnames.
  destruct (discover_items_inr _ _ _ _ Hd) as (Hplain & _).
  destruct (pull_resolve_marks specifiedIdField specifiedNameField meta
              d resolved)
    as (idName & nameName & Hcid & Hcname & _ & _ & Hn & HmId & HmName).
  { rewrite Hnames. apply first_seen_NoDup. }
  { intros f Hf. destruct (discovered_flags _ _ _ _ Hd Hf) as (? & ? & _).
    done. }
  { exact Hres. }
  unfold pull_save in Hsaved. simpl in Hsaved.
  destruct (find_field isId resolved) as [idF|] eqn:HidF; [|done].
  destruct (find_field isName resolved) as [nameF|] eqn:HnameF; [|done].
  destruct (forEach (plain_objects items) _ _) as [e|acc] eqn:Hloop; [done|].
  simpl in Hsaved. injection Hsaved as <-. simpl.
  destruct (find_field_Some _ _ _ HidF) as [HidFin HidFflag].
  destruct (find_field_Some _ _ _ HnameF) as [HnameFin HnameFflag].
  apply HmId in HidFflag; [|done]. apply HmName in HnameFflag; [|done].
  split_and!; try done.
  - by rewrite has_whitespace_toLowerCase.
  - apply toLowerCase_idem.
  - by rewrite HidFflag.
  - by rewrite HnameFflag.
  - exists items. split; [done|]. split.
    + rewrite !map_map. simpl. by rewrite <- Hnames, <- Hn.
    + apply forEach_add_item_size in Hloop. simpl in Hloop.
      rewrite map_size_empty in Hloop. rewrite Hloop.
      rewrite <- (plain_objects_all items Hplain) at 2.
      by rewrite length_map.
  - intros fd (f' & -> & Hf')%list_elem_of_fmap.
    apply list_elem_of_fmap in Hf' as (f & -> & Hf). simpl.
    rewrite HidFflag, HnameFflag.
    split; [done|]. split; [done|]. split; [by apply HmId|by apply HmName].
Qed.

(** X20: what is enough for the [pull] action to reach
    [api.createDataset]: the download validates, the dataset has a name,
    its ID holds no white space, the ID and Name fields of the options or
    of the catalog are among the discovered fields, and no record has an
    array or an object as its ID or its Name. *)
Theorem pull_reaches_the_request
    specifiedIdField specifiedNameField meta wizardState items idName nameName
    (Hcontent : jsonContent wizardState = ParsesTo (JArr items))
    (Hvalid : (validateAndProcessJson wizardState).2 = ReturnsTrue)
    (Hname : datasetName wizardState ≠ "")
    (Hspace : has_whitespace (datasetId wizardState) = false)
    (HidField : chosen specifiedIdField (idField meta) = Some idName)
    (HnameField : chosen specifiedNameField (nameField meta) = Some nameName)
    (HidIn : idName ∈ all_keys items)
    (HnameIn : nameName ∈ all_keys items)
    (Hprimitive : ∀ item, JObj item ∈ items →
                    is_primitive (Get item idName) = true
                    ∧ is_primitive (Get item nameName) = true) :
  ∃ saved,
    pull_process specifiedIdField specifiedNameField meta wizardState
    = ret saved
    ∧ arg_idField (request saved) = idName
    ∧ arg_nameField (request saved) = nameName.
Proof.
  unfold pull_process, validation_step.
  destruct (validateAndProcessJson wizardState) as [st' r] eqn:Hv.
  simpl in Hvalid. subst r. simpl.
  destruct (validate_true _ _ Hv) as (items' & d & Hc & _ & Hd & _ & ->).
  rewrite Hcontent in Hc. injection Hc as <-. simpl.
  rewrite (proj2 (is_empty_false _) Hname).
  pose proof (discovered_names _ _ _ Hd) as Hnames.
  destruct (discover_items_inr _ _ _ _ Hd) as (Hplain & _).
  assert (idName ∈ map name d) as HidIn'
    by (rewrite Hnames; by apply first_seen_elem).
  assert (nameName ∈ map name d) as HnameIn'
    by (rewrite Hnames; by apply first_seen_elem).
  assert (∃ fields1, resolve_id specifiedIdField (idField meta) d
                     = ret fields1) as [fields1 Hid].
  { unfold resolve_id, chosen in *.
    destruct (given specifiedIdField) as [s|].
    - injection HidField as ->. rewrite bool_decide_eq_true_2 by done. eauto.
    - rewrite HidField.
      destruct (list_find_name_is idName d HidIn') as (i & f & -> & _). eauto. }
  destruct (resolve_id_preserves _ _ _ _ Hid) as [Hnames1 _].
  assert (∃ resolved, resolve_name specifiedNameField (nameField meta) fields1
                      = ret resolved) as [resolved Hnm].
  { unfold resolve_name, chosen in *.
    destruct (given specifiedNameField) as [s|].
    - injection HnameField as ->.
      rewrite bool_decide_eq_true_2 by (by rewrite Hnames1). eauto.
    - rewrite HnameField.
      destruct (list_find_name_is nameName fields1) as (i & f & -> & _);
        [by rewrite Hnames1|]. eauto. }
  assert (pull_resolve specifiedIdField specifiedNameField meta d
          = ret resolved) as Hres
    by (unfold pull_resolve; rewrite Hid; exact Hnm).
  rewrite Hres. simpl. unfold check_datasetId. rewrite Hspace. simpl.
  destruct (pull_resolve_marks specifiedIdField specifiedNameField meta
              d resolved)
    as (idName' & nameName' & Hcid & Hcname & _ & _ & Hn & HmId & HmName).
  { rewrite Hnames. apply first_seen_NoDup. }
  { intros f Hf. destruct (discovered_flags _ _ _ _ Hd Hf) as (? & ? & _).
    done. }
  { exact Hres. }
  rewrite HidField in Hcid. injection Hcid as <-.
  rewrite HnameField in Hcname. injection Hcname as <-.
  destruct (marked_find isId idName resolved HmId)
    as (idF & HidF & HidFname); [by rewrite Hn|].
  destruct (marked_find isName nameName resolved HmName)
    as (nameF & HnameF & HnameFname); [by rewrite Hn|].
  unfold pull_save. simpl. rewrite HidF, HnameF, HidFname, HnameFname.
  simpl.
  destruct (proj1 (forEach_add_item_passable
                     (copy_all (map (set_isIncluded true) resolved))
                     idName nameName (plain_objects items) (∅, 0)))
    as [acc Hloop].
  { apply Forall_forall. intros item Hitem.
    destruct (Hprimitive item) as [HpId HpName].
    - rewrite <- (plain_objects_all items Hplain).
      apply list_elem_of_fmap. by exists item.
    - by apply primitive_passable. }
  rewrite Hloop. simpl. eauto.
Qed.

(** ** The wizard as a whole *)

Lemma toLowerCase_empty s : toLowerCase s = "" ↔ s = "".
Proof. by destruct s. Qed.

(** X21: the dataset ID prompt of the wizard and the dataset ID check of
    the [pull] action accept the same IDs, the empty one apart, which the
    prompt turns away and the [pull] action lets through.  Once the
    filter of the prompt has put an input in lower case, the validation
    never asks for lower case; an ID the prompt accepts is left as it is
    by the filter and by the [pull] action. *)
Theorem dataset_id_checks_agree input :
  (datasetId_validate input = Valid
   ↔ input ≠ "" ∧ has_whitespace input = false ∧ toLowerCase input = input)
  ∧ datasetId_validate (datasetId_filter input)
    ≠ Invalid "Dataset ID should be lowercase."
  ∧ (datasetId_validate (datasetId_filter input) = Valid
     ↔ input ≠ "" ∧ check_datasetId input = ret (datasetId_filter input))
  ∧ (datasetId_validate input = Valid →
     datasetId_filter input = input ∧ check_datasetId input = ret input)
  ∧ check_datasetId "" = ret "".
Proof.
  assert (datasetId_validate input = Valid
          ↔ input ≠ "" ∧ has_whitespace input = false
            ∧ toLowerCase input = input) as Hvalid.
  { unfold datasetId_validate.
    destruct (Str.is_empty input) eqn:Hempty.
    { split; [done|]. intros (Hne & _). apply is_empty_false in Hne.
      congruence. }
    apply is_empty_false in Hempty.
    destruct (has_whitespace input); [split; [done|by intros (_ & ? & _)]|].
    case_bool_decide as Hlow.
    - split; [done|]. intros (_ & _ & Heq). by destruct Hlow.
    - by split. }
  split; [done|]. split.
  { unfold datasetId_validate, datasetId_filter.
    destruct (Str.is_empty (toLowerCase input)); [done|].
    destruct (has_whitespace (toLowerCase input)); [done|].
    rewrite toLowerCase_idem. by rewrite bool_decide_eq_false_2 by (intros Hdiff; by apply Hdiff). }
  split.
  { unfold datasetId_validate, datasetId_filter, check_datasetId.
    rewrite has_whitespace_toLowerCase, toLowerCase_idem.
    destruct (Str.is_empty (toLowerCase input)) eqn:Hempty.
    { split; [done|]. intros [Hne _]. by destruct input. }
    apply is_empty_false in Hempty. rewrite toLowerCase_empty in Hempty.
    destruct (has_whitespace input); [split; [done|by intros [_ ?]]|].
    by rewrite bool_decide_eq_false_2 by (intros Hdiff; by apply Hdiff). }
  split; [|done].
  intros (Hne & Hspace & Hlow)%Hvalid.
  unfold datasetId_filter, check_datasetId. by rewrite Hspace, Hlow.
Qed.

Lemma maps_lookup {A B C} (g : A → B) (h : A → C) (l1 l2 : list A) y :
  map g l2 = map g l1 → map h l2 = map h l1 → y ∈ l2 →
  ∃ x, x ∈ l1 ∧ g x = g y ∧ h x = h y.
Proof.
  intros Hg Hh [j Hj]%list_elem_of_lookup.
  assert ((g <$> l1) !! j = Some (g y)) as Hgj.
  { change (g <$> l1) with (map g l1). rewrite <- Hg.
    change (map g l2) with (g <$> l2). by rewrite list_lookup_fmap, Hj. }
  assert ((h <$> l1) !! j = Some (h y)) as Hhj.
  { change (h <$> l1) with (map h l1). rewrite <- Hh.
    change (map h l2) with (h <$> l2). by rewrite list_lookup_fmap, Hj. }
  rewrite list_lookup_fmap in Hgj. rewrite list_lookup_fmap in Hhj.
  destruct (l1 !! j) as [x|] eqn:Hx; [|done].
  exists x. split; [by eapply list_elem_of_lookup_2|].
  split; [by injection Hgj|by injection Hhj].
Qed.

(** X22: what the wizard sends when it reaches [api.createDataset] after
    a run of the field menu.  The prompt was confirmed; the texts are the
    answers to the metadata prompts; the field definitions are discovered
    fields, in the order of discovery and each at most once, with the
    samples discovery collected; the ID field and the Name field of the
    request are among them, and no other definition is marked as ID or as
    Name; the entries and the skipped records together are the records of
    the file. *)
Theorem wizard_sends_what_was_configured
    configured answers confirm wizardState st' saved
    (Hvalid : validateAndProcessJson wizardState = (st', ReturnsTrue))
    (Hrun : Configures (fields st') configured)
    (Hsaved : wizard_process configured answers confirm wizardState
              = ret saved) :
  confirm = true
  ∧ arg_id (request saved) = answers.1.1
  ∧ arg_name (request saved) = answers.1.2
  ∧ arg_description (request saved) = answers.2
  ∧ map fd_Name (arg_fields (request saved))
      `sublist_of` map name (fields st')
  ∧ NoDup (map fd_Name (arg_fields (request saved)))
  ∧ arg_idField (request saved) ∈ map fd_Name (arg_fields (request saved))
  ∧ arg_nameField (request saved) ∈ map fd_Name (arg_fields (request saved))
  ∧ (∀ fd, fd ∈ arg_fields (request saved) →
       fd_IsIncluded fd = true
       ∧ (fd_IsId fd = true ↔ fd_Name fd = arg_idField (request saved))
       ∧ (fd_IsName fd = true ↔ fd_Name fd = arg_nameField (request saved))
       ∧ ∃ f, f ∈ fields st' ∧ name f = fd_Name fd
              ∧ sampleValues f = fd_SampleValues fd)
  ∧ size (arg_items (request saved)) + skippedItemsCount saved
    = itemCount st'.
Proof.
  unfold wizard_process, validation_step in Hsaved.
  rewrite Hvalid in Hsaved. simpl in Hsaved.
  destruct (validate_true _ _ Hvalid) as (items & d & Hc & _ & Hd & _ & ->).
  simpl in *.
  pose proof (discovered_names _ _ _ Hd) as Hnames.
  destruct (discover_items_inr _ _ _ _ Hd) as (Hplain & _).
  destruct (Configures_keeps d configured Hrun)
    as (Hn & Hs & Hcan & HoneId & HoneName).
  { left. apply existsb_false. intros f Hf.
    by destruct (discovered_flags _ _ _ _ Hd Hf) as (? & _). }
  { left. apply existsb_false. intros f Hf.
    by destruct (discovered_flags _ _ _ _ Hd Hf) as (_ & ? & _). }
  unfold canProceed in Hcan. apply andb_true_iff in Hcan as [HhasId HhasName].
  destruct HoneId as [HoneId|(idName & HidIn & HmId)]; [congruence|].
  destruct HoneName as [HoneName|(nameName & HnameIn & HmName)]; [congruence|].
  unfold confirmAndSave in Hsaved. simpl in Hsaved.
  destruct (find_field isId configured) as [idF|] eqn:HidF; [|done].
  destruct (find_field isName configured) as [nameF|] eqn:HnameF; [|done].
  destruct confirm; [|done]. simpl in Hsaved.
  destruct (forEach (plain_objects items) _ _) as [e|acc] eqn:Hloop; [done|].
  simpl in Hsaved.
  destruct (negb _ || negb _) eqn:Hguard; [done|].
  injection Hsaved as <-. simpl.
  apply orb_false_iff in Hguard as [HgId HgName].
  apply negb_false_iff, existsb_exists in HgId as (fdI & HfdI & HfdIid).
  apply negb_false_iff, existsb_exists in HgName as (fdN & HfdN & HfdNname).
  apply list_elem_of_In in HfdI, HfdN.
  destruct (find_field_Some _ _ _ HidF) as [HidFin HidFflag].
  destruct (find_field_Some _ _ _ HnameF) as [HnameFin HnameFflag].
  apply HmId in HidFflag; [|done]. apply HmName in HnameFflag; [|done].
  assert (map fd_Name (map final_field_wizard
                         (filter (λ f, isIncluded f = true) configured))
          = name <$> filter (λ f, isIncluded f = true) configured) as Hfd
    by (by rewrite map_map).
  assert ((name <$> filter (λ f, isIncluded f = true) configured)
            `sublist_of` map name d) as Hsub.
  { rewrite <- Hn. change (map name configured) with (name <$> configured).
    apply fmap_sublist, sublist_filter. }
  split_and!; try done.
  - by rewrite Hfd.
  - rewrite Hfd. eapply sublist_NoDup; [|exact Hsub].
    rewrite Hnames. apply first_seen_NoDup.
  - apply list_elem_of_fmap. exists fdI. split; [|done].
    apply list_elem_of_fmap in HfdI as (f & -> & Hf).
    apply list_elem_of_filter in Hf as [_ Hf]. simpl in *.
    rewrite HidFflag. symmetry. by apply HmId.
  - apply list_elem_of_fmap. exists fdN. split; [|done].
    apply list_elem_of_fmap in HfdN as (f & -> & Hf).
    apply list_elem_of_filter in Hf as [_ Hf]. simpl in *.
    rewrite HnameFflag. symmetry. by apply HmName.
  - intros fd (f & -> & Hf)%list_elem_of_fmap.
    apply list_elem_of_filter in Hf as [Hinc Hf]. simpl.
    rewrite HidFflag, HnameFflag.
    split; [done|]. split; [by apply HmId|]. split; [by apply HmName|].
    destruct (maps_lookup name sampleValues d configured f Hn Hs Hf)
      as (f0 & Hf0 & Hname0 & Hsamples0).
    by exists f0.
  - apply forEach_add_item_size in Hloop. simpl in Hloop.
    rewrite map_size_empty in Hloop. rewrite Hloop.
    rewrite <- (plain_objects_all items Hplain) at 2.
    by rewrite length_map.
Qed.

(** ** The two save steps *)

Lemma set_isId_false (f : Field) : isId f = false → set_isId false f = f.
Proof. destruct f. simpl. by intros ->. Qed.

Lemma set_isName_false (f : Field) : isName f = false → set_isName false f = f.
Proof. destruct f. simpl. by intros ->. Qed.

(** On fields with distinct names none of which is marked, what the
    [pull] action does to resolve the ID field is what the choice
    [Set ID Field] of the menu does. *)
Lemma resolve_id_is_set_id specified hint (discovered resolved : list Field) :
  NoDup (map name discovered) →
  (∀ f, f ∈ discovered → isId f = false) →
  resolve_id specified hint discovered = ret resolved →
  ∃ idName, idName ∈ map name discovered
            ∧ resolved = action_set_id idName discovered.
Proof.
  intros Hnodup Hunmarked. unfold resolve_id.
  destruct (given specified) as [s|].
  { case_bool_decide; [|done]. intros [= <-]. by exists s. }
  destruct (list_find _ discovered) as [[i f]|] eqn:Hfind; [|done].
  intros [= <-]. apply list_find_Some in Hfind as (Hi & _ & _).
  exists (name f). split.
  { apply list_elem_of_fmap. exists f. split; [done|].
    by eapply list_elem_of_lookup_2. }
  apply list_eq. intros j. unfold action_set_id.
  change (map ?g discovered) with (g <$> discovered).
  rewrite list_lookup_fmap.
  destruct (decide (i = j)) as [<-|Hne].
  - rewrite list_lookup_insert_eq by (by eapply lookup_lt_Some).
    rewrite Hi. simpl. by rewrite bool_decide_eq_true_2.
  - rewrite list_lookup_insert_ne by done.
    destruct (discovered !! j) as [g|] eqn:Hg; [|done]. simpl. f_equal.
    rewrite bool_decide_eq_false_2.
    + symmetry. apply set_isId_false, Hunmarked.
      by eapply list_elem_of_lookup_2.
    + intros Heq. destruct Hne. by eapply NoDup_names_lookup.
Qed.

Lemma resolve_name_is_set_name specified hint
    (discovered resolved : list Field) :
  NoDup (map name discovered) →
  (∀ f, f ∈ discovered → isName f = false) →
  resolve_name specified hint discovered = ret resolved →
  ∃ nameName, nameName ∈ map name discovered
              ∧ resolved = action_set_name nameName discovered.
Proof.
  intros Hnodup Hunmarked. unfold resolve_name.
  destruct (given specified) as [s|].
  { case_bool_decide; [|done]. intros [= <-]. by exists s. }
  destruct (list_find _ discovered) as [[i f]|] eqn:Hfind; [|done].
  intros [= <-]. apply list_find_Some in Hfind as (Hi & _ & _).
  exists (name f). split.
  { apply list_elem_of_fmap. exists f. split; [done|].
    by eapply list_elem_of_lookup_2. }
  apply list_eq. intros j. unfold action_set_name.
  change (map ?g discovered) with (g <$> discovered).
  rewrite list_lookup_fmap.
  destruct (decide (i = j)) as [<-|Hne].
  - rewrite list_lookup_insert_eq by (by eapply lookup_lt_Some).
    rewrite Hi. simpl. by rewrite bool_decide_eq_true_2.
  - rewrite list_lookup_insert_ne by done.
    destruct (discovered !! j) as [g|] eqn:Hg; [|done]. simpl. f_equal.
    rewrite bool_decide_eq_false_2.
    + symmetry. apply set_isName_false, Hunmarked.
      by eapply list_elem_of_lookup_2.
    + intros Heq. destruct Hne. by eapply NoDup_names_lookup.
Qed.

Lemma flag_transfer (flag : Field → bool) b (l1 l2 : list Field) :
  map flag l2 = map flag l1 →
  (∀ f, f ∈ l1 → flag f = b) → ∀ f, f ∈ l2 → flag f = b.
Proof.
  intros Hflags Hall f Hf.
  destruct (maps_lookup flag flag l1 l2 f Hflags Hflags Hf)
    as (f0 & Hf0 & <- & _).
  by apply Hall.
Qed.

(** The fields the [pull] action hands to its save step are fields the
    menu of the wizard can be left with: those discovered, with
    [Set ID Field] and [Set Name Field] chosen once each. *)
Lemma pull_resolve_is_a_menu_run specifiedIdField specifiedNameField meta
    (discovered resolved : list Field) :
  NoDup (map name discovered) →
  (∀ f, f ∈ discovered →
     isId f = false ∧ isName f = false ∧ isIncluded f = true) →
  pull_resolve specifiedIdField specifiedNameField meta discovered
  = ret resolved →
  Configures discovered resolved
  ∧ Forall (λ f, isIncluded f = true) resolved
  ∧ is_Some (find_field isId resolved)
  ∧ is_Some (find_field isName resolved).
Proof.
  intros Hnodup Hfresh Hresolved.
  destruct (pull_resolve_marks _ _ _ _ _ Hnodup
              (λ f Hf, conj (proj1 (Hfresh f Hf))
                            (proj1 (proj2 (Hfresh f Hf)))) Hresolved)
    as (idName' & nameName' & _ & _ & HidIn' & HnameIn' & Hn & HmId & HmName).
  unfold pull_resolve in Hresolved.
  destruct (resolve_id _ _ discovered) as [e|fields1] eqn:Hid; [done|].
  simpl in Hresolved.
  destruct (resolve_id_is_set_id _ _ _ _ Hnodup
              (λ f Hf, proj1 (Hfresh f Hf)) Hid) as (idName & HidIn & ->).
  destruct (action_set_id_keeps idName discovered)
    as (Hn1 & _ & _ & HisName1 & Hinc1 & _).
  destruct (resolve_name_is_set_name _ _ _ _
              ltac:(by rewrite Hn1)
              (flag_transfer isName false discovered _ HisName1
                 (λ f Hf, proj1 (proj2 (Hfresh f Hf)))) Hresolved)
    as (nameName & HnameIn & ->).
  destruct (action_set_name_keeps nameName (action_set_id idName discovered))
    as (Hn2 & _ & _ & _ & Hinc2 & _).
  split.
  { apply (Configures_action (Set_id idName)); [done|].
    apply (Configures_action (Set_name nameName)); [done|].
    apply Configures_proceed. unfold canProceed. simpl.
    rewrite (marked_existsb isId idName'), (marked_existsb isName nameName');
      try done; by rewrite Hn. }
  split.
  { apply Forall_forall.
    apply (flag_transfer isIncluded true discovered); [congruence|].
    intros f Hf. by apply Hfresh. }
  split.
  - destruct (marked_find isId idName' _ HmId) as (f & -> & _);
      [by rewrite Hn|done].
  - destruct (marked_find isName nameName' _ HmName) as (f & -> & _);
      [by rewrite Hn|done].
Qed.

(** C1: on every input that both call sites receive, the save step of the
    [pull] action and [confirmAndSave], once confirmed, do the same.  The
    fields the [pull] action holds at its save step are the discovered
    fields after its resolution of the ID and the Name field; the menu of
    the wizard can be left with the same fields.  On a state with these
    fields, whatever its records and its texts, both call sites end in the
    same way: they build the same items payload, count the same number of
    skipped records and hand the same field definitions, ID field and Name
    field to [api.createDataset], or they throw the same exception. *)
Theorem save_steps_agree_on_pull_states
    specifiedIdField specifiedNameField meta (st st' : WizardState Json)
    (state : WizardState PlainObject)
    (Hvalid : validateAndProcessJson st = (st', ReturnsTrue))
    (Hresolved : pull_resolve specifiedIdField specifiedNameField meta
                   (fields st') = ret (fields state)) :
  Configures (fields st') (fields state)
  ∧ pull_save state = confirmAndSave true state
  ∧ ∀ pulled saved,
      pull_save state = ret pulled → confirmAndSave true state = ret saved →
      arg_items (request pulled) = arg_items (request saved)
      ∧ skippedItemsCount pulled = skippedItemsCount saved
      ∧ arg_fields (request pulled) = arg_fields (request saved)
      ∧ arg_idField (request pulled) = arg_idField (request saved)
      ∧ arg_nameField (request pulled) = arg_nameField (request saved).
Proof.
  destruct (validate_true _ _ Hvalid) as (items & d & _ & _ & Hd & _ & ->).
  simpl in *.
  destruct (pull_resolve_is_a_menu_run _ _ _ _ _
              ltac:(rewrite (discovered_names _ _ _ Hd);
                    apply first_seen_NoDup)
              (λ f Hf, discovered_flags _ _ _ _ Hd Hf) Hresolved)
    as (Hrun & Hall & HisId & HisName).
  destruct (save_steps_agree_all_included state Hall HisId HisName)
    as [Heq _].
  split; [done|]. split; [done|].
  intros pulled saved Hp Hs. rewrite Heq, Hs in Hp. by injection Hp as <-.
Qed.

End Properties.

(** * The embedding at work *)

Section Reference.

#[local] Existing Instance reference_engine.

Lemma scenario_discovery :
  validateAndProcessJson scenario_state = (scenario_discovered, ReturnsTrue)
  ∧ parsedJson scenario_discovered = Some (map JObj scenario_records).
Proof. split; vm_compute; reflexivity. Qed.

(** On the scenario both call sites build the one entry [us] and skip two
    records. *)
Lemma end_to_end_scenario :
  let items : gmap string DatasetItem :=
    {[ "us" := {| item_Id := "us"; item_Name := "United States";
                  item_Data := {[ "id" := JStr "us";
                                  "name" := JStr "United States";
                                  "pop" := JNum 331%Z ]};
                  item_IsArchived := false |} ]} in
  (∃ saved, confirmAndSave true scenario_configured = ret saved
            ∧ arg_items (request saved) = items
            ∧ skippedItemsCount saved = 2)
  ∧ (∃ pulled, pull_save scenario_configured = ret pulled
               ∧ arg_items (request pulled) = items
               ∧ skippedItemsCount pulled = 2).
Proof.
  split; eexists; (split; [reflexivity|split; [|reflexivity]]);
    vm_compute; reflexivity.
Qed.

(** ** Instances of the theorems *)

Lemma sampleValues_of_discovered_fields_witness :
  validateAndProcessJson scenario_state = (scenario_discovered, ReturnsTrue)
  ∧ ∃ items, jsonContent scenario_state = ParsesTo (JArr items) ∧
      ∀ f, f ∈ fields scenario_discovered →
        length (sampleValues f) ≤ 3
        ∧ NoDup (sampleValues f)
        ∧ (∀ s, s ∈ sampleValues f →
             s ≠ "" ∧ ∃ v, v ∈ sightings (name f) items
                           ∧ v ≠ VUndefined ∧ getSampleValue v = Some s)
        ∧ sampleValues f
          = take 3 (first_seen (projections (sightings (name f) items))).
Proof.
  assert (validateAndProcessJson scenario_state
          = (scenario_discovered, ReturnsTrue)) as Htrue
    by (vm_compute; reflexivity).
  split; [exact Htrue|].
  exact (proj1 (sampleValues_of_discovered_fields _ _ Htrue)).
Defined.

Lemma dataType_of_discovered_fields_witness :
  validateAndProcessJson mixed_state = (mixed_discovered, ReturnsTrue)
  ∧ map dataType (fields mixed_discovered) = [Number; Date]
  ∧ ∃ items, jsonContent mixed_state = ParsesTo (JArr items) ∧
      ∀ f, f ∈ fields mixed_discovered →
        dataType f
        = first_concrete (map determineDataType (sightings (name f) items)).
Proof.
  assert (validateAndProcessJson mixed_state
          = (mixed_discovered, ReturnsTrue)) as Htrue
    by (vm_compute; reflexivity).
  split; [exact Htrue|]. split; [reflexivity|].
  exact (proj2 (proj2 (dataType_of_discovered_fields _ _ Htrue))).
Defined.

Lemma discovery_one_field_per_key_witness :
  map JObj scenario_records ≠ []
  ∧ Forall (λ item, plain_object item = true) (map JObj scenario_records)
  ∧ all_keys (map JObj scenario_records) ≠ []
  ∧ ∃ st',
      validateAndProcessJson scenario_state = (st', ReturnsTrue)
      ∧ map name (fields st') = first_seen (all_keys (map JObj scenario_records))
      ∧ NoDup (map name (fields st'))
      ∧ ∀ key, key ∈ map name (fields st')
               ↔ key ∈ all_keys (map JObj scenario_records).
Proof.
  assert (map JObj scenario_records ≠ []) as Hnonempty by discriminate.
  assert (Forall (λ item, plain_object item = true) (map JObj scenario_records))
    as Hplain by (repeat constructor).
  assert (all_keys (map JObj scenario_records) ≠ []) as Hkeys by discriminate.
  split; [exact Hnonempty|]. split; [exact Hplain|]. split; [exact Hkeys|].
  exact (discovery_one_field_per_key new_wizardState _ Hnonempty Hplain Hkeys).
Defined.

(** The array [[{}, null]]: the call throws, and so does its caller. *)
Lemma validation_of_an_invalid_array :
  let state : WizardState Json :=
    set_jsonContent (ParsesTo (JArr [JObj []; JNull])) new_wizardState in
  invalid_input (JArr [JObj []; JNull])
  ∧ (validateAndProcessJson state).2 = Throws ReferenceError
  ∧ validation_step state = throw ReferenceError
  ∧ pull_process None None catalog_meta state = throw ReferenceError
  ∧ wizard_process [] ("", "", "") true state = throw ReferenceError.
Proof.
  split; [|by repeat split].
  right. left. apply Exists_cons_tl, Exists_cons_hd. reflexivity.
Qed.

Lemma id_and_name_resolution_witness :
  ("missing" ≠ ""
   ∧ ("missing" ∉ map name code_title)
   ∧ FieldNotFoundError "ID" "missing" (map name code_title)
     = Error "Specified ID field 'missing' not found in dataset. Available fields: code, title"
   ∧ resolve_id (Some "missing") None code_title
     = throw (Error "Specified ID field 'missing' not found in dataset. Available fields: code, title")
   ∧ resolve_name (Some "missing") None code_title
     = throw (Error "Specified Name field 'missing' not found in dataset. Available fields: code, title"))
  ∧ ("code" ≠ ""
     ∧ "code" ∈ map name code_title
     ∧ ∃ fields',
         resolve_id (Some "code") None code_title = ret fields'
         ∧ map name fields' = map name code_title
         ∧ (∃ f, f ∈ fields' ∧ name f = "code")
         ∧ ∀ f, f ∈ fields' →
             isId f = if decide (name f = "code") then true else false)
  ∧ ((∀ f, f ∈ code_title → Some (name f) ≠ Some "id")
     ∧ resolve_id (Some "") (Some "id") code_title = throw ResolutionError_id).
Proof.
  assert ("missing" ≠ "") as Hmissing by discriminate.
  assert ("code" ≠ "") as Hcode by discriminate.
  assert ("missing" ∉ map name code_title) as Hnot.
  { intros Hin. repeat (apply elem_of_cons in Hin as [Hin|Hin];
                        [discriminate|]). by apply elem_of_nil in Hin. }
  assert ("code" ∈ map name code_title) as Hin
    by (apply elem_of_cons; by left).
  assert (∀ f, f ∈ code_title → Some (name f) ≠ Some "id") as Hhint.
  { intros f Hf. repeat (apply elem_of_cons in Hf as [->|Hf];
                         [discriminate|]). by apply elem_of_nil in Hf. }
  split; [|split].
  - split; [exact Hmissing|]. split; [exact Hnot|]. split; [reflexivity|].
    split.
    + exact (proj1 (id_and_name_resolution (Some "missing") None code_title)
               "missing" eq_refl Hmissing Hnot).
    + exact (proj1 (proj2 (proj2 (proj2
               (id_and_name_resolution (Some "missing") None code_title))))
               "missing" eq_refl Hmissing Hnot).
  - split; [exact Hcode|]. split; [exact Hin|].
    exact (proj1 (proj2 (id_and_name_resolution (Some "code") None code_title))
             "code" eq_refl Hcode Hin).
  - split; [exact Hhint|].
    exact (proj1 (proj2 (proj2
             (id_and_name_resolution (Some "") (Some "id") code_title)))
             (or_intror eq_refl) Hhint).
Defined.

(** The scenario, pulled with the option [--id-field id] and the hints of the catalog. *)
Lemma save_steps_agree_on_pull_states_witness :
  (validateAndProcessJson scenario_state = (scenario_discovered, ReturnsTrue))
  ∧
  (pull_resolve (Some "id") None catalog_meta
   (fields scenario_discovered) = ret (fields scenario_configured))
  ∧
  (Configures (fields scenario_discovered) (fields scenario_configured)
   ∧ pull_save scenario_configured = confirmAndSave true scenario_configured
   ∧ ∀ pulled saved,
       pull_save scenario_configured = ret pulled → confirmAndSave true scenario_configured = ret saved →
       arg_items (request pulled) = arg_items (request saved)
       ∧ skippedItemsCount pulled = skippedItemsCount saved
       ∧ arg_fields (request pulled) = arg_fields (request saved)
       ∧ arg_idField (request pulled) = arg_idField (request saved)
       ∧ arg_nameField (request pulled) = arg_nameField (request saved)).
Proof.
  assert (validateAndProcessJson scenario_state = (scenario_discovered, ReturnsTrue))
    as Hvalid
    by (vm_compute; reflexivity).
  assert (pull_resolve (Some "id") None catalog_meta
          (fields scenario_discovered) = ret (fields scenario_configured))
    as Hresolved
    by (vm_compute; reflexivity).
  split; [exact Hvalid|].
  split; [exact Hresolved|].
  exact (save_steps_agree_on_pull_states
           (Some "id")
           None
           catalog_meta
           scenario_state
           scenario_discovered
           scenario_configured
           Hvalid Hresolved).
Defined.

Lemma inherited_id_skipped_as_duplicate_witness :
  (is_nullish (Get constructor_record "id")
   || is_nullish (Get constructor_record "name") = false)
  ∧ ToString (Get constructor_record "id") = ret "constructor"
  ∧ ToString (Get constructor_record "name") = ret "x"
  ∧ inherited "constructor" = true
  ∧ (∅ : gmap string DatasetItem) !! "constructor" = None
  ∧ payload_truthy ∅ "constructor" = true
  ∧ add_item (copy_included []) "id" "name" (∅, 0) constructor_record
    = ret (∅, 1).
Proof.
  split; [reflexivity|]. split; [reflexivity|]. split; [reflexivity|].
  split; [reflexivity|]. split; [reflexivity|].
  pose proof (inherited_id_skipped_as_duplicate (copy_included []) "id" "name"
                constructor_record "constructor" "x" ∅ 0
                eq_refl eq_refl eq_refl eq_refl eq_refl) as (Ht & Hadd & _).
  split; [exact Ht|exact Hadd].
Defined.

Lemma construction_conserves_records_witness :
  Forall (passable "id" "name") scenario_records
  ∧ ∃ itemsPayload skipped,
      build_items (copy_included (fields scenario_configured)) "id" "name"
        (Some scenario_records) = ret (itemsPayload, skipped)
      ∧ size itemsPayload + skipped = length scenario_records.
Proof.
  assert (Forall (passable "id" "name") scenario_records) as Hpass.
  { repeat first
      [ apply Forall_nil_2
      | apply Forall_cons_2; [right; split; eexists; reflexivity|] ]. }
  split; [exact Hpass|].
  exact (proj1 (construction_conserves_records _ "id" "name" _ Hpass)).
Defined.

(** ** Instances of the further properties *)

(** The fields discovered on the scenario. *)
Lemma discovered_fields_unmarked_witness :
  (validateAndProcessJson scenario_state = (scenario_discovered, ReturnsTrue))
  ∧
  (fields scenario_discovered ≠ []
   ∧ NoDup (map name (fields scenario_discovered))
   ∧ (∀ f, f ∈ fields scenario_discovered →
        isId f = false ∧ isName f = false ∧ isIncluded f = true)
   ∧ canProceed (fields scenario_discovered) = false).
Proof.
  assert (validateAndProcessJson scenario_state = (scenario_discovered, ReturnsTrue))
    as Htrue
    by (vm_compute; reflexivity).
  split; [exact Htrue|].
  exact (discovered_fields_unmarked scenario_state scenario_discovered Htrue).
Defined.

(** The state after discovery on the scenario. *)
Lemma validated_state_witness :
  (validateAndProcessJson scenario_state = (scenario_discovered, ReturnsTrue))
  ∧
  (∃ records,
     records ≠ []
     ∧ jsonContent scenario_state = ParsesTo (JArr (map JObj records))
     ∧ parsedJson scenario_discovered = Some (map JObj records)
     ∧ plain_objects <$> parsedJson scenario_discovered = Some records
     ∧ itemCount scenario_discovered = length records
     ∧ jsonContent scenario_discovered = jsonContent scenario_state
     ∧ datasetId scenario_discovered = datasetId scenario_state
     ∧ datasetName scenario_discovered = datasetName scenario_state
     ∧ datasetDescription scenario_discovered = datasetDescription scenario_state).
Proof.
  assert (validateAndProcessJson scenario_state = (scenario_discovered, ReturnsTrue))
    as Htrue
    by (vm_compute; reflexivity).
  split; [exact Htrue|].
  exact (validated_state scenario_state scenario_discovered Htrue).
Defined.

(** The array [[{}, null]]. *)
Lemma invalid_item_throws_after_the_array_is_stored_witness :
  (Exists (λ item, plain_object item = false) [JObj []; JNull])
  ∧
  (let state := set_jsonContent (ParsesTo (JArr [JObj []; JNull])) (new_wizardState : WizardState Json) in
   validateAndProcessJson state = (set_parsed [JObj []; JNull] state, Throws ReferenceError)
   ∧ parsedJson (validateAndProcessJson state).1 = Some [JObj []; JNull]
   ∧ itemCount (validateAndProcessJson state).1 = length [JObj []; JNull]
   ∧ fields (validateAndProcessJson state).1 = fields (new_wizardState : WizardState Json)
   ∧ validation_step state = throw ReferenceError).
Proof.
  assert (Exists (λ item, plain_object item = false) [JObj []; JNull])
    as Hinvalid
    by (apply Exists_cons_tl, Exists_cons_hd; reflexivity).
  split; [exact Hinvalid|].
  exact (invalid_item_throws_after_the_array_is_stored
           (new_wizardState : WizardState Json)
           [JObj []; JNull]
           Hinvalid).
Defined.

(** The scenario as its first record followed by the two others. *)
Lemma more_records_extend_the_fields_witness :
  (validateAndProcessJson (set_jsonContent (ParsesTo (JArr scenario_first)) new_wizardState)
   = (first_discovered, ReturnsTrue))
  ∧
  (validateAndProcessJson
   (set_jsonContent (ParsesTo (JArr (scenario_first ++ scenario_rest))) new_wizardState)
   = (scenario_discovered, ReturnsTrue))
  ∧
  (map name (fields first_discovered) `prefix_of` map name (fields scenario_discovered)
   ∧ ∀ f, f ∈ fields first_discovered →
       ∃ f', f' ∈ fields scenario_discovered ∧ name f' = name f
             ∧ (dataType f ≠ Unknown → dataType f' = dataType f)
             ∧ sampleValues f `prefix_of` sampleValues f'
             ∧ (length (sampleValues f) = 3 → sampleValues f' = sampleValues f)).
Proof.
  assert (validateAndProcessJson (set_jsonContent (ParsesTo (JArr scenario_first)) new_wizardState)
          = (first_discovered, ReturnsTrue))
    as H1
    by (vm_compute; reflexivity).
  assert (validateAndProcessJson
          (set_jsonContent (ParsesTo (JArr (scenario_first ++ scenario_rest))) new_wizardState)
          = (scenario_discovered, ReturnsTrue))
    as H2
    by (vm_compute; reflexivity).
  split; [exact H1|].
  split; [exact H2|].
  exact (more_records_extend_the_fields
           new_wizardState
           scenario_first
           scenario_rest
           first_discovered
           scenario_discovered
           H1 H2).
Defined.

(** The sample of the field [id] of the scenario. *)
Lemma samples_are_short_witness :
  (validateAndProcessJson scenario_state = (scenario_discovered, ReturnsTrue))
  ∧
  (scenario_id_field ∈ fields scenario_discovered)
  ∧
  ("us" ∈ sampleValues scenario_id_field)
  ∧
  (String.length "us" ≤ 30
   ∨ ∃ items n, jsonContent scenario_state = ParsesTo (JArr items)
                ∧ VJson (JNum n) ∈ sightings (name scenario_id_field) items
                ∧ "us" = Number_toString n).
Proof.
  assert (validateAndProcessJson scenario_state = (scenario_discovered, ReturnsTrue))
    as Htrue
    by (vm_compute; reflexivity).
  assert (scenario_id_field ∈ fields scenario_discovered)
    as Hf
    by (apply list_elem_of_In; left; reflexivity).
  assert ("us" ∈ sampleValues scenario_id_field)
    as Ht
    by (apply (bool_decide_unpack _); vm_compute; exact I).
  split; [exact Htrue|].
  split; [exact Hf|].
  split; [exact Ht|].
  exact (samples_are_short
           scenario_state
           scenario_discovered
           scenario_id_field
           "us"
           Htrue Hf Ht).
Defined.

(** The hint [id] on the fields of the scenario. *)
Lemma auto_selection_marks_the_hinted_field_witness :
  (given None = None)
  ∧
  ("id" ∈ map name (fields scenario_discovered))
  ∧
  (∃ i f,
     (fields scenario_discovered) !! i = Some f ∧ name f = "id"
     ∧ (∀ j g, j < i → (fields scenario_discovered) !! j = Some g → name g ≠ "id")
     ∧ resolve_id None (Some "id") (fields scenario_discovered)
       = ret (<[i := set_isId true f]> (fields scenario_discovered))
     ∧ resolve_name None (Some "id") (fields scenario_discovered)
       = ret (<[i := set_isName true f]> (fields scenario_discovered))
     ∧ (∀ j, j ≠ i →
          (<[i := set_isId true f]> (fields scenario_discovered)) !! j = (fields scenario_discovered) !! j
          ∧ (<[i := set_isName true f]> (fields scenario_discovered)) !! j = (fields scenario_discovered) !! j)
     ∧ (NoDup (map name (fields scenario_discovered)) →
        ((∀ g, g ∈ (fields scenario_discovered) → isId g = false) →
         marked isId "id" (<[i := set_isId true f]> (fields scenario_discovered)))
        ∧ ((∀ g, g ∈ (fields scenario_discovered) → isName g = false) →
           marked isName "id" (<[i := set_isName true f]> (fields scenario_discovered))))).
Proof.
  assert (given None = None)
    as Hnone
    by (reflexivity).
  assert ("id" ∈ map name (fields scenario_discovered))
    as Hin
    by (apply (bool_decide_unpack _); vm_compute; exact I).
  split; [exact Hnone|].
  split; [exact Hin|].
  exact (auto_selection_marks_the_hinted_field
           None
           "id"
           (fields scenario_discovered)
           Hnone Hin).
Defined.

(** The scenario pulled with the option [--id-field id] and the hints of the catalog. *)
Lemma resolved_fields_reach_the_request_witness :
  (NoDup (map name (fields scenario_discovered)))
  ∧
  (∀ f, f ∈ (fields scenario_discovered) → isId f = false ∧ isName f = false)
  ∧
  (pull_resolve (Some "id") None catalog_meta (fields scenario_discovered)
   = ret (fields scenario_configured))
  ∧
  (∃ idName nameName,
     chosen (Some "id") (idField catalog_meta) = Some idName
     ∧ chosen None (nameField catalog_meta) = Some nameName
     ∧ map name (fields scenario_configured) = map name (fields scenario_discovered)
     ∧ marked isId idName (fields scenario_configured) ∧ marked isName nameName (fields scenario_configured)
     ∧ canProceed (fields scenario_configured) = true
     ∧ ∀ wizardState, fields wizardState = (fields scenario_configured) →
         (∀ acc,
            build_items (copy_all (map (set_isIncluded true) (fields scenario_configured)))
              idName nameName (parsedJson wizardState) = ret acc →
            ∃ saved, pull_save wizardState = ret saved
                     ∧ arg_items (request saved) = acc.1
                     ∧ skippedItemsCount saved = acc.2)
         ∧ ∀ saved, pull_save wizardState = ret saved →
             arg_idField (request saved) = idName
             ∧ arg_nameField (request saved) = nameName
             ∧ map fd_Name (arg_fields (request saved)) = map name (fields scenario_discovered)).
Proof.
  assert (NoDup (map name (fields scenario_discovered)))
    as Hnodup
    by (apply (bool_decide_unpack _); vm_compute; exact I).
  assert (∀ f, f ∈ (fields scenario_discovered) → isId f = false ∧ isName f = false)
    as Hunmarked
    by (apply (proj1 (Forall_forall _ _)); vm_compute; repeat constructor).
  assert (pull_resolve (Some "id") None catalog_meta (fields scenario_discovered)
          = ret (fields scenario_configured))
    as Hresolved
    by (vm_compute; reflexivity).
  split; [exact Hnodup|].
  split; [exact Hunmarked|].
  split; [exact Hresolved|].
  exact (resolved_fields_reach_the_request
           (Some "id")
           None
           catalog_meta
           (fields scenario_discovered)
           (fields scenario_configured)
           Hnodup Hunmarked Hresolved).
Defined.

(** The entry [us] of the scenario. *)
Lemma payload_entry_is_of_the_first_record_witness :
  (build_items (copy_included (fields scenario_configured)) "id" "name" (Some scenario_records) = ret ((scenario_payload, 2)))
  ∧
  (((scenario_payload, 2)).1 !! "us" = Some scenario_entry)
  ∧
  ("us" ≠ "" ∧ inherited "us" = false ∧ item_Id scenario_entry = "us"
   ∧ item_IsArchived scenario_entry = false
   ∧ ∃ i item,
       scenario_records !! i = Some item
       ∧ entry_of (copy_included (fields scenario_configured)) "id" "name" item scenario_entry
       ∧ ∀ j item', j < i → scenario_records !! j = Some item' →
           ¬ candidate "id" "name" "us" item').
Proof.
  assert (build_items (copy_included (fields scenario_configured)) "id" "name" (Some scenario_records) = ret ((scenario_payload, 2)))
    as Hbuilt
    by (vm_compute; reflexivity).
  assert (((scenario_payload, 2)).1 !! "us" = Some scenario_entry)
    as Hentry
    by (vm_compute; reflexivity).
  split; [exact Hbuilt|].
  split; [exact Hentry|].
  exact (payload_entry_is_of_the_first_record
           (copy_included (fields scenario_configured))
           "id"
           "name"
           scenario_records
           ((scenario_payload, 2))
           "us"
           scenario_entry
           Hbuilt Hentry).
Defined.

(** The key [us] of the scenario. *)
Lemma payload_keys_witness :
  (build_items (copy_included (fields scenario_configured)) "id" "name" (Some scenario_records) = ret ((scenario_payload, 2)))
  ∧
  (is_Some (((scenario_payload, 2)).1 !! "us")
   ↔ "us" ≠ "" ∧ inherited "us" = false
     ∧ ∃ item, item ∈ scenario_records ∧ candidate "id" "name" "us" item).
Proof.
  assert (build_items (copy_included (fields scenario_configured)) "id" "name" (Some scenario_records) = ret ((scenario_payload, 2)))
    as Hbuilt
    by (vm_compute; reflexivity).
  split; [exact Hbuilt|].
  exact (payload_keys
           (copy_included (fields scenario_configured))
           "id"
           "name"
           scenario_records
           ((scenario_payload, 2))
           "us"
           Hbuilt).
Defined.

(** The entry [us] of the scenario when the field [pop] is excluded. *)
Lemma wizard_entries_hold_the_included_fields_witness :
  (NoDup (map name (fields scenario_without_pop)))
  ∧
  (confirmAndSave true scenario_without_pop = ret (returned (confirmAndSave true scenario_without_pop)))
  ∧
  (arg_items (request (returned (confirmAndSave true scenario_without_pop))) !! "us" = Some scenario_entry_without_pop)
  ∧
  (∃ records item,
     parsedJson scenario_without_pop = Some records ∧ item ∈ records
     ∧ ToString (Get item (arg_idField (request (returned (confirmAndSave true scenario_without_pop))))) = ret "us"
     ∧ ∀ key,
         item_Data scenario_entry_without_pop !! key
         = if decide (key = "__proto__") then None
           else if sends (fields scenario_without_pop) key then own_get item key else None).
Proof.
  assert (NoDup (map name (fields scenario_without_pop)))
    as Hnodup
    by (apply (bool_decide_unpack _); vm_compute; exact I).
  assert (confirmAndSave true scenario_without_pop = ret (returned (confirmAndSave true scenario_without_pop)))
    as Hsaved
    by (vm_compute; reflexivity).
  assert (arg_items (request (returned (confirmAndSave true scenario_without_pop))) !! "us" = Some scenario_entry_without_pop)
    as Hentry
    by (vm_compute; reflexivity).
  split; [exact Hnodup|].
  split; [exact Hsaved|].
  split; [exact Hentry|].
  exact (wizard_entries_hold_the_included_fields
           true
           scenario_without_pop
           (returned (confirmAndSave true scenario_without_pop))
           "us"
           scenario_entry_without_pop
           Hnodup Hsaved Hentry).
Defined.

(** The entry [us] of the scenario when it is pulled. *)
Lemma pull_uploads_each_record_in_full_witness :
  (pull_process (Some "id") None catalog_meta
   pull_state = ret (returned (pull_process (Some "id") None catalog_meta pull_state)))
  ∧
  (arg_items (request (returned (pull_process (Some "id") None catalog_meta pull_state))) !! "us" = Some scenario_entry)
  ∧
  (∃ items item,
     jsonContent pull_state = ParsesTo (JArr items) ∧ JObj item ∈ items
     ∧ ToString (Get item (arg_idField (request (returned (pull_process (Some "id") None catalog_meta pull_state))))) = ret "us"
     ∧ ∀ key,
         item_Data scenario_entry !! key
         = if decide (key = "__proto__") then None else own_get item key).
Proof.
  assert (pull_process (Some "id") None catalog_meta
          pull_state = ret (returned (pull_process (Some "id") None catalog_meta pull_state)))
    as Hsaved
    by (vm_compute; reflexivity).
  assert (arg_items (request (returned (pull_process (Some "id") None catalog_meta pull_state))) !! "us" = Some scenario_entry)
    as Hentry
    by (vm_compute; reflexivity).
  split; [exact Hsaved|].
  split; [exact Hentry|].
  exact (pull_uploads_each_record_in_full
           (Some "id")
           None
           catalog_meta
           pull_state
           (returned (pull_process (Some "id") None catalog_meta pull_state))
           "us"
           scenario_entry
           Hsaved Hentry).
Defined.

(** The run of the menu that marks [id] and [name] on the scenario. *)
Lemma configuration_marks_one_name_each_witness :
  (Configures (fields scenario_discovered) (fields scenario_configured))
  ∧
  (∀ f, f ∈ (fields scenario_discovered) → isId f = false ∧ isName f = false)
  ∧
  (map name (fields scenario_configured) = map name (fields scenario_discovered)
   ∧ map sampleValues (fields scenario_configured) = map sampleValues (fields scenario_discovered)
   ∧ ∃ idName nameName,
       idName ∈ map name (fields scenario_discovered) ∧ nameName ∈ map name (fields scenario_discovered)
       ∧ marked isId idName (fields scenario_configured) ∧ marked isName nameName (fields scenario_configured)).
Proof.
  assert (Configures (fields scenario_discovered) (fields scenario_configured))
    as Hrun
    by (apply (Configures_action (Set_id "id")); [apply (bool_decide_unpack _); vm_compute; exact I|]; apply (Configures_action (Set_name "name")); [apply (bool_decide_unpack _); vm_compute; exact I|]; apply Configures_proceed; reflexivity).
  assert (∀ f, f ∈ (fields scenario_discovered) → isId f = false ∧ isName f = false)
    as Hunmarked
    by (apply (proj1 (Forall_forall _ _)); vm_compute; repeat constructor).
  split; [exact Hrun|].
  split; [exact Hunmarked|].
  exact (configuration_marks_one_name_each
           (fields scenario_discovered)
           (fields scenario_configured)
           Hrun Hunmarked).
Defined.

(** The request of the wizard on the scenario. *)
Lemma wizard_request_is_well_formed_witness :
  (confirmAndSave true scenario_configured = ret (returned (confirmAndSave true scenario_configured)))
  ∧
  (true = true
   ∧ arg_id (request (returned (confirmAndSave true scenario_configured))) = datasetId scenario_configured
   ∧ arg_name (request (returned (confirmAndSave true scenario_configured))) = datasetName scenario_configured
   ∧ arg_description (request (returned (confirmAndSave true scenario_configured))) = datasetDescription scenario_configured
   ∧ arg_fields (request (returned (confirmAndSave true scenario_configured)))
     = map final_field_wizard (filter (λ f, isIncluded f = true) (fields scenario_configured))
   ∧ (∀ fd, fd ∈ arg_fields (request (returned (confirmAndSave true scenario_configured))) →
        fd_IsIncluded fd = true
        ∧ fd_IsRequired fd = fd_IsId fd || fd_IsName fd)
   ∧ (∃ fd, fd ∈ arg_fields (request (returned (confirmAndSave true scenario_configured))) ∧ fd_IsId fd = true)
   ∧ (∃ fd, fd ∈ arg_fields (request (returned (confirmAndSave true scenario_configured))) ∧ fd_IsName fd = true)
   ∧ (∀ idName, marked isId idName (fields scenario_configured) →
        arg_idField (request (returned (confirmAndSave true scenario_configured))) = idName
        ∧ ∃ fd, fd ∈ arg_fields (request (returned (confirmAndSave true scenario_configured))) ∧ fd_Name fd = idName
                ∧ fd_IsId fd = true ∧ fd_IsRequired fd = true)
   ∧ (∀ nameName, marked isName nameName (fields scenario_configured) →
        arg_nameField (request (returned (confirmAndSave true scenario_configured))) = nameName
        ∧ ∃ fd, fd ∈ arg_fields (request (returned (confirmAndSave true scenario_configured))) ∧ fd_Name fd = nameName
                ∧ fd_IsName fd = true ∧ fd_IsRequired fd = true)).
Proof.
  assert (confirmAndSave true scenario_configured = ret (returned (confirmAndSave true scenario_configured)))
    as Hsaved
    by (vm_compute; reflexivity).
  split; [exact Hsaved|].
  exact (wizard_request_is_well_formed
           true
           scenario_configured
           (returned (confirmAndSave true scenario_configured))
           Hsaved).
Defined.

(** The field [pop] of the scenario, excluded and then made the ID field. *)
Lemma excluded_field_made_id_is_refused_at_save_witness :
  (NoDup (map name (fields scenario_discovered)))
  ∧
  (∀ f, f ∈ (fields scenario_discovered) →
   isId f = false ∧ isName f = false ∧ isIncluded f = true)
  ∧
  ("pop" ∈ map name (fields scenario_discovered))
  ∧
  ("name" ∈ map name (fields scenario_discovered))
  ∧
  (Configures (fields scenario_discovered) (exclude_then_mark "pop" "name" (fields scenario_discovered))
   ∧ perform (Toggle_include "pop") (perform (Set_id "pop") (fields scenario_discovered))
     = perform (Set_id "pop") (fields scenario_discovered)
   ∧ (∀ f, f ∈ exclude_then_mark "pop" "name" (fields scenario_discovered) →
        isId f = true → isIncluded f = false)
   ∧ ∀ confirm (state : WizardState PlainObject),
       fields state = exclude_then_mark "pop" "name" (fields scenario_discovered) →
       (∀ saved, confirmAndSave confirm state ≠ ret saved)
       ∧ ∀ acc,
           build_items (copy_included (fields state)) "pop" "name" (parsedJson state)
           = ret acc →
           confirmAndSave true state
           = throw (Error "Wizard cancelled due to invalid final field configuration.")).
Proof.
  assert (NoDup (map name (fields scenario_discovered)))
    as Hnodup
    by (apply (bool_decide_unpack _); vm_compute; exact I).
  assert (∀ f, f ∈ (fields scenario_discovered) →
          isId f = false ∧ isName f = false ∧ isIncluded f = true)
    as Hfresh
    by (apply (proj1 (Forall_forall _ _)); vm_compute; repeat constructor).
  assert ("pop" ∈ map name (fields scenario_discovered))
    as HX
    by (apply (bool_decide_unpack _); vm_compute; exact I).
  assert ("name" ∈ map name (fields scenario_discovered))
    as HY
    by (apply (bool_decide_unpack _); vm_compute; exact I).
  split; [exact Hnodup|].
  split; [exact Hfresh|].
  split; [exact HX|].
  split; [exact HY|].
  exact (excluded_field_made_id_is_refused_at_save
           (fields scenario_discovered)
           "pop"
           "name"
           Hnodup Hfresh HX HY).
Defined.

(** Two records with the IDs [us] and [fr]. *)
Lemma distinct_ids_keep_every_record_witness :
  (Forall2 (λ item k, candidate "id" "name" k item
   ∧ converts (Get item "name")
   ∧ k ≠ "" ∧ inherited k = false) distinct_records (["us"; "fr"]))
  ∧
  (NoDup (["us"; "fr"]))
  ∧
  (∃ itemsPayload,
     build_items (copy_all []) "id" "name" (Some distinct_records) = ret (itemsPayload, 0)
     ∧ size itemsPayload = length distinct_records
     ∧ ∀ k, is_Some (itemsPayload !! k) ↔ k ∈ (["us"; "fr"])).
Proof.
  assert (Forall2 (λ item k, candidate "id" "name" k item
          ∧ converts (Get item "name")
          ∧ k ≠ "" ∧ inherited k = false) distinct_records (["us"; "fr"]))
    as Hids
    by (repeat first [ apply Forall2_nil_2 | apply Forall2_cons_2; [split; [split; reflexivity|]; split; [eexists; reflexivity|]; split; [discriminate|reflexivity]|] ]).
  assert (NoDup (["us"; "fr"]))
    as Hnodup
    by (apply (bool_decide_unpack _); vm_compute; exact I).
  split; [exact Hids|].
  split; [exact Hnodup|].
  exact (distinct_ids_keep_every_record
           (copy_all [])
           "id"
           "name"
           distinct_records
           (["us"; "fr"])
           Hids Hnodup).
Defined.

(** The request of the [pull] action on the scenario. *)
Lemma pull_request_is_well_formed_witness :
  (pull_process (Some "id") None catalog_meta
   pull_state = ret (returned (pull_process (Some "id") None catalog_meta pull_state)))
  ∧
  (arg_id (request (returned (pull_process (Some "id") None catalog_meta pull_state))) = toLowerCase (datasetId pull_state)
   ∧ has_whitespace (arg_id (request (returned (pull_process (Some "id") None catalog_meta pull_state)))) = false
   ∧ toLowerCase (arg_id (request (returned (pull_process (Some "id") None catalog_meta pull_state)))) = arg_id (request (returned (pull_process (Some "id") None catalog_meta pull_state)))
   ∧ arg_name (request (returned (pull_process (Some "id") None catalog_meta pull_state))) = datasetName pull_state
   ∧ arg_name (request (returned (pull_process (Some "id") None catalog_meta pull_state))) ≠ ""
   ∧ arg_description (request (returned (pull_process (Some "id") None catalog_meta pull_state))) = datasetDescription pull_state
   ∧ chosen (Some "id") (idField catalog_meta)
     = Some (arg_idField (request (returned (pull_process (Some "id") None catalog_meta pull_state))))
   ∧ chosen None (nameField catalog_meta)
     = Some (arg_nameField (request (returned (pull_process (Some "id") None catalog_meta pull_state))))
   ∧ (∃ items,
        jsonContent pull_state = ParsesTo (JArr items)
        ∧ map fd_Name (arg_fields (request (returned (pull_process (Some "id") None catalog_meta pull_state)))) = first_seen (all_keys items)
        ∧ size (arg_items (request (returned (pull_process (Some "id") None catalog_meta pull_state)))) + skippedItemsCount (returned (pull_process (Some "id") None catalog_meta pull_state))
          = length items)
   ∧ ∀ fd, fd ∈ arg_fields (request (returned (pull_process (Some "id") None catalog_meta pull_state))) →
       fd_IsIncluded fd = true
       ∧ fd_IsRequired fd = fd_IsId fd || fd_IsName fd
       ∧ (fd_IsId fd = true ↔ fd_Name fd = arg_idField (request (returned (pull_process (Some "id") None catalog_meta pull_state))))
       ∧ (fd_IsName fd = true ↔ fd_Name fd = arg_nameField (request (returned (pull_process (Some "id") None catalog_meta pull_state))))).
Proof.
  assert (pull_process (Some "id") None catalog_meta
          pull_state = ret (returned (pull_process (Some "id") None catalog_meta pull_state)))
    as Hsaved
    by (vm_compute; reflexivity).
  split; [exact Hsaved|].
  exact (pull_request_is_well_formed
           (Some "id")
           None
           catalog_meta
           pull_state
           (returned (pull_process (Some "id") None catalog_meta pull_state))
           Hsaved).
Defined.

(** The scenario pulled under the name [Countries]. *)
Lemma pull_reaches_the_request_witness :
  (jsonContent pull_state = ParsesTo (JArr (map JObj scenario_records)))
  ∧
  ((validateAndProcessJson pull_state).2 = ReturnsTrue)
  ∧
  (datasetName pull_state ≠ "")
  ∧
  (has_whitespace (datasetId pull_state) = false)
  ∧
  (chosen (Some "id") (idField catalog_meta) = Some "id")
  ∧
  (chosen None (nameField catalog_meta) = Some "name")
  ∧
  ("id" ∈ all_keys (map JObj scenario_records))
  ∧
  ("name" ∈ all_keys (map JObj scenario_records))
  ∧
  (∀ item, JObj item ∈ (map JObj scenario_records) →
   is_primitive (Get item "id") = true
   ∧ is_primitive (Get item "name") = true)
  ∧
  (∃ saved,
     pull_process (Some "id") None catalog_meta pull_state
     = ret saved
     ∧ arg_idField (request saved) = "id"
     ∧ arg_nameField (request saved) = "name").
Proof.
  assert (jsonContent pull_state = ParsesTo (JArr (map JObj scenario_records)))
    as Hcontent
    by (reflexivity).
  assert ((validateAndProcessJson pull_state).2 = ReturnsTrue)
    as Hvalid
    by (vm_compute; reflexivity).
  assert (datasetName pull_state ≠ "")
    as Hname
    by (discriminate).
  assert (has_whitespace (datasetId pull_state) = false)
    as Hspace
    by (reflexivity).
  assert (chosen (Some "id") (idField catalog_meta) = Some "id")
    as HidField
    by (reflexivity).
  assert (chosen None (nameField catalog_meta) = Some "name")
    as HnameField
    by (reflexivity).
  assert ("id" ∈ all_keys (map JObj scenario_records))
    as HidIn
    by (apply (bool_decide_unpack _); vm_compute; exact I).
  assert ("name" ∈ all_keys (map JObj scenario_records))
    as HnameIn
    by (apply (bool_decide_unpack _); vm_compute; exact I).
  assert (∀ item, JObj item ∈ (map JObj scenario_records) →
          is_primitive (Get item "id") = true
          ∧ is_primitive (Get item "name") = true)
    as Hprimitive
    by (intros item Hin; vm_compute in Hin; repeat (apply elem_of_cons in Hin as [Hin|Hin]; [injection Hin as ->; split; reflexivity|]); by apply elem_of_nil in Hin).
  split; [exact Hcontent|].
  split; [exact Hvalid|].
  split; [exact Hname|].
  split; [exact Hspace|].
  split; [exact HidField|].
  split; [exact HnameField|].
  split; [exact HidIn|].
  split; [exact HnameIn|].
  split; [exact Hprimitive|].
  exact (pull_reaches_the_request
           (Some "id")
           None
           catalog_meta
           pull_state
           (map JObj scenario_records)
           "id"
           "name"
           Hcontent Hvalid Hname Hspace HidField HnameField HidIn HnameIn Hprimitive).
Defined.

(** The wizard on the scenario, with [id] and [name] marked. *)
Lemma wizard_sends_what_was_configured_witness :
  (validateAndProcessJson scenario_state = (scenario_discovered, ReturnsTrue))
  ∧
  (Configures (fields scenario_discovered) (fields scenario_configured))
  ∧
  (wizard_process (fields scenario_configured) (("countries", "Countries", "")) true scenario_state
   = ret (returned (wizard_process (fields scenario_configured) ("countries", "Countries", "") true scenario_state)))
  ∧
  (true = true
   ∧ arg_id (request (returned (wizard_process (fields scenario_configured) ("countries", "Countries", "") true scenario_state))) = (("countries", "Countries", "")).1.1
   ∧ arg_name (request (returned (wizard_process (fields scenario_configured) ("countries", "Countries", "") true scenario_state))) = (("countries", "Countries", "")).1.2
   ∧ arg_description (request (returned (wizard_process (fields scenario_configured) ("countries", "Countries", "") true scenario_state))) = (("countries", "Countries", "")).2
   ∧ map fd_Name (arg_fields (request (returned (wizard_process (fields scenario_configured) ("countries", "Countries", "") true scenario_state))))
       `sublist_of` map name (fields scenario_discovered)
   ∧ NoDup (map fd_Name (arg_fields (request (returned (wizard_process (fields scenario_configured) ("countries", "Countries", "") true scenario_state)))))
   ∧ arg_idField (request (returned (wizard_process (fields scenario_configured) ("countries", "Countries", "") true scenario_state))) ∈ map fd_Name (arg_fields (request (returned (wizard_process (fields scenario_configured) ("countries", "Countries", "") true scenario_state))))
   ∧ arg_nameField (request (returned (wizard_process (fields scenario_configured) ("countries", "Countries", "") true scenario_state))) ∈ map fd_Name (arg_fields (request (returned (wizard_process (fields scenario_configured) ("countries", "Countries", "") true scenario_state))))
   ∧ (∀ fd, fd ∈ arg_fields (request (returned (wizard_process (fields scenario_configured) ("countries", "Countries", "") true scenario_state))) →
        fd_IsIncluded fd = true
        ∧ (fd_IsId fd = true ↔ fd_Name fd = arg_idField (request (returned (wizard_process (fields scenario_configured) ("countries", "Countries", "") true scenario_state))))
        ∧ (fd_IsName fd = true ↔ fd_Name fd = arg_nameField (request (returned (wizard_process (fields scenario_configured) ("countries", "Countries", "") true scenario_state))))
        ∧ ∃ f, f ∈ fields scenario_discovered ∧ name f = fd_Name fd
               ∧ sampleValues f = fd_SampleValues fd)
   ∧ size (arg_items (request (returned (wizard_process (fields scenario_configured) ("countries", "Countries", "") true scenario_state)))) + skippedItemsCount (returned (wizard_process (fields scenario_configured) ("countries", "Countries", "") true scenario_state))
     = itemCount scenario_discovered).
Proof.
  assert (validateAndProcessJson scenario_state = (scenario_discovered, ReturnsTrue))
    as Hvalid
    by (vm_compute; reflexivity).
  assert (Configures (fields scenario_discovered) (fields scenario_configured))
    as Hrun
    by (apply (Configures_action (Set_id "id")); [apply (bool_decide_unpack _); vm_compute; exact I|]; apply (Configures_action (Set_name "name")); [apply (bool_decide_unpack _); vm_compute; exact I|]; apply Configures_proceed; reflexivity).
  assert (wizard_process (fields scenario_configured) (("countries", "Countries", "")) true scenario_state
          = ret (returned (wizard_process (fields scenario_configured) ("countries", "Countries", "") true scenario_state)))
    as Hsaved
    by (vm_compute; reflexivity).
  split; [exact Hvalid|].
  split; [exact Hrun|].
  split; [exact Hsaved|].
  exact (wizard_sends_what_was_configured
           (fields scenario_configured)
           (("countries", "Countries", ""))
           true
           scenario_state
           scenario_discovered
           (returned (wizard_process (fields scenario_configured) ("countries", "Countries", "") true scenario_state))
           Hvalid Hrun Hsaved).
Defined.

(** ** Inputs on which statements of the specification fail *)

(** C3 as stated fails when the option is given as the empty string:
    the [pull] action tests the option for truthiness, so it does not look
    the empty name up.  Where no field has the empty name it goes on with
    the hint of the catalog instead of failing with the field-not-found
    error; where a field has the empty name it does not mark that field,
    and fails with the resolution error when there is no hint. *)
Lemma empty_field_option_is_not_looked_up :
  (("" ∉ map name code_title)
   ∧ resolve_id (Some "") (Some "code") code_title
     = ret [ set_isId true (new_field "code" (VJson (JStr "c1")));
             new_field "title" (VJson (JStr "t1")) ]
   ∧ resolve_id (Some "") (Some "code") code_title
     ≠ throw (FieldNotFoundError "ID" "" (map name code_title)))
  ∧ (("" ∈ map name blank_title)
     ∧ resolve_id (Some "") None blank_title = throw ResolutionError_id
     ∧ ¬ ∃ fields',
           resolve_id (Some "") None blank_title = ret fields'
           ∧ ∀ f, f ∈ fields' →
               isId f = if decide (name f = "") then true else false).
Proof.
  split.
  - split; [|split; [reflexivity|discriminate]].
    intros Hin. repeat (apply elem_of_cons in Hin as [Hin|Hin];
                        [discriminate|]). by apply elem_of_nil in Hin.
  - split; [by left|]. split; [reflexivity|].
    intros (fields' & Hret & _). discriminate.
Qed.

(** C5 as stated fails on the array [[{}]]: it is not empty and holds
    plain objects only, but discovery finds no key, reaches the guard on
    an empty dictionary and produces no field: the call ends there, by
    the exception of [printError]. *)
Lemma discovery_fails_without_keys :
  let items := [JObj []] in
  items ≠ []
  ∧ Forall (λ item, plain_object item = true) items
  ∧ discover_items items 0 [] = inr []
  ∧ (validateAndProcessJson
       (set_jsonContent (ParsesTo (JArr items)) new_wizardState)).2
    = Throws ReferenceError
  ∧ ¬ ∃ st',
        validateAndProcessJson
          (set_jsonContent (ParsesTo (JArr items)) new_wizardState)
        = (st', ReturnsTrue)
        ∧ map name (fields st') = first_seen (all_keys items).
Proof.
  split; [discriminate|]. split; [repeat constructor|].
  split; [reflexivity|].
  split; [reflexivity|]. intros (st' & Htrue & _).
  vm_compute in Htrue. discriminate.
Qed.

(** C10 as stated fails on a record whose ID is an object that owns a
    [toString] property: [String] throws, the loop ends there, and the
    record is neither inserted nor counted. *)
Lemma construction_throws_on_unconvertible_id :
  build_items (copy_included (fields scenario_configured)) "id" "name"
    (Some unconvertible_records) = throw TypeError
  ∧ build_items (copy_all (fields scenario_configured)) "id" "name"
      (Some unconvertible_records) = throw TypeError
  ∧ ¬ ∃ itemsPayload skipped,
        build_items (copy_included (fields scenario_configured)) "id" "name"
          (Some unconvertible_records) = ret (itemsPayload, skipped)
        ∧ size itemsPayload + skipped = length unconvertible_records.
Proof.
  split; [reflexivity|]. split; [reflexivity|].
  intros (itemsPayload & skipped & Hret & _). discriminate.
Qed.

End Reference.
